(** * Neon Defense: the simulation step, placement handler and wave generator

    A shallow embedding of [components/GameCanvas.tsx] (the per-frame
    [update], [damageEnemy], [createParticles], [handleCanvasClick]),
    [App.tsx] (the state holder and its callbacks), [constants.ts],
    [types.ts] and [services/geminiService.ts] (the credential probe and
    the deterministic fallback generator).

    Numbers.  JavaScript numbers are IEEE doubles; here the integer-valued
    ones (money, lives, counts, frame timers) are [Z] and the others are
    exact rationals [Q], kept in lowest terms by the operations below.
    Rounding, NaN and infinities are therefore outside the model; a
    division by zero yields 0 as in [Qdiv].  [Math.sqrt], [Math.random] and
    the number-to-string conversions are parameters of the development
    ([Host.t]).

    State.  The canvas keeps its entities in refs ([Refs.t]) and mutates
    them in place; an enemy object found by [find] is the array element
    itself, so a mutation of it is a mutation of the list.  The state of
    [App] is changed only through the props the canvas calls
    ([setGameState] with an updater, [onWaveComplete]; [onGameOver] is
    called from inside an updater): [update] and [handleCanvasClick] return
    the list of these calls next to the new refs, and [applyCalls] runs
    them in order.  [update] reads [gameState] and [waveComposition] only
    from the props of the last render, so running the queued calls after
    the step is what the page does, provided the render that follows a
    state change happens before the next animation frame. *)

From Stdlib Require Import ZArith QArith Qround Qminmax List Bool String Ascii Lia.
From Stdlib Require Import DecimalString.
Import ListNotations.

Local Open Scope Z_scope.

(** ** Arithmetic on rationals in lowest terms *)

Definition qadd (a b : Q) : Q := Qred (a + b).
Definition qsub (a b : Q) : Q := Qred (a - b).
Definition qmul (a b : Q) : Q := Qred (a * b).
Definition qdiv (a b : Q) : Q := Qred (a / b).
Definition qz (z : Z) : Q := inject_Z z.

(** [a < b], [a <= b] and [a === b] on numbers, as booleans. *)
Definition Qltb (a b : Q) : bool := negb (Qle_bool b a).
Definition Qleb (a b : Q) : bool := Qle_bool a b.
Definition Qeqb (a b : Q) : bool := Qeq_bool a b.

Declare Scope js_scope.
Delimit Scope js_scope with js.
Infix "+!" := qadd (at level 50, left associativity) : js_scope.
Infix "-!" := qsub (at level 50, left associativity) : js_scope.
Infix "*!" := qmul (at level 40, left associativity) : js_scope.
Infix "/!" := qdiv (at level 40, left associativity) : js_scope.
Infix "<!" := Qltb (at level 70, no associativity) : js_scope.
Infix "<=!" := Qleb (at level 70, no associativity) : js_scope.
Infix "===!" := Qeqb (at level 70, no associativity) : js_scope.
Local Open Scope js_scope.

(** ** types.ts *)

Module Vector2D.
Record t := mk { x : Q; y : Q }.
End Vector2D.

Inductive EnemyType := SCOUT | grunt | TANK | BOSS.

Inductive TowerType := BLASTER | CANNON | SNIPER | SLOW.

Definition EnemyType_eqb (a b : EnemyType) : bool :=
  match a, b with
  | SCOUT, SCOUT | grunt, grunt | TANK, TANK | BOSS, BOSS => true
  | _, _ => false
  end.

Definition TowerType_eqb (a b : TowerType) : bool :=
  match a, b with
  | BLASTER, BLASTER | CANNON, CANNON | SNIPER, SNIPER | SLOW, SLOW => true
  | _, _ => false
  end.

Module EnemyConfig.
Record t := mk {
    speed : Q;
    hp : Q;
    bounty : Z;
    color : string;
    radius : Q
  }.
End EnemyConfig.

Module TowerConfig.
Record t := mk {
    name : string;
    range : Q;
    damage : Q;
    cooldown : Z;
    cost : Z;
    color : string;
    description : string
  }.
End TowerConfig.

Module EnemyEntity.
Record t := mk {
    id : string;
    type : EnemyType;
    x : Q;
    y : Q;
    hp : Q;
    maxHp : Q;
    speed : Q;
    pathIndex : nat;
    frozen : Z;
    distanceTraveled : Q
  }.
End EnemyEntity.

Module TowerEntity.
Record t := mk {
    id : string;
    type : TowerType;
    x : Q;
    y : Q;
    cooldownTimer : Z;
    level : Z;
    range : Q;
    damage : Q;
    fireRate : Z
  }.
End TowerEntity.

Module ProjectileEntity.
Record t := mk {
    id : string;
    x : Q;
    y : Q;
    targetId : string;
    damage : Q;
    speed : Q;
    color : string;
    isAoE : bool;
    slowEffect : option Z
  }.
End ProjectileEntity.

Module Particle.
Record t := mk {
    id : string;
    x : Q;
    y : Q;
    vx : Q;
    vy : Q;
    life : Q;
    maxLife : Q;
    color : string;
    size : Q
  }.
End Particle.

(** One entry of [WaveComposition.enemies]. *)
Module SpawnGroup.
Record t := mk {
    type : EnemyType;
    count : Z;
    interval : Z;
    hpMultiplier : Q
  }.
End SpawnGroup.

Module WaveComposition.
Record t := mk {
    enemies : list SpawnGroup.t;
    briefing : string
  }.
End WaveComposition.

Module GameState.
Record t := mk {
    money : Z;
    lives : Z;
    wave : Z;
    isPlaying : bool;
    isGameOver : bool;
    gameSpeed : Z
  }.
End GameState.

(** ** constants.ts *)

Definition GRID_SIZE : Z := 40.
Definition CANVAS_WIDTH : Z := 800.
Definition CANVAS_HEIGHT : Z := 600.
Definition FPS : Z := 60.

Definition PATH_WAYPOINTS : list Vector2D.t :=
  map (fun p : Z * Z =>
         Vector2D.mk (qz (fst p * GRID_SIZE) +! qz GRID_SIZE /! qz 2)
                     (qz (snd p * GRID_SIZE) +! qz GRID_SIZE /! qz 2))
      [ (0, 2); (5, 2); (5, 8); (12, 8); (12, 4);
        (18, 4); (18, 10); (8, 10); (8, 13); (20, 13) ].

Definition ENEMY_STATS (ty : EnemyType) : EnemyConfig.t :=
  match ty with
  | SCOUT => EnemyConfig.mk (5 # 2) (qz 30) 5 "#facc15" (qz 8)
  | grunt => EnemyConfig.mk (3 # 2) (qz 80) 10 "#f87171" (qz 12)
  | TANK => EnemyConfig.mk (4 # 5) (qz 300) 30 "#a855f7" (qz 16)
  | BOSS => EnemyConfig.mk (2 # 5) (qz 2000) 200 "#ef4444" (qz 24)
  end.

Definition TOWER_STATS (ty : TowerType) : TowerConfig.t :=
  match ty with
  | BLASTER =>
      TowerConfig.mk "Pulse Turret" (qz 120) (qz 15) 20 50 "#38bdf8"
        "Rapid fire, single target energy weapon."
  | SNIPER =>
      TowerConfig.mk "Railgun" (qz 250) (qz 100) 90 150 "#84cc16"
        "Long range, high damage, slow reload."
  | CANNON =>
      TowerConfig.mk "Plasma Mortar" (qz 150) (qz 40) 60 200 "#f97316"
        "Deals splash damage to grouped enemies."
  | SLOW =>
      TowerConfig.mk "Stasis Field" (qz 100) (qz 2) 10 120 "#6366f1"
        "Slows down nearby enemies."
  end.

Definition INITIAL_MONEY : Z := 120.
Definition INITIAL_LIVES : Z := 20.

(** ** services/geminiService.ts *)

(** Result of an [async] function or of a call that may throw. *)
Inductive Promise (A : Type) : Type :=
| Resolved (a : A)
| Rejected (err : string).
Arguments Resolved {A} a.
Arguments Rejected {A} err.

(** White space removed by [String.prototype.trim] (the ASCII part). *)
Definition isWhiteSpace (c : ascii) : bool :=
  let n := nat_of_ascii c in
  ((n =? 32) || (n =? 9) || (n =? 10) || (n =? 11) || (n =? 12) || (n =? 13))%nat.

Fixpoint trimStart (s : string) : string :=
  match s with
  | String c s' => if isWhiteSpace c then trimStart s' else s
  | EmptyString => EmptyString
  end.

Fixpoint rev_string (s acc : string) : string :=
  match s with
  | String c s' => rev_string s' (String c acc)
  | EmptyString => acc
  end.

Definition trim (s : string) : string :=
  rev_string (trimStart (rev_string (trimStart s) EmptyString)) EmptyString.

(** The host environment seen by [getApiKey]: [None] stands for every way
    in which [process.env.API_KEY] is not a string ([process] undefined,
    no [env], variable unset, or an access that throws and is caught). *)
Module Env.
Record t := mk { API_KEY : option string }.
End Env.

Definition getApiKey (env : Env.t) : option string :=
  match Env.API_KEY env with
  | Some key =>
      if (0 <? String.length key)%nat          (* [process.env.API_KEY] is truthy *)
      then if (0 <? String.length (trim key))%nat then Some key else None
      else None
  | None => None
  end.

(** [getClient]: the client is represented by the key it was built from. *)
Definition getClient (env : Env.t) : option string :=
  match getApiKey env with
  | Some apiKey => Some apiKey
  | None => None
  end.


(** Template literal [`${n}`] for an integer. *)
Definition showZ (n : Z) : string := NilZero.string_of_int (Z.to_int n).

(** [const difficultyMult = 1 + (waveNumber * 0.2)] *)
Definition difficultyMult (waveNumber : Z) : Q :=
  qz 1 +! (qz waveNumber *! (1 # 5)).

Definition generateFallbackWave (waveNumber : Z) : WaveComposition.t :=
  let difficultyMult := difficultyMult waveNumber in
  let enemies0 :=
    [ SpawnGroup.mk grunt
        (Qfloor (qz 5 *! difficultyMult))
        (Z.max 20 (60 - waveNumber * 2))
        difficultyMult ] in
  let enemies1 :=
    if 2 <=? waveNumber
    then enemies0 ++
         [ SpawnGroup.mk SCOUT (Qfloor (qz 3 *! difficultyMult)) 40
             (difficultyMult *! (4 # 5)) ]
    else enemies0 in
  let enemies2 :=
    if (4 <=? waveNumber) && (Z.rem waveNumber 2 =? 0)
    then enemies1 ++
         [ SpawnGroup.mk TANK (Qfloor (qz 1 +! qz waveNumber /! qz 5)) 100
             (difficultyMult *! (3 # 2)) ]
    else enemies1 in
  let enemies3 :=
    if Z.rem waveNumber 10 =? 0
    then enemies2 ++
         [ SpawnGroup.mk BOSS 1 200 (difficultyMult *! qz 4) ]
    else enemies2 in
  WaveComposition.mk enemies3
    ("[SIMULATION MODE] Neural uplink offline. Wave " ++ showZ waveNumber ++
     " generated via local combat algorithms.")%string.

Section GeminiService.

  (** The remote model: [generateContent client waveNumber difficultyMod]
      is the outcome of the request (its [text], possibly missing), and
      [JSON_parse] the outcome of decoding that text. *)
Variable generateContent : string -> Z -> Q -> Promise (option string).
Variable JSON_parse : string -> Promise WaveComposition.t.

Definition generateWave (env : Env.t) (waveNumber : Z) (difficultyMod : Q)
    : Promise WaveComposition.t :=
    match getClient env with
    | None => Resolved (generateFallbackWave waveNumber)
    | Some ai =>
        match generateContent ai waveNumber difficultyMod with
        | Resolved (Some text) =>
            if (0 <? String.length text)%nat
            then match JSON_parse text with
                 | Resolved wc => Resolved wc
                 | Rejected _ => Resolved (generateFallbackWave waveNumber)
                 end
            else Resolved (generateFallbackWave waveNumber)
        | Resolved None => Resolved (generateFallbackWave waveNumber)
        | Rejected _ => Resolved (generateFallbackWave waveNumber)
        end
    end.

End GeminiService.

Definition fallbackQuotes : list string :=
  [ "Simulation Mode: Rely on standard combat protocols.";
    "Neural Link Offline: Commander, proceed with manual targeting.";
    "Pattern Analysis: Enemy density increasing.";
    "Resource Alert: Optimize spending for maximum efficiency.";
    "Local Sensors: Hostiles approaching from the vector." ]%string.

(** ** components/GameCanvas.tsx: the mutable refs *)

Module Refs.
Record t := mk {
    enemiesRef : list EnemyEntity.t;
    towersRef : list TowerEntity.t;
    projectilesRef : list ProjectileEntity.t;
    particlesRef : list Particle.t;
    frameCountRef : Z;
    spawnIndexRef : Z;
    spawnTimerRef : Z;
    enemiesToSpawnRef : list SpawnGroup.t;
    (** number of [Math.random()] calls made so far *)
    randomCalls : nat
  }.
End Refs.

Definition set_enemies (es : list EnemyEntity.t) (r : Refs.t) : Refs.t :=
  Refs.mk es (Refs.towersRef r) (Refs.projectilesRef r) (Refs.particlesRef r)
    (Refs.frameCountRef r) (Refs.spawnIndexRef r) (Refs.spawnTimerRef r)
    (Refs.enemiesToSpawnRef r) (Refs.randomCalls r).

Definition set_towers (ts : list TowerEntity.t) (r : Refs.t) : Refs.t :=
  Refs.mk (Refs.enemiesRef r) ts (Refs.projectilesRef r) (Refs.particlesRef r)
    (Refs.frameCountRef r) (Refs.spawnIndexRef r) (Refs.spawnTimerRef r)
    (Refs.enemiesToSpawnRef r) (Refs.randomCalls r).

Definition set_projectiles (ps : list ProjectileEntity.t) (r : Refs.t) : Refs.t :=
  Refs.mk (Refs.enemiesRef r) (Refs.towersRef r) ps (Refs.particlesRef r)
    (Refs.frameCountRef r) (Refs.spawnIndexRef r) (Refs.spawnTimerRef r)
    (Refs.enemiesToSpawnRef r) (Refs.randomCalls r).

Definition set_particles (ps : list Particle.t) (r : Refs.t) : Refs.t :=
  Refs.mk (Refs.enemiesRef r) (Refs.towersRef r) (Refs.projectilesRef r) ps
    (Refs.frameCountRef r) (Refs.spawnIndexRef r) (Refs.spawnTimerRef r)
    (Refs.enemiesToSpawnRef r) (Refs.randomCalls r).

Definition set_frameCount (n : Z) (r : Refs.t) : Refs.t :=
  Refs.mk (Refs.enemiesRef r) (Refs.towersRef r) (Refs.projectilesRef r)
    (Refs.particlesRef r) n (Refs.spawnIndexRef r) (Refs.spawnTimerRef r)
    (Refs.enemiesToSpawnRef r) (Refs.randomCalls r).

Definition set_spawnIndex (n : Z) (r : Refs.t) : Refs.t :=
  Refs.mk (Refs.enemiesRef r) (Refs.towersRef r) (Refs.projectilesRef r)
    (Refs.particlesRef r) (Refs.frameCountRef r) n (Refs.spawnTimerRef r)
    (Refs.enemiesToSpawnRef r) (Refs.randomCalls r).

Definition set_spawnTimer (n : Z) (r : Refs.t) : Refs.t :=
  Refs.mk (Refs.enemiesRef r) (Refs.towersRef r) (Refs.projectilesRef r)
    (Refs.particlesRef r) (Refs.frameCountRef r) (Refs.spawnIndexRef r) n
    (Refs.enemiesToSpawnRef r) (Refs.randomCalls r).

Definition set_enemiesToSpawn (q : list SpawnGroup.t) (r : Refs.t) : Refs.t :=
  Refs.mk (Refs.enemiesRef r) (Refs.towersRef r) (Refs.projectilesRef r)
    (Refs.particlesRef r) (Refs.frameCountRef r) (Refs.spawnIndexRef r)
    (Refs.spawnTimerRef r) q (Refs.randomCalls r).

Definition set_randomCalls (n : nat) (r : Refs.t) : Refs.t :=
  Refs.mk (Refs.enemiesRef r) (Refs.towersRef r) (Refs.projectilesRef r)
    (Refs.particlesRef r) (Refs.frameCountRef r) (Refs.spawnIndexRef r)
    (Refs.spawnTimerRef r) (Refs.enemiesToSpawnRef r) n.

(** Calls the canvas makes on the props it received from [App]. *)
Inductive Call :=
| AddMoney (bounty : Z)   (* setGameState(prev => ({...prev, money: prev.money + bounty})) *)
| SpendMoney (cost : Z)   (* setGameState(prev => ({...prev, money: prev.money - cost})) *)
| LoseLife                (* setGameState(prev => { lives - 1; if (newLives <= 0) onGameOver() }) *)
| OnWaveComplete.         (* onWaveComplete() *)

Definition Call_eqb (a b : Call) : bool :=
  match a, b with
  | AddMoney m, AddMoney n => m =? n
  | SpendMoney m, SpendMoney n => m =? n
  | LoseLife, LoseLife => true
  | OnWaveComplete, OnWaveComplete => true
  | _, _ => false
  end.

(** Field updates on an enemy object. *)
Definition enemy_with_hp (h : Q) (e : EnemyEntity.t) : EnemyEntity.t :=
  EnemyEntity.mk (EnemyEntity.id e) (EnemyEntity.type e) (EnemyEntity.x e)
    (EnemyEntity.y e) h (EnemyEntity.maxHp e) (EnemyEntity.speed e)
    (EnemyEntity.pathIndex e) (EnemyEntity.frozen e)
    (EnemyEntity.distanceTraveled e).

Definition enemy_with_frozen (f : Z) (e : EnemyEntity.t) : EnemyEntity.t :=
  EnemyEntity.mk (EnemyEntity.id e) (EnemyEntity.type e) (EnemyEntity.x e)
    (EnemyEntity.y e) (EnemyEntity.hp e) (EnemyEntity.maxHp e)
    (EnemyEntity.speed e) (EnemyEntity.pathIndex e) f
    (EnemyEntity.distanceTraveled e).

Definition enemy_with_motion (nx ny : Q) (idx : nat) (d : Q) (e : EnemyEntity.t)
  : EnemyEntity.t :=
  EnemyEntity.mk (EnemyEntity.id e) (EnemyEntity.type e) nx ny
    (EnemyEntity.hp e) (EnemyEntity.maxHp e) (EnemyEntity.speed e) idx
    (EnemyEntity.frozen e) d.

Definition tower_with_cooldownTimer (c : Z) (t : TowerEntity.t) : TowerEntity.t :=
  TowerEntity.mk (TowerEntity.id t) (TowerEntity.type t) (TowerEntity.x t)
    (TowerEntity.y t) c (TowerEntity.level t) (TowerEntity.range t)
    (TowerEntity.damage t) (TowerEntity.fireRate t).

Definition projectile_with_xy (nx ny : Q) (p : ProjectileEntity.t)
  : ProjectileEntity.t :=
  ProjectileEntity.mk (ProjectileEntity.id p) nx ny (ProjectileEntity.targetId p)
    (ProjectileEntity.damage p) (ProjectileEntity.speed p)
    (ProjectileEntity.color p) (ProjectileEntity.isAoE p)
    (ProjectileEntity.slowEffect p).

(** The part of a click event the handler reads. *)
Module MouseEvent.
Record t := mk { clientX : Q; clientY : Q }.
End MouseEvent.

(** [canvasRef.current?.getBoundingClientRect()] *)
Module DOMRect.
Record t := mk { left : Q; top : Q }.
End DOMRect.

(** ** components/GameCanvas.tsx: the game loop *)

(** What the host supplies: [Math.sqrt]; the [k]-th call of [Math.random()]
    since the page was loaded; [n.toString()] and [n.toString(36)]. *)
Module Host.
Record t := mk {
    Math_sqrt : Q -> Q;
    Math_random : nat -> Q;
    toString : Q -> string;
    toString36 : Q -> string
  }.
End Host.

Section GameCanvas.

Variable host : Host.t.

Local Abbreviation Math_sqrt := (Host.Math_sqrt host).
Local Abbreviation Math_random := (Host.Math_random host).
Local Abbreviation toString := (Host.toString host).
Local Abbreviation toString36 := (Host.toString36 host).

Definition dist (x1 y1 x2 y2 : Q) : Q :=
  Math_sqrt ((x2 -! x1) *! (x2 -! x1) +! (y2 -! y1) *! (y2 -! y1)).

(** One iteration of the loop of [createParticles]. *)
Definition newParticle (x y : Q) (color : string) (k : nat) : Particle.t :=
  Particle.mk (toString (Math_random k)) x y
    ((Math_random (k + 1) -! (1 # 2)) *! qz 4)
    ((Math_random (k + 2) -! (1 # 2)) *! qz 4)
    (qz 20 +! Math_random (k + 3) *! qz 20)
    (qz 40) color
    (qz 2 +! Math_random (k + 4) *! qz 3).

Fixpoint createParticles (x y : Q) (color : string) (count : nat) (r : Refs.t)
  : Refs.t :=
  match count with
  | O => r
  | S n =>
      let k := Refs.randomCalls r in
      createParticles x y color n
        (set_randomCalls (k + 5)
           (set_particles (Refs.particlesRef r ++ [newParticle x y color k]) r))
  end.

(** [damageEnemy] on an enemy object; the caller stores the object back. *)
Definition damageEnemy (enemy : EnemyEntity.t) (dmg : Q) (r : Refs.t)
  : EnemyEntity.t * Refs.t * list Call :=
  let enemy' := enemy_with_hp (EnemyEntity.hp enemy -! dmg) enemy in
  if EnemyEntity.hp enemy' <=! 0
  then (enemy',
        createParticles (EnemyEntity.x enemy') (EnemyEntity.y enemy')
          (EnemyConfig.color (ENEMY_STATS (EnemyEntity.type enemy'))) 10 r,
        [AddMoney (EnemyConfig.bounty (ENEMY_STATS (EnemyEntity.type enemy')))])
  else (enemy', r, []).

(** *** 1. Spawning logic *)

Definition newEnemy (currentGroup : SpawnGroup.t) (k : nat) : EnemyEntity.t :=
  let stats := ENEMY_STATS (SpawnGroup.type currentGroup) in
  match nth_error PATH_WAYPOINTS 0 with
  | Some startNode =>
      EnemyEntity.mk
        (substring 2 9 (toString36 (Math_random k)))
        (SpawnGroup.type currentGroup)
        (Vector2D.x startNode) (Vector2D.y startNode)
        (EnemyConfig.hp stats *! SpawnGroup.hpMultiplier currentGroup)
        (EnemyConfig.hp stats *! SpawnGroup.hpMultiplier currentGroup)
        (EnemyConfig.speed stats) 0 0 0
  | None =>
      EnemyEntity.mk EmptyString (SpawnGroup.type currentGroup) 0 0 0 0 0 0 0 0
  end.

Definition group_with_count (c : Z) (g : SpawnGroup.t) : SpawnGroup.t :=
  SpawnGroup.mk (SpawnGroup.type g) c (SpawnGroup.interval g)
    (SpawnGroup.hpMultiplier g).

Definition spawning (waveComposition : option WaveComposition.t) (r : Refs.t)
  : Refs.t * list Call :=
  match Refs.enemiesToSpawnRef r with
  | currentGroup :: rest =>
      let timer := Refs.spawnTimerRef r + 1 in
      if SpawnGroup.interval currentGroup <=? timer then
        let k := Refs.randomCalls r in
        let enemies := Refs.enemiesRef r ++ [newEnemy currentGroup k] in
        let count := SpawnGroup.count currentGroup - 1 in
        let queue :=
          if count <=? 0 then rest
          else group_with_count count currentGroup :: rest in
        (set_enemiesToSpawn queue
           (set_randomCalls (k + 1)
              (set_enemies enemies (set_spawnTimer 0 r))), [])
      else (set_spawnTimer timer r, [])
  | [] =>
      match Refs.enemiesRef r, waveComposition with
      | [], Some _ => (r, [OnWaveComplete])
      | _, _ => (r, [])
      end
  end.

(** *** 2. Update enemies *)

(** [enemy.frozen] after [if (enemy.frozen > 0) enemy.frozen--]. *)
Definition frozenAfterTick (e : EnemyEntity.t) : Z :=
  if 0 <? EnemyEntity.frozen e then EnemyEntity.frozen e - 1
  else EnemyEntity.frozen e.

(** [currentSpeed], read after the decrement. *)
Definition currentSpeed (e : EnemyEntity.t) : Q :=
  if 0 <? frozenAfterTick e then EnemyEntity.speed e *! (1 # 2)
  else EnemyEntity.speed e.

(** The body of the [forEach] over the enemies. *)
Definition updateEnemy (enemy : EnemyEntity.t) : EnemyEntity.t * list Call :=
  let e1 := enemy_with_frozen (frozenAfterTick enemy) enemy in
  let speed := currentSpeed enemy in
  match nth_error PATH_WAYPOINTS (EnemyEntity.pathIndex e1 + 1) with
  | Some targetNode =>
      let dx := Vector2D.x targetNode -! EnemyEntity.x e1 in
      let dy := Vector2D.y targetNode -! EnemyEntity.y e1 in
      let distance := Math_sqrt (dx *! dx +! dy *! dy) in
      if distance <! speed then
        (enemy_with_motion (Vector2D.x targetNode) (Vector2D.y targetNode)
           (EnemyEntity.pathIndex e1 + 1)
           (EnemyEntity.distanceTraveled e1 +! speed) e1, [])
      else
        (enemy_with_motion
           (EnemyEntity.x e1 +! (dx /! distance) *! speed)
           (EnemyEntity.y e1 +! (dy /! distance) *! speed)
           (EnemyEntity.pathIndex e1)
           (EnemyEntity.distanceTraveled e1 +! speed) e1, [])
  | None =>
      (enemy_with_hp 0 e1, [LoseLife])
  end.

Fixpoint updateEnemies (es : list EnemyEntity.t)
  : list EnemyEntity.t * list Call :=
  match es with
  | [] => ([], [])
  | e :: rest =>
      let '(e', c1) := updateEnemy e in
      let '(rest', c2) := updateEnemies rest in
      (e' :: rest', c1 ++ c2)
  end.

(** [e => e.hp > 0] *)
Definition alive (e : EnemyEntity.t) : bool := 0 <! EnemyEntity.hp e.

Definition removeDead (es : list EnemyEntity.t) : list EnemyEntity.t :=
  filter alive es.

(** *** 3. Towers fire *)

(** The [for ... of] loop that looks for a target, from [(null, -1)]. *)
Fixpoint findTarget (tower : TowerEntity.t) (es : list EnemyEntity.t)
  (target : option EnemyEntity.t) (maxDist : Q) : option EnemyEntity.t :=
  match es with
  | [] => target
  | enemy :: rest =>
      let d := dist (TowerEntity.x tower) (TowerEntity.y tower)
                 (EnemyEntity.x enemy) (EnemyEntity.y enemy) in
      if (d <=! TowerEntity.range tower)
         && (maxDist <! EnemyEntity.distanceTraveled enemy)
      then findTarget tower rest (Some enemy) (EnemyEntity.distanceTraveled enemy)
      else findTarget tower rest target maxDist
  end.

Definition newProjectile (tower : TowerEntity.t) (target : EnemyEntity.t)
  (k : nat) : ProjectileEntity.t :=
  let stats := TOWER_STATS (TowerEntity.type tower) in
  ProjectileEntity.mk (toString (Math_random k))
    (TowerEntity.x tower) (TowerEntity.y tower)
    (EnemyEntity.id target) (TowerEntity.damage tower) (qz 10)
    (TowerConfig.color stats)
    (TowerType_eqb (TowerEntity.type tower) CANNON)
    (Some (if TowerType_eqb (TowerEntity.type tower) SLOW then 60 else 0)).

(** The body of the [forEach] over the towers; [r] carries the projectile
    list and the random counter. *)
Definition fireTower (tower : TowerEntity.t) (r : Refs.t)
  : TowerEntity.t * Refs.t :=
  let t1 :=
    if 0 <? TowerEntity.cooldownTimer tower
    then tower_with_cooldownTimer (TowerEntity.cooldownTimer tower - 1) tower
    else tower in
  if TowerEntity.cooldownTimer t1 <=? 0 then
    match findTarget t1 (Refs.enemiesRef r) None (-1 # 1) with
    | Some target =>
        let stats := TOWER_STATS (TowerEntity.type t1) in
        let k := Refs.randomCalls r in
        (tower_with_cooldownTimer (TowerConfig.cooldown stats) t1,
         set_randomCalls (k + 1)
           (set_projectiles
              (Refs.projectilesRef r ++ [newProjectile t1 target k]) r))
    | None => (t1, r)
    end
  else (t1, r).

Fixpoint fireTowers (ts : list TowerEntity.t) (r : Refs.t)
  : list TowerEntity.t * Refs.t :=
  match ts with
  | [] => ([], r)
  | t :: rest =>
      let '(t', r1) := fireTower t r in
      let '(rest', r2) := fireTowers rest r1 in
      (t' :: rest', r2)
  end.

Definition towersFire (r : Refs.t) : Refs.t :=
  let '(ts, r') := fireTowers (Refs.towersRef r) r in
  set_towers ts r'.

(** *** 4. Update projectiles *)

(** [enemiesRef.current.find(e => e.id === tid)] *)
Fixpoint find (tid : string) (es : list EnemyEntity.t) : option EnemyEntity.t :=
  match es with
  | [] => None
  | e :: rest => if String.eqb (EnemyEntity.id e) tid then Some e else find tid rest
  end.

(** The object returned by [find] is the array element itself: a mutation
    of [target] is a mutation of the first enemy carrying its id. *)
Fixpoint storeTarget (target : EnemyEntity.t) (es : list EnemyEntity.t)
  : list EnemyEntity.t :=
  match es with
  | [] => []
  | e :: rest =>
      if String.eqb (EnemyEntity.id e) (EnemyEntity.id target)
      then target :: rest
      else e :: storeTarget target rest
  end.

(** The splash [forEach]: every enemy closer than 60 to the impact point. *)
Fixpoint splash (tx ty dmg : Q) (es : list EnemyEntity.t) (r : Refs.t)
  : list EnemyEntity.t * Refs.t * list Call :=
  match es with
  | [] => ([], r, [])
  | e :: rest =>
      let '(e', r1, c1) :=
        if dist tx ty (EnemyEntity.x e) (EnemyEntity.y e) <! qz 60
        then damageEnemy e dmg r
        else (e, r, []) in
      let '(rest', r2, c2) := splash tx ty dmg rest r1 in
      (e' :: rest', r2, c1 ++ c2)
  end.

(** The body of the projectile loop; [None] when the projectile is spliced
    out of the array. *)
Definition updateProjectile (p : ProjectileEntity.t) (r : Refs.t)
  : option ProjectileEntity.t * Refs.t * list Call :=
  match find (ProjectileEntity.targetId p) (Refs.enemiesRef r) with
  | None => (None, r, [])
  | Some target =>
      let dx := EnemyEntity.x target -! ProjectileEntity.x p in
      let dy := EnemyEntity.y target -! ProjectileEntity.y p in
      let distance := Math_sqrt (dx *! dx +! dy *! dy) in
      if distance <! ProjectileEntity.speed p then
        if ProjectileEntity.isAoE p then
          let '(es, r1, c) :=
            splash (EnemyEntity.x target) (EnemyEntity.y target)
              (ProjectileEntity.damage p) (Refs.enemiesRef r) r in
          (None,
           createParticles (EnemyEntity.x target) (EnemyEntity.y target)
             (ProjectileEntity.color p) 8 (set_enemies es r1),
           c)
        else
          let '(t1, r1, c) := damageEnemy target (ProjectileEntity.damage p) r in
          let t2 :=
            match ProjectileEntity.slowEffect p with
            | Some s => if 0 <? s then enemy_with_frozen s t1 else t1
            | None => t1
            end in
          (None,
           createParticles (EnemyEntity.x target) (EnemyEntity.y target)
             (ProjectileEntity.color p) 3
             (set_enemies (storeTarget t2 (Refs.enemiesRef r)) r1),
           c)
      else
        (Some (projectile_with_xy
                 (ProjectileEntity.x p +! (dx /! distance) *! ProjectileEntity.speed p)
                 (ProjectileEntity.y p +! (dy /! distance) *! ProjectileEntity.speed p)
                 p),
         r, [])
  end.

(** The loop runs from the last index down to 0, so the tail of the list
    is handled before its head. *)
Fixpoint updateProjectiles (ps : list ProjectileEntity.t) (r : Refs.t)
  : list ProjectileEntity.t * Refs.t * list Call :=
  match ps with
  | [] => ([], r, [])
  | p :: rest =>
      let '(rest', r1, c1) := updateProjectiles rest r in
      let '(kept, r2, c2) := updateProjectile p r1 in
      (match kept with Some p' => p' :: rest' | None => rest' end, r2, c1 ++ c2)
  end.

(** *** 5. Update particles *)

Definition updateParticle (p : Particle.t) : Particle.t :=
  Particle.mk (Particle.id p)
    (Particle.x p +! Particle.vx p) (Particle.y p +! Particle.vy p)
    (Particle.vx p) (Particle.vy p) (Particle.life p -! qz 1)
    (Particle.maxLife p) (Particle.color p) (Particle.size p).

Definition updateParticles (ps : list Particle.t) : list Particle.t :=
  filter (fun p => negb (Particle.life p <=! 0)) (map updateParticle ps).

(** *** The main game loop body *)

(** The list the towers read: the enemies after spawning, movement and
    the removal of dead or finished ones. *)
Definition targetingView (waveComposition : option WaveComposition.t)
  (r : Refs.t) : list EnemyEntity.t :=
  removeDead (fst (updateEnemies (Refs.enemiesRef (fst (spawning waveComposition r))))).

Definition update (gameState : GameState.t)
  (waveComposition : option WaveComposition.t) (r : Refs.t)
  : Refs.t * list Call :=
  if GameState.isGameOver gameState || negb (GameState.isPlaying gameState)
  then (r, [])
  else
    let '(r1, c1) := spawning waveComposition r in
    let '(es, c2) := updateEnemies (Refs.enemiesRef r1) in
    let r2 := set_enemies (removeDead es) r1 in
    let r3 := towersFire r2 in
    let '(ps, r4, c4) := updateProjectiles (Refs.projectilesRef r3) r3 in
    let r5 := set_projectiles ps r4 in
    let r6 := set_particles (updateParticles (Refs.particlesRef r5)) r5 in
    (set_frameCount (Refs.frameCountRef r6 + 1) r6, c1 ++ c2 ++ c4).

(** *** Handle clicks (placement) *)

Definition Math_min (a b : Q) : Q := if a <=! b then a else b.
Definition Math_max (a b : Q) : Q := if a <=! b then b else a.

(** [Math.floor(mouse / GRID_SIZE) * GRID_SIZE + GRID_SIZE / 2] *)
Definition snapToGrid (mouse : Q) : Q :=
  qz (Qfloor (mouse /! qz GRID_SIZE)) *! qz GRID_SIZE +! qz GRID_SIZE /! qz 2.

(** Consecutive pairs [PATH_WAYPOINTS[i]], [PATH_WAYPOINTS[i+1]]. *)
Fixpoint segments (ws : list Vector2D.t) : list (Vector2D.t * Vector2D.t) :=
  match ws with
  | p1 :: rest =>
      match rest with
      | p2 :: _ => (p1, p2) :: segments rest
      | [] => []
      end
  | [] => []
  end.

Definition inSegmentBox (gridX gridY : Q) (seg : Vector2D.t * Vector2D.t) : bool :=
  let '(p1, p2) := seg in
  let minX := Math_min (Vector2D.x p1) (Vector2D.x p2) -! qz GRID_SIZE /! qz 2 in
  let maxX := Math_max (Vector2D.x p1) (Vector2D.x p2) +! qz GRID_SIZE /! qz 2 in
  let minY := Math_min (Vector2D.y p1) (Vector2D.y p2) -! qz GRID_SIZE /! qz 2 in
  let maxY := Math_max (Vector2D.y p1) (Vector2D.y p2) +! qz GRID_SIZE /! qz 2 in
  (minX <=! gridX) && (gridX <=! maxX) && (minY <=! gridY) && (gridY <=! maxY).

Definition onPath (gridX gridY : Q) : bool :=
  existsb (inSegmentBox gridX gridY) (segments PATH_WAYPOINTS).

Definition isOccupied (towers : list TowerEntity.t) (gridX gridY : Q) : bool :=
  existsb (fun t => (TowerEntity.x t ===! gridX) && (TowerEntity.y t ===! gridY))
    towers.

(** Which [return] of the handler a click takes; the handler itself
    returns nothing. *)
Inductive Rejection :=
| NoTowerSelected
| GameIsOver
| NoCanvas
| InsufficientFunds
| CellOccupied
| CellOnPath.

Inductive Verdict :=
| Ignored (why : Rejection)
| Placed (newTower : TowerEntity.t).

Definition placementVerdict (gameState : GameState.t)
  (selectedTower : option TowerType) (rect : option DOMRect.t)
  (e : MouseEvent.t) (r : Refs.t) : Verdict :=
  match selectedTower with
  | None => Ignored NoTowerSelected
  | Some selected =>
      if GameState.isGameOver gameState then Ignored GameIsOver
      else
        match rect with
        | None => Ignored NoCanvas
        | Some rect =>
            let mouseX := MouseEvent.clientX e -! DOMRect.left rect in
            let mouseY := MouseEvent.clientY e -! DOMRect.top rect in
            let gridX := snapToGrid mouseX in
            let gridY := snapToGrid mouseY in
            let stats := TOWER_STATS selected in
            if GameState.money gameState <? TowerConfig.cost stats
            then Ignored InsufficientFunds
            else if isOccupied (Refs.towersRef r) gridX gridY
            then Ignored CellOccupied
            else if onPath gridX gridY
            then Ignored CellOnPath
            else
              Placed
                (TowerEntity.mk (toString (Math_random (Refs.randomCalls r)))
                   selected gridX gridY 0 1
                   (TowerConfig.range stats) (TowerConfig.damage stats)
                   (TowerConfig.cooldown stats))
        end
  end.

Definition handleCanvasClick (gameState : GameState.t)
  (selectedTower : option TowerType) (rect : option DOMRect.t)
  (e : MouseEvent.t) (r : Refs.t) : Refs.t * list Call :=
  match placementVerdict gameState selectedTower rect e r with
  | Ignored _ => (r, [])
  | Placed newTower =>
      let r1 :=
        set_randomCalls (Refs.randomCalls r + 1)
          (set_towers (Refs.towersRef r ++ [newTower]) r) in
      (createParticles (TowerEntity.x newTower) (TowerEntity.y newTower)
         "#fff" 10 r1,
       [SpendMoney (TowerConfig.cost (TOWER_STATS (TowerEntity.type newTower)))])
  end.

End GameCanvas.

(** ** App.tsx: the state holder *)

Module App.
Record t := mk {
    gameState : GameState.t;
    selectedTower : option TowerType;
    waveComposition : option WaveComposition.t;
    isWaveGenerating : bool;
    waveBriefing : string;
    aiAdvice : string
  }.
End App.

Definition initialGameState : GameState.t :=
  GameState.mk INITIAL_MONEY INITIAL_LIVES 0 false false 1.

Definition initialApp : App.t :=
  App.mk initialGameState None None false "System online. Awaiting command." "".

Definition initialRefs : Refs.t := Refs.mk [] [] [] [] 0 0 0 [] 0.

Definition gs_with_money (m : Z) (g : GameState.t) : GameState.t :=
  GameState.mk m (GameState.lives g) (GameState.wave g) (GameState.isPlaying g)
    (GameState.isGameOver g) (GameState.gameSpeed g).

Definition gs_with_lives (l : Z) (g : GameState.t) : GameState.t :=
  GameState.mk (GameState.money g) l (GameState.wave g) (GameState.isPlaying g)
    (GameState.isGameOver g) (GameState.gameSpeed g).

Definition gs_with_isPlaying (b : bool) (g : GameState.t) : GameState.t :=
  GameState.mk (GameState.money g) (GameState.lives g) (GameState.wave g) b
    (GameState.isGameOver g) (GameState.gameSpeed g).

Definition app_with_gameState (g : GameState.t) (a : App.t) : App.t :=
  App.mk g (App.selectedTower a) (App.waveComposition a)
    (App.isWaveGenerating a) (App.waveBriefing a) (App.aiAdvice a).

(** [handleWaveComplete] *)
Definition handleWaveComplete (a : App.t) : App.t :=
  App.mk (gs_with_isPlaying false (App.gameState a)) (App.selectedTower a) None
    (App.isWaveGenerating a) (App.waveBriefing a)
    "Wave clear. Repairs unavailable. Prepare for next assault.".

(** [handleGameOver] *)
Definition handleGameOver (a : App.t) : App.t :=
  let g := App.gameState a in
  app_with_gameState
    (GameState.mk (GameState.money g) (GameState.lives g) (GameState.wave g)
       false true (GameState.gameSpeed g)) a.

(** The effect of one call of the canvas on the state of [App]. *)
Definition applyCall (a : App.t) (c : Call) : App.t :=
  let g := App.gameState a in
  match c with
  | AddMoney bounty => app_with_gameState (gs_with_money (GameState.money g + bounty) g) a
  | SpendMoney cost => app_with_gameState (gs_with_money (GameState.money g - cost) g) a
  | LoseLife =>
      let newLives := GameState.lives g - 1 in
      let a' := app_with_gameState (gs_with_lives newLives g) a in
      if newLives <=? 0 then handleGameOver a' else a'
  | OnWaveComplete => handleWaveComplete a
  end.

Definition applyCalls (a : App.t) (cs : list Call) : App.t :=
  fold_left applyCall cs a.

(** [startNextWave], with the outcome of [generateWave] as [waveData];
    the request and the state updates that follow it are taken as one
    step, and the advice request (which only sets [aiAdvice]) is left out. *)
Definition startNextWave (waveData : Promise WaveComposition.t) (a : App.t)
  : App.t :=
  let g := App.gameState a in
  if GameState.isPlaying g || App.isWaveGenerating a then a
  else
    match waveData with
    | Resolved wd =>
        App.mk
          (GameState.mk (GameState.money g) (GameState.lives g)
             (GameState.wave g + 1) true (GameState.isGameOver g)
             (GameState.gameSpeed g))
          (App.selectedTower a) (Some wd) false
          (WaveComposition.briefing wd) (App.aiAdvice a)
    | Rejected _ => a
    end.

(** The [useEffect] of the canvas on [waveComposition]: a new composition
    is copied into the spawn queue and the spawn counters are reset. *)
Definition onWaveCompositionChange (waveComposition : option WaveComposition.t)
  (r : Refs.t) : Refs.t :=
  match waveComposition with
  | Some wc =>
      set_spawnTimer 0
        (set_spawnIndex 0 (set_enemiesToSpawn (WaveComposition.enemies wc) r))
  | None => r
  end.

(** ** The whole page *)

Module World.
Record t := mk { app : App.t; refs : Refs.t }.
End World.

Definition initialWorld : World.t := World.mk initialApp initialRefs.

(** What can happen between two renders. *)
Inductive Command :=
| Frame                                  (* the render loop runs [update] *)
| Click (rect : option DOMRect.t) (e : MouseEvent.t)
| SelectTower (type : TowerType)          (* a build-menu button *)
| PressStart (waveData : Promise WaveComposition.t).

Section Game.

Variable host : Host.t.

(** One animation frame: [update] runs on the current props and the state
    updates it queued are applied before the next render. *)
Definition frame (w : World.t) : World.t :=
  let a := World.app w in
  let '(r, calls) :=
    update host (App.gameState a) (App.waveComposition a) (World.refs w) in
  World.mk (applyCalls a calls) r.

Definition click (rect : option DOMRect.t) (e : MouseEvent.t) (w : World.t)
  : World.t :=
  let a := World.app w in
  let '(r, calls) :=
    handleCanvasClick host (App.gameState a) (App.selectedTower a) rect e
      (World.refs w) in
  World.mk (applyCalls a calls) r.

(** The build-menu button is disabled when the tower cannot be afforded. *)
Definition selectTower (type : TowerType) (w : World.t) : World.t :=
  let a := World.app w in
  if TowerConfig.cost (TOWER_STATS type) <=? GameState.money (App.gameState a)
  then World.mk
         (App.mk (App.gameState a) (Some type) (App.waveComposition a)
            (App.isWaveGenerating a) (App.waveBriefing a) (App.aiAdvice a))
         (World.refs w)
  else w.

(** The start button is disabled while playing, generating or game over. *)
Definition pressStart (waveData : Promise WaveComposition.t) (w : World.t)
  : World.t :=
  let a := World.app w in
  let g := App.gameState a in
  if GameState.isPlaying g || App.isWaveGenerating a || GameState.isGameOver g
  then w
  else
    match waveData with
    | Resolved wd =>
        let a' := startNextWave waveData a in
        World.mk a' (onWaveCompositionChange (App.waveComposition a') (World.refs w))
    | Rejected _ => w
    end.

Definition exec (w : World.t) (c : Command) : World.t :=
  match c with
  | Frame => frame w
  | Click rect e => click rect e w
  | SelectTower type => selectTower type w
  | PressStart waveData => pressStart waveData w
  end.

Definition run (w : World.t) (cs : list Command) : World.t :=
  fold_left exec cs w.

Fixpoint frames (n : nat) (w : World.t) : World.t :=
  match n with
  | O => w
  | S k => frames k (frame w)
  end.

End Game.

(** ** A host to run the model on concrete inputs

    The square root is exact on squares of rationals and rounded down to a
    multiple of [2^-52] elsewhere; the random numbers [1/2, 2/3, 3/4, ...]
    are pairwise distinct and lie in [[0, 1)]; a number is printed as
    ["0."] followed by its numerator and denominator. *)

Definition testSqrt (q : Q) : Q :=
  let q' := Qred q in
  let n := Qnum q' in
  let d := Zpos (Qden q') in
  if n <=? 0 then 0
  else if (Z.sqrt n * Z.sqrt n =? n) && (Z.sqrt d * Z.sqrt d =? d)
  then Qred (Z.sqrt n # Z.to_pos (Z.sqrt d))
  else Qred (Z.sqrt (Qfloor (q' * inject_Z (4 ^ 52))) # 2 ^ 52).

Definition testRandom (k : nat) : Q :=
  Qred (Z.of_nat (k + 1) # Pos.of_nat (k + 2)).

Definition testToString (q : Q) : string :=
  ("0." ++ showZ (Qnum (Qred q)) ++ "_" ++ showZ (Zpos (Qden (Qred q))))%string.

Definition testHost : Host.t :=
  Host.mk testSqrt testRandom testToString testToString.

(** ** Vocabulary of the statements *)

(** [const diffMod = 1.0 + (nextWave * 0.15)] in [startNextWave]: the
    difficulty argument the App passes to [generateWave]. *)
Definition diffMod (nextWave : Z) : Q := qz 1 +! (qz nextWave *! (3 # 20)).

Definition isBossGroup (g : SpawnGroup.t) : bool :=
  EnemyType_eqb (SpawnGroup.type g) BOSS.


(** The spawn scenario: one group of three grunts, ten frames apart, with
    hp multiplier 1, started through the start button on a fresh page. *)
Definition scenarioWave : WaveComposition.t :=
  WaveComposition.mk [SpawnGroup.mk grunt 3 10 (qz 1)] "Three grunts.".

Definition scenarioStart : World.t :=
  pressStart (Resolved scenarioWave) initialWorld.

Definition isGrunt (e : EnemyEntity.t) : bool :=
  EnemyType_eqb (EnemyEntity.type e) grunt.


(** A call that credits the bounty of some enemy type. *)
Definition isBounty (c : Call) : Prop :=
  exists ty, c = AddMoney (EnemyConfig.bounty (ENEMY_STATS ty)).

Definition enemyIds (es : list EnemyEntity.t) : list string :=
  map EnemyEntity.id es.

(** The projectile is aimed at one of the listed enemies. *)
Definition aimedAt (es : list EnemyEntity.t) (p : ProjectileEntity.t) : Prop :=
  In (ProjectileEntity.targetId p) (enemyIds es).


(** The guard of [update] lets the step run. *)
Definition running (g : GameState.t) : bool :=
  negb (GameState.isGameOver g || negb (GameState.isPlaying g)).

Definition isWaveComplete (c : Call) : bool := Call_eqb c OnWaveComplete.

(** How many times a list of calls signals wave-complete. *)
Definition signalCount (cs : list Call) : nat :=
  List.length (filter isWaveComplete cs).

(** How many times the simulation step taken in [w] signals it. *)
Definition waveCompleteSignals (host : Host.t) (w : World.t) : nat :=
  signalCount
    (snd (update host (App.gameState (World.app w))
            (App.waveComposition (World.app w)) (World.refs w))).

(** The same, summed over the frames of a run of commands from [w]. *)
Fixpoint signalsDuring (host : Host.t) (w : World.t) (cs : list Command) : nat :=
  match cs with
  | [] => 0
  | c :: rest =>
      (match c with Frame => waveCompleteSignals host w | _ => 0 end
       + signalsDuring host (exec host w c) rest)%nat
  end.

Definition isPressStart (c : Command) : bool :=
  match c with PressStart _ => true | _ => false end.

(** A run inside one wave: the start button is not pressed. *)
Definition withinWave (cs : list Command) : Prop :=
  forallb (fun c => negb (isPressStart c)) cs = true.

(** While playing, the App holds the composition of the current wave. *)
Definition waveLoaded (w : World.t) : Prop :=
  GameState.isPlaying (App.gameState (World.app w)) = true ->
  App.waveComposition (World.app w) <> None.

Definition isPlayingIn (w : World.t) : bool :=
  GameState.isPlaying (App.gameState (World.app w)).

Definition isGameOverIn (w : World.t) : bool :=
  GameState.isGameOver (App.gameState (World.app w)).




(** The enemies [draw] paints: it iterates over [enemiesRef.current]. *)
Definition drawnEnemies (w : World.t) : list EnemyEntity.t :=
  Refs.enemiesRef (World.refs w).



(** [k] movement steps of one enemy. *)
Fixpoint moveFrames (host : Host.t) (k : nat) (e : EnemyEntity.t)
  : EnemyEntity.t :=
  match k with
  | O => e
  | S n => moveFrames host n (fst (updateEnemy host e))
  end.

(** ** Concrete states and runs *)

Definition playingState (money lives : Z) : GameState.t :=
  GameState.mk money lives 1 true false 1.

Definition someWave : WaveComposition.t :=
  WaveComposition.mk [] "Hostiles detected.".

Definition playingApp (money lives : Z) : App.t :=
  App.mk (playingState money lives) None (Some someWave) false
    "Hostiles detected." "".

(** A grunt on the first path segment, [offset] pixels after waypoint 0. *)
Definition gruntAt (id : string) (offset hp : Q) (frozen : Z) : EnemyEntity.t :=
  EnemyEntity.mk id grunt (qz 20 +! offset) (qz 100) hp (qz 80) (3 # 2) 0 frozen
    offset.

(** An enemy standing on the last waypoint: it has no next waypoint. *)
Definition atTheExit (id : string) (type : EnemyType) : EnemyEntity.t :=
  EnemyEntity.mk id type (qz 820) (qz 540)
    (EnemyConfig.hp (ENEMY_STATS type)) (EnemyConfig.hp (ENEMY_STATS type))
    (EnemyConfig.speed (ENEMY_STATS type)) 9 0 (qz 2360).

(** A blaster shot in flight at [(x, 100)], aimed at [target]. *)
Definition blasterShot (id target : string) (x : Q) : ProjectileEntity.t :=
  ProjectileEntity.mk id x (qz 100) target (qz 15) (qz 10) "#38bdf8" false
    (Some 0).

(** Two enemies reach the exit in the same frame with one life left. *)
Definition twoAtTheExit : World.t :=
  World.mk (playingApp 120 1)
    (Refs.mk [atTheExit "scout" SCOUT; atTheExit "grunt" grunt]
       [] [] [] 1599 0 0 [] 21).

(** A wave that a remote model may return: nineteen scouts, then a grunt
    and a last scout timed to finish the path in the same frame. *)
Definition drainingWave : WaveComposition.t :=
  WaveComposition.mk
    [ SpawnGroup.mk SCOUT 19 1 (qz 1);
      SpawnGroup.mk grunt 1 1 (qz 1);
      SpawnGroup.mk SCOUT 1 627 (qz 1) ]
    "Swarm inbound.".

(** Two shots reach a grunt of 10 hp in the same frame. *)
Definition twoShotsOneGrunt : World.t :=
  World.mk (playingApp 0 20)
    (Refs.mk [gruntAt "g" (qz 80) (qz 10) 0] []
       [blasterShot "p1" "g" (qz 100); blasterShot "p2" "g" (qz 100)]
       [] 0 0 0 [] 0).

Definition canvasAt (x y : Z) : Command :=
  Click (Some (DOMRect.mk 0 0)) (MouseEvent.mk (qz x) (qz y)).

(** Two blasters on either side of the first path segment, then the first
    wave of the offline generator. *)
Definition twoBlasters : list Command :=
  [ SelectTower BLASTER; canvasAt 100 60; canvasAt 100 140;
    PressStart (Resolved (generateFallbackWave 1)) ].

(** One life left; a grunt at the exit, and another grunt about to be
    killed by a shot. *)
Definition lastStand : World.t :=
  World.mk (playingApp 0 1)
    (Refs.mk [atTheExit "a" grunt; gruntAt "b" (qz 80) (qz 10) 0] []
       [blasterShot "p" "b" (qz 100)] [] 0 0 0 [] 0).

(** A grunt killed in the previous step is still in the list when the next
    step starts. *)
Definition corpseInList : World.t :=
  World.mk (playingApp 10 20)
    (Refs.mk [gruntAt "killed-by-projectile" (qz 80) (-5 # 1) 0;
              gruntAt "b" (qz 40) (qz 80) 0]
       [] [blasterShot "p" "killed-by-projectile" (qz 95)] [] 7 0 0 [] 13).

(** A wave with nothing left to spawn and no enemy on the board. *)
Definition emptyBoard : World.t :=
  World.mk (playingApp 120 20) (Refs.mk [] [] [] [] 0 0 0 [] 0).


(** ** Accounting of the calls *)

Definition moneyChange (c : Call) : Z :=
  match c with
  | AddMoney bounty => bounty
  | SpendMoney cost => - cost
  | LoseLife | OnWaveComplete => 0
  end.

Definition livesLost (c : Call) : Z :=
  match c with LoseLife => 1 | _ => 0 end.

Definition sumZ (f : Call -> Z) (cs : list Call) : Z :=
  fold_right (fun c acc => f c + acc) 0 cs.

(** The enemy has no next waypoint: [PATH_WAYPOINTS[pathIndex + 1]] is
    undefined. *)
Definition isFinished (e : EnemyEntity.t) : bool :=
  match nth_error PATH_WAYPOINTS (EnemyEntity.pathIndex e + 1) with
  | Some _ => false
  | None => true
  end.

(** The enemies that finish the path in the step taken from [r]. *)
Definition leakers (host : Host.t) (wc : option WaveComposition.t) (r : Refs.t)
  : list EnemyEntity.t :=
  filter isFinished (Refs.enemiesRef (fst (spawning host wc r))).

Definition moneyIn (w : World.t) : Z :=
  GameState.money (App.gameState (World.app w)).

Definition livesIn (w : World.t) : Z :=
  GameState.lives (App.gameState (World.app w)).


(** ** services/geminiService.ts: the advisory line *)

(** The [reduce] that counts the towers by type.  The accumulator is an
    object: a key keeps the place of its first insertion. *)
Fixpoint bump (ty : TowerType) (acc : list (TowerType * Z))
  : list (TowerType * Z) :=
  match acc with
  | [] => [(ty, 1)]
  | (k, n) :: rest =>
      if TowerType_eqb k ty then (k, n + 1) :: rest
      else (k, n) :: bump ty rest
  end.

Definition towerSummary (towers : list TowerEntity.t) : list (TowerType * Z) :=
  fold_left (fun acc t => bump (TowerEntity.type t) acc) towers [].

(** [acc[ty]], with [undefined] as [None]. *)
Fixpoint summaryOf (ty : TowerType) (acc : list (TowerType * Z)) : option Z :=
  match acc with
  | [] => None
  | (k, n) :: rest => if TowerType_eqb k ty then Some n else summaryOf ty rest
  end.

Section TacticalAdvice.

(** The remote model asked for advice: the outcome of the request and its
    [text], possibly missing. *)
Variable adviceContent :
  string -> Z -> Z -> Z -> list (TowerType * Z) -> Promise (option string).

(** [getTacticalAdvice]; the value is [None] where the JavaScript value is
    [undefined] (an index outside [fallbackQuotes]). *)
Definition getTacticalAdvice (env : Env.t) (wave money lives : Z)
  (towers : list TowerEntity.t) : Promise (option string) :=
  match getClient env with
  | None =>
      let i := Z.rem wave (Z.of_nat (List.length fallbackQuotes)) in
      Resolved (if i <? 0 then None else nth_error fallbackQuotes (Z.to_nat i))
  | Some ai =>
      match adviceContent ai wave money lives (towerSummary towers) with
      | Resolved (Some text) =>
          if (0 <? String.length text)%nat then Resolved (Some text)
          else Resolved (Some "Systems compromised. No tactical data."%string)
      | Resolved None =>
          Resolved (Some "Systems compromised. No tactical data."%string)
      | Rejected _ => Resolved (Some "Tactical uplink unstable."%string)
      end
  end.

End TacticalAdvice.

(** ** More vocabulary *)


(** The tower can reach the enemy: [d <= tower.range]. *)
Definition inRange (host : Host.t) (tower : TowerEntity.t) (e : EnemyEntity.t)
  : bool :=
  dist host (TowerEntity.x tower) (TowerEntity.y tower)
    (EnemyEntity.x e) (EnemyEntity.y e) <=! TowerEntity.range tower.

(** Everything of a tower but its cooldown timer. *)
Definition towerSite (t : TowerEntity.t)
  : string * TowerType * Q * Q * Z * Q * Q * Z :=
  (TowerEntity.id t, TowerEntity.type t, TowerEntity.x t, TowerEntity.y t,
   TowerEntity.level t, TowerEntity.range t, TowerEntity.damage t,
   TowerEntity.fireRate t).

(** Two towers stand on the same grid cell, as [isOccupied] compares. *)
Definition sameCell (a b : TowerEntity.t) : bool :=
  (TowerEntity.x a ===! TowerEntity.x b) && (TowerEntity.y a ===! TowerEntity.y b).

Fixpoint distinctCells (ts : list TowerEntity.t) : Prop :=
  match ts with
  | [] => True
  | t :: rest => Forall (fun u => sameCell t u = false) rest /\ distinctCells rest
  end.

Definition offPath (t : TowerEntity.t) : Prop :=
  onPath (TowerEntity.x t) (TowerEntity.y t) = false.

(** Everything of an enemy but its hit points and its slow timer. *)
Definition enemyBody (e : EnemyEntity.t)
  : string * EnemyType * Q * Q * Q * Q * nat * Q :=
  (EnemyEntity.id e, EnemyEntity.type e, EnemyEntity.x e, EnemyEntity.y e,
   EnemyEntity.maxHp e, EnemyEntity.speed e, EnemyEntity.pathIndex e,
   EnemyEntity.distanceTraveled e).

(** The spawning phase alone, [k] frames in a row. *)
Fixpoint spawnFrames (host : Host.t) (wc : option WaveComposition.t)
  (k : nat) (r : Refs.t) : Refs.t :=
  match k with
  | O => r
  | S n => spawnFrames host wc n (fst (spawning host wc r))
  end.

(** The refs without their particles. *)
Definition sansParticles (r : Refs.t) : Refs.t := set_particles [] r.

(** The game is over exactly when no life is left, and then not playing. *)
Definition overIffNoLives (g : GameState.t) : Prop :=
  (GameState.isGameOver g = true <-> GameState.lives g <= 0)
  /\ (GameState.isGameOver g = true -> GameState.isPlaying g = false).


(** [r'] differs from [r] at most in the enemies, the particles and the
    random counter: what a projectile impact may touch. *)
Definition sameStage (r r' : Refs.t) : Prop :=
  Refs.towersRef r' = Refs.towersRef r
  /\ Refs.projectilesRef r' = Refs.projectilesRef r
  /\ Refs.frameCountRef r' = Refs.frameCountRef r
  /\ Refs.spawnIndexRef r' = Refs.spawnIndexRef r
  /\ Refs.spawnTimerRef r' = Refs.spawnTimerRef r
  /\ Refs.enemiesToSpawnRef r' = Refs.enemiesToSpawnRef r.

Definition isClick (c : Command) : bool :=
  match c with Click _ _ => true | _ => false end.

Definition towersIn (w : World.t) : list TowerEntity.t :=
  Refs.towersRef (World.refs w).




(** [e'] is [e] after some impacts: the same enemy but for its hit points
    and slow timer; with [b] set, its hit points have not grown. *)
Definition weakened (b : bool) (e e' : EnemyEntity.t) : Prop :=
  enemyBody e' = enemyBody e
  /\ (b = true -> (EnemyEntity.hp e' <= EnemyEntity.hp e)%Q).

(** Every listed enemy is between two waypoints of the path or on the
    last one. *)
Definition onThePath (w : World.t) : Prop :=
  Forall (fun e => (EnemyEntity.pathIndex e < List.length PATH_WAYPOINTS)%nat)
    (drawnEnemies w).


(** The tower carries the figures of its catalogue entry, at level 1. *)
Definition stockTower (t : TowerEntity.t) : Prop :=
  let stats := TOWER_STATS (TowerEntity.type t) in
  TowerEntity.level t = 1
  /\ TowerEntity.range t = TowerConfig.range stats
  /\ TowerEntity.damage t = TowerConfig.damage stats
  /\ TowerEntity.fireRate t = TowerConfig.cooldown stats.

(** The projectile is what a catalogue tower of some type [ty] fires. *)
Definition stockShot (p : ProjectileEntity.t) : Prop :=
  exists ty,
    ProjectileEntity.damage p = TowerConfig.damage (TOWER_STATS ty)
    /\ ProjectileEntity.speed p = qz 10
    /\ ProjectileEntity.isAoE p = TowerType_eqb ty CANNON
    /\ ProjectileEntity.slowEffect p
       = Some (if TowerType_eqb ty SLOW then 60 else 0).

Definition arsenalInStock (w : World.t) : Prop :=
  Forall stockTower (towersIn w)
  /\ Forall stockShot (Refs.projectilesRef (World.refs w)).




(** * Properties *)

(** ** Comparisons *)

Lemma Qltb_lt (a b : Q) : (a <! b) = true <-> (a < b)%Q.
Proof.
  unfold Qltb. rewrite negb_true_iff. split; intro H.
  - apply Qnot_le_lt. intro Hle. apply Qle_bool_iff in Hle. congruence.
  - destruct (Qle_bool b a) eqn:E; [|reflexivity].
    apply Qle_bool_iff in E. exfalso. exact (Qlt_not_le _ _ H E).
Qed.

Lemma Qltb_ge (a b : Q) : (a <! b) = false <-> (b <= a)%Q.
Proof.
  unfold Qltb. rewrite negb_false_iff. apply Qle_bool_iff.
Qed.

Lemma Qleb_le (a b : Q) : (a <=! b) = true <-> (a <= b)%Q.
Proof. apply Qle_bool_iff. Qed.

Lemma Qleb_gt (a b : Q) : (a <=! b) = false <-> (b < a)%Q.
Proof.
  unfold Qleb. split; intro H.
  - apply Qnot_le_lt. intro Hle. apply Qle_bool_iff in Hle. congruence.
  - destruct (Qle_bool a b) eqn:E; [|reflexivity].
    apply Qle_bool_iff in E. exfalso. exact (Qlt_not_le _ _ H E).
Qed.

(** ** The wave generator *)

(** C8.  For wave number 10 the deterministic fallback generator returns a
    composition with exactly one boss group; its count is 1 and its hp
    multiplier is at least four times the wave's difficulty multiplier
    (the generator's own [1 + 0.2 * 10 = 3], and also the [2.5] that the
    App computes for that wave). *)
Theorem fallback_wave10_one_boss :
  exists boss : SpawnGroup.t,
    filter isBossGroup (WaveComposition.enemies (generateFallbackWave 10)) = [boss]
    /\ SpawnGroup.count boss = 1
    /\ (qz 4 * difficultyMult 10 <= SpawnGroup.hpMultiplier boss)%Q
    /\ (qz 4 * diffMod 10 <= SpawnGroup.hpMultiplier boss)%Q.
Proof.
  exists (SpawnGroup.mk BOSS 1 200 (qz 12)).
  split; [reflexivity|]. split; [reflexivity|].
  split; vm_compute; discriminate.
Qed.

(** Every wave whose number is a multiple of ten gets exactly one boss
    group from the fallback generator, of count 1 and hp multiplier
    four times the difficulty. *)
Lemma fallback_boss_every_tenth (w : Z) :
  Z.rem w 10 = 0 ->
  exists boss : SpawnGroup.t,
    filter isBossGroup (WaveComposition.enemies (generateFallbackWave w)) = [boss]
    /\ SpawnGroup.count boss = 1
    /\ (SpawnGroup.hpMultiplier boss == qz 4 * difficultyMult w)%Q.
Proof.
  intro H10.
  exists (SpawnGroup.mk BOSS 1 200 (difficultyMult w *! qz 4)).
  split; [|split; [reflexivity|]].
  - unfold generateFallbackWave. cbn [WaveComposition.enemies].
    apply Z.eqb_eq in H10. rewrite H10.
    destruct (2 <=? w); destruct ((4 <=? w) && (Z.rem w 2 =? 0));
      repeat rewrite filter_app; reflexivity.
  - cbn [SpawnGroup.hpMultiplier]. unfold qmul. rewrite Qred_correct.
    apply Qmult_comm.
Qed.

(** The fallback generator adds no boss group to the other waves. *)
Lemma fallback_no_boss_otherwise (w : Z) :
  Z.rem w 10 <> 0 ->
  filter isBossGroup (WaveComposition.enemies (generateFallbackWave w)) = [].
Proof.
  intro H10. apply Z.eqb_neq in H10.
  unfold generateFallbackWave. cbn [WaveComposition.enemies]. rewrite H10.
  destruct (2 <=? w); destruct ((4 <=? w) && (Z.rem w 2 =? 0));
    repeat rewrite filter_app; reflexivity.
Qed.

Section WaveRequests.

Variable generateContent : string -> Z -> Q -> Promise (option string).
Variable JSON_parse : string -> Promise WaveComposition.t.

(** C10.  Without a configured API credential [generateWave] resolves (it
    never rejects) to the fallback composition of the wave number, whatever
    difficulty argument it is given: two calls for the same wave with
    different difficulty arguments return identical compositions.  The
    fallback takes its difficulty from the wave number alone, as
    [1 + 0.2 * w]: it is the hp multiplier of the leading grunt group. *)
Theorem generateWave_offline_ignores_difficulty
  (env : Env.t) (w : Z) (d1 d2 : Q) :
  getApiKey env = None ->
  generateWave generateContent JSON_parse env w d1
    = Resolved (generateFallbackWave w)
  /\ generateWave generateContent JSON_parse env w d1
     = generateWave generateContent JSON_parse env w d2
  /\ (exists rest,
        WaveComposition.enemies (generateFallbackWave w)
        = SpawnGroup.mk grunt (Qfloor (qz 5 *! difficultyMult w))
            (Z.max 20 (60 - w * 2)) (difficultyMult w) :: rest)
  /\ (difficultyMult w == 1 + inject_Z w * (1 # 5))%Q.
Proof.
  intro Hkey. unfold generateWave, getClient. rewrite Hkey.
  split; [reflexivity|]. split; [reflexivity|]. split.
  - unfold generateFallbackWave. cbn [WaveComposition.enemies].
    destruct (2 <=? w); destruct ((4 <=? w) && (Z.rem w 2 =? 0));
      destruct (Z.rem w 10 =? 0); cbn [app]; eexists; reflexivity.
  - unfold difficultyMult, qadd, qmul, qz.
    rewrite Qred_correct. now rewrite Qred_correct.
Qed.

(** On every path the promise of [generateWave] resolves. *)
Lemma generateWave_never_rejects (env : Env.t) (w : Z) (d : Q) :
  exists wc, generateWave generateContent JSON_parse env w d = Resolved wc.
Proof.
  unfold generateWave.
  destruct (getClient env) as [ai|]; [|eexists; reflexivity].
  destruct (generateContent ai w d) as [[text|]|err]; try (eexists; reflexivity).
  destruct (0 <? String.length text)%nat; [|eexists; reflexivity].
  destruct (JSON_parse text); eexists; reflexivity.
Qed.

End WaveRequests.

(** A missing, empty or blank key is no credential. *)
Lemma getApiKey_blank :
  getApiKey (Env.mk None) = None
  /\ getApiKey (Env.mk (Some ""%string)) = None
  /\ getApiKey (Env.mk (Some "   "%string)) = None
  /\ getApiKey (Env.mk (Some " k "%string)) = Some " k "%string.
Proof. repeat split. Qed.

Lemma generateWave_offline_ignores_difficulty_witness :
  getApiKey (Env.mk (Some "  "%string)) = None
  /\ generateWave (fun _ _ _ => Rejected "offline"%string)
       (fun _ => Rejected "no text"%string) (Env.mk (Some "  "%string)) 7 (41 # 20)
     = generateWave (fun _ _ _ => Rejected "offline"%string)
         (fun _ => Rejected "no text"%string) (Env.mk (Some "  "%string)) 7 (1 # 1).
Proof.
  split; [reflexivity|].
  apply (generateWave_offline_ignores_difficulty
           (fun _ _ _ => Rejected "offline"%string)
           (fun _ => Rejected "no text"%string)
           (Env.mk (Some "  "%string)) 7 (41 # 20) (1 # 1)).
  reflexivity.
Defined.

(** ** The simulation step *)

Section Step.

Variable host : Host.t.

(** C9.  With an empty spawn queue, an empty enemy list and
    [isPlaying = false] the simulation step changes nothing: [update]
    returns the refs as they are and calls nothing, so the whole state
    (game state, towers, projectiles, particles, counters) is unchanged. *)
Theorem update_idle_is_identity (w : World.t) :
  Refs.enemiesToSpawnRef (World.refs w) = [] ->
  Refs.enemiesRef (World.refs w) = [] ->
  GameState.isPlaying (App.gameState (World.app w)) = false ->
  update host (App.gameState (World.app w)) (App.waveComposition (World.app w))
    (World.refs w) = (World.refs w, [])
  /\ frame host w = w.
Proof.
  intros _ _ Hplay.
  assert (Hu : update host (App.gameState (World.app w))
                 (App.waveComposition (World.app w)) (World.refs w)
               = (World.refs w, [])).
  { unfold update. rewrite Hplay. rewrite orb_true_r. reflexivity. }
  split; [exact Hu|].
  unfold frame. rewrite Hu. destruct w; reflexivity.
Qed.

(** The guard alone decides: a step of a game that is over or not playing
    is the identity on every state. *)
Lemma frame_stopped (w : World.t) :
  GameState.isGameOver (App.gameState (World.app w)) = true
  \/ GameState.isPlaying (App.gameState (World.app w)) = false ->
  frame host w = w.
Proof.
  intro H. unfold frame, update.
  replace (GameState.isGameOver (App.gameState (World.app w))
           || negb (GameState.isPlaying (App.gameState (World.app w))))
    with true.
  - destruct w; reflexivity.
  - destruct H as [H|H]; rewrite H; [reflexivity|]. now rewrite orb_true_r.
Qed.


End Step.

Lemma update_idle_is_identity_witness :
  frame testHost initialWorld = initialWorld.
Proof.
  apply (update_idle_is_identity testHost initialWorld); reflexivity.
Defined.

(** C7.  From a playing state whose spawn queue is one group of three
    grunts with interval 10 and hp multiplier 1, 31 simulation steps create
    exactly three enemies (one random id was drawn for each and the list
    holds three grunts of 80 hp on the first path segment), the spawn
    queue is empty, and nothing was killed or leaked (lives and money are
    the initial ones); this for every random source and string
    conversion.  After 29 steps only two have been created. *)
Theorem three_grunts_after_31_steps
  (random : nat -> Q) (toString toString36 : Q -> string) :
  let host := Host.mk testSqrt random toString toString36 in
  let w := frames host 31 scenarioStart in
  Refs.enemiesToSpawnRef (World.refs scenarioStart) = [SpawnGroup.mk grunt 3 10 (qz 1)]
  /\ GameState.isPlaying (App.gameState (World.app scenarioStart)) = true
  /\ List.length (Refs.enemiesRef (World.refs w)) = 3%nat
  /\ Refs.randomCalls (World.refs w) = 3%nat
  /\ Refs.enemiesToSpawnRef (World.refs w) = []
  /\ forallb isGrunt (Refs.enemiesRef (World.refs w)) = true
  /\ map EnemyEntity.hp (Refs.enemiesRef (World.refs w)) = [qz 80; qz 80; qz 80]
  /\ map EnemyEntity.pathIndex (Refs.enemiesRef (World.refs w)) = [0; 0; 0]%nat
  /\ GameState.lives (App.gameState (World.app w)) = INITIAL_LIVES
  /\ GameState.money (App.gameState (World.app w)) = INITIAL_MONEY
  /\ List.length (Refs.enemiesRef (World.refs (frames host 29 scenarioStart))) = 2%nat.
Proof.
  intros host w. subst w host.
  repeat split; vm_compute; reflexivity.
Qed.

(** ** Particles are cosmetic *)

Section Particles.

Variable host : Host.t.

(** [createParticles] only appends to the particle list and draws random
    numbers. *)
Lemma createParticles_refs (x y : Q) (color : string) (count : nat) (r : Refs.t) :
  let r' := createParticles host x y color count r in
  Refs.enemiesRef r' = Refs.enemiesRef r
  /\ Refs.towersRef r' = Refs.towersRef r
  /\ Refs.projectilesRef r' = Refs.projectilesRef r
  /\ Refs.frameCountRef r' = Refs.frameCountRef r
  /\ Refs.spawnIndexRef r' = Refs.spawnIndexRef r
  /\ Refs.spawnTimerRef r' = Refs.spawnTimerRef r
  /\ Refs.enemiesToSpawnRef r' = Refs.enemiesToSpawnRef r
  /\ Refs.randomCalls r' = (Refs.randomCalls r + 5 * count)%nat
  /\ exists added, Refs.particlesRef r' = Refs.particlesRef r ++ added
                   /\ List.length added = count.
Proof.
  revert r. induction count as [|n IH]; intro r; cbn zeta.
  - cbn [createParticles]. repeat split; try reflexivity; try lia.
    exists []. now rewrite app_nil_r.
  - cbn [createParticles].
    destruct (IH (set_randomCalls (Refs.randomCalls r + 5)
                    (set_particles
                       (Refs.particlesRef r ++
                        [newParticle host x y color (Refs.randomCalls r)]) r)))
      as (He & Ht & Hp & Hf & Hi & Hs & Hq & Hc & added & Hadd & Hlen).
    cbn in He, Ht, Hp, Hf, Hi, Hs, Hq, Hc, Hadd.
    repeat split; try assumption.
    + rewrite Hc. lia.
    + exists (newParticle host x y color (Refs.randomCalls r) :: added).
      split; [|cbn; now rewrite Hlen].
      rewrite Hadd, <- app_assoc. reflexivity.
Qed.

Lemma createParticles_enemies (x y : Q) (color : string) (count : nat) (r : Refs.t) :
  Refs.enemiesRef (createParticles host x y color count r) = Refs.enemiesRef r.
Proof. apply (createParticles_refs x y color count r). Qed.

Lemma createParticles_towers (x y : Q) (color : string) (count : nat) (r : Refs.t) :
  Refs.towersRef (createParticles host x y color count r) = Refs.towersRef r.
Proof. apply (createParticles_refs x y color count r). Qed.

Lemma createParticles_projectiles (x y : Q) (color : string) (count : nat) (r : Refs.t) :
  Refs.projectilesRef (createParticles host x y color count r) = Refs.projectilesRef r.
Proof. apply (createParticles_refs x y color count r). Qed.

Lemma createParticles_queue (x y : Q) (color : string) (count : nat) (r : Refs.t) :
  Refs.enemiesToSpawnRef (createParticles host x y color count r)
  = Refs.enemiesToSpawnRef r.
Proof. apply (createParticles_refs x y color count r). Qed.

End Particles.

(** ** Placement *)

Section Placement.

Variable host : Host.t.

(** C5.  A click on the canvas goes through the checks in this order: no
    tower type selected; game over; insufficient funds; grid cell occupied
    by a tower; grid cell inside the bounding box of a path segment
    inflated by half a grid cell.  Each check is reached only when the
    earlier ones passed.  A rejected click calls nothing and leaves the
    whole state as it was.  An accepted click deducts exactly the cost of
    the selected tower and appends one tower at the snapped grid
    coordinate with cooldown 0; lives, enemies, projectiles and the spawn
    queue are untouched. *)
Theorem placement_checks_in_order
  (w : World.t) (rect : DOMRect.t) (e : MouseEvent.t) :
  let a := World.app w in
  let g := App.gameState a in
  let r := World.refs w in
  let gridX := snapToGrid (MouseEvent.clientX e -! DOMRect.left rect) in
  let gridY := snapToGrid (MouseEvent.clientY e -! DOMRect.top rect) in
  let v := placementVerdict host g (App.selectedTower a) (Some rect) e r in
  let w' := click host (Some rect) e w in
  (App.selectedTower a = None -> v = Ignored NoTowerSelected)
  /\ (forall t, App.selectedTower a = Some t ->
      (GameState.isGameOver g = true -> v = Ignored GameIsOver)
      /\ (GameState.isGameOver g = false ->
          (GameState.money g < TowerConfig.cost (TOWER_STATS t) ->
           v = Ignored InsufficientFunds)
          /\ (TowerConfig.cost (TOWER_STATS t) <= GameState.money g ->
              (isOccupied (Refs.towersRef r) gridX gridY = true ->
               v = Ignored CellOccupied)
              /\ (isOccupied (Refs.towersRef r) gridX gridY = false ->
                  (onPath gridX gridY = true -> v = Ignored CellOnPath)
                  /\ (onPath gridX gridY = false ->
                      exists newTower,
                        v = Placed newTower
                        /\ TowerEntity.type newTower = t
                        /\ TowerEntity.x newTower = gridX
                        /\ TowerEntity.y newTower = gridY
                        /\ TowerEntity.cooldownTimer newTower = 0
                        /\ Refs.towersRef (World.refs w')
                           = Refs.towersRef r ++ [newTower]
                        /\ GameState.money (App.gameState (World.app w'))
                           = GameState.money g - TowerConfig.cost (TOWER_STATS t)
                        /\ GameState.lives (App.gameState (World.app w'))
                           = GameState.lives g
                        /\ Refs.enemiesRef (World.refs w') = Refs.enemiesRef r
                        /\ Refs.projectilesRef (World.refs w')
                           = Refs.projectilesRef r
                        /\ Refs.enemiesToSpawnRef (World.refs w')
                           = Refs.enemiesToSpawnRef r)))))
  /\ (forall why, v = Ignored why ->
      handleCanvasClick host g (App.selectedTower a) (Some rect) e r = (r, [])
      /\ w' = w).
Proof.
  intros a g r gridX gridY v w'.
  split; [|split].
  - intro Hsel. subst v. unfold placementVerdict. now rewrite Hsel.
  - intros t Hsel. subst v. unfold placementVerdict. rewrite Hsel.
    split; [intro Hover; now rewrite Hover|].
    intro Hover. rewrite Hover. cbn zeta. fold gridX gridY.
    split.
    { intro Hm. apply Z.ltb_lt in Hm. now rewrite Hm. }
    intro Hm. apply Z.ltb_ge in Hm. rewrite Hm.
    split; [intro Ho; now rewrite Ho|].
    intro Ho. rewrite Ho.
    split; [intro Hp; now rewrite Hp|].
    intro Hp. rewrite Hp.
    eexists. split; [reflexivity|].
    cbn [TowerEntity.type TowerEntity.x TowerEntity.y TowerEntity.cooldownTimer].
    repeat (split; [reflexivity|]).
    subst w'. unfold click, handleCanvasClick, placementVerdict.
    fold a. fold g. fold r. rewrite Hsel, Hover. cbn zeta. fold gridX gridY.
    rewrite Hm, Ho, Hp.
    cbn [World.refs World.app applyCalls fold_left applyCall App.gameState
         app_with_gameState gs_with_money GameState.money GameState.lives
         TowerEntity.type TowerEntity.x TowerEntity.y].
    rewrite createParticles_towers, createParticles_enemies,
      createParticles_projectiles, createParticles_queue.
    repeat split.
  - intros why Hv.
    assert (Hh : handleCanvasClick host g (App.selectedTower a) (Some rect) e r
                 = (r, [])).
    { unfold handleCanvasClick. fold v. now rewrite Hv. }
    split; [exact Hh|].
    subst w'. unfold click. fold a. fold g. fold r. rewrite Hh.
    subst a r. destruct w; reflexivity.
Qed.

End Placement.

(** ** Facts about the five phases of [update] *)

Section Phases.

Variable host : Host.t.

(** *** Spawning *)

Lemma spawning_calls (wc : option WaveComposition.t) (r : Refs.t) :
  snd (spawning host wc r) = [OnWaveComplete]
  /\ Refs.enemiesToSpawnRef r = [] /\ Refs.enemiesRef r = [] /\ wc <> None
  \/ snd (spawning host wc r) = []
     /\ ~ (Refs.enemiesToSpawnRef r = [] /\ Refs.enemiesRef r = [] /\ wc <> None).
Proof.
  unfold spawning.
  destruct (Refs.enemiesToSpawnRef r) as [|g rest] eqn:Hq.
  - destruct (Refs.enemiesRef r) as [|e es] eqn:He.
    + destruct wc as [c|].
      * left. repeat split. discriminate.
      * right. split; [reflexivity|]. intros (_ & _ & H). now apply H.
    + right. split; [reflexivity|]. intros (_ & H & _). discriminate.
  - right. split.
    + destruct (SpawnGroup.interval g <=? Refs.spawnTimerRef r + 1); reflexivity.
    + intros (H & _). discriminate.
Qed.

(** Spawning appends at most one enemy and leaves the others as they are. *)
Lemma spawning_enemies (wc : option WaveComposition.t) (r : Refs.t) :
  Refs.enemiesRef (fst (spawning host wc r)) = Refs.enemiesRef r
  /\ Refs.randomCalls (fst (spawning host wc r)) = Refs.randomCalls r
  \/ (exists g, Refs.enemiesRef (fst (spawning host wc r))
                = Refs.enemiesRef r ++ [newEnemy host g (Refs.randomCalls r)])
     /\ Refs.randomCalls (fst (spawning host wc r)) = S (Refs.randomCalls r).
Proof.
  unfold spawning.
  destruct (Refs.enemiesToSpawnRef r) as [|g rest].
  - left. destruct (Refs.enemiesRef r) eqn:He; destruct wc; cbn;
      rewrite ?He; split; reflexivity.
  - destruct (SpawnGroup.interval g <=? Refs.spawnTimerRef r + 1).
    + right. cbn. split; [exists g; reflexivity|lia].
    + left. split; reflexivity.
Qed.

Lemma spawning_others (wc : option WaveComposition.t) (r : Refs.t) :
  Refs.towersRef (fst (spawning host wc r)) = Refs.towersRef r
  /\ Refs.projectilesRef (fst (spawning host wc r)) = Refs.projectilesRef r
  /\ Refs.particlesRef (fst (spawning host wc r)) = Refs.particlesRef r.
Proof.
  unfold spawning.
  destruct (Refs.enemiesToSpawnRef r) as [|g rest].
  - destruct (Refs.enemiesRef r); destruct wc; repeat split.
  - destruct (SpawnGroup.interval g <=? Refs.spawnTimerRef r + 1);
      repeat split.
Qed.


(** *** Movement *)


Lemma updateEnemy_frozen (e : EnemyEntity.t) :
  EnemyEntity.frozen (fst (updateEnemy host e)) = frozenAfterTick e.
Proof.
  unfold updateEnemy. cbn [enemy_with_frozen EnemyEntity.pathIndex EnemyEntity.x EnemyEntity.y EnemyEntity.distanceTraveled].
  destruct (nth_error PATH_WAYPOINTS (EnemyEntity.pathIndex e + 1)) as [n|];
    [|reflexivity].
  match goal with |- context [if ?b then _ else _] => destruct b end;
    reflexivity.
Qed.

Lemma updateEnemy_speed (e : EnemyEntity.t) :
  EnemyEntity.speed (fst (updateEnemy host e)) = EnemyEntity.speed e.
Proof.
  unfold updateEnemy. cbn [enemy_with_frozen EnemyEntity.pathIndex EnemyEntity.x EnemyEntity.y EnemyEntity.distanceTraveled].
  destruct (nth_error PATH_WAYPOINTS (EnemyEntity.pathIndex e + 1)) as [n|];
    [|reflexivity].
  match goal with |- context [if ?b then _ else _] => destruct b end;
    reflexivity.
Qed.

(** Movement never raises hit points: it keeps them, or zeroes them and
    takes a life when the path is exhausted. *)
Lemma updateEnemy_hp (e : EnemyEntity.t) :
  EnemyEntity.hp (fst (updateEnemy host e)) = EnemyEntity.hp e
  /\ snd (updateEnemy host e) = []
  \/ EnemyEntity.hp (fst (updateEnemy host e)) = 0%Q
     /\ snd (updateEnemy host e) = [LoseLife]
     /\ nth_error PATH_WAYPOINTS (EnemyEntity.pathIndex e + 1) = None.
Proof.
  unfold updateEnemy. cbn [enemy_with_frozen EnemyEntity.pathIndex EnemyEntity.x EnemyEntity.y EnemyEntity.distanceTraveled].
  destruct (nth_error PATH_WAYPOINTS (EnemyEntity.pathIndex e + 1)) as [n|].
  - left.
    match goal with |- context [if ?b then _ else _] => destruct b end;
      split; reflexivity.
  - right. repeat split.
Qed.

Lemma updateEnemy_alive (e : EnemyEntity.t) :
  alive (fst (updateEnemy host e)) = true -> alive e = true.
Proof.
  unfold alive.
  destruct (updateEnemy_hp e) as [[-> _]|[-> _]]; [trivial|discriminate].
Qed.

Lemma updateEnemies_map (es : list EnemyEntity.t) :
  fst (updateEnemies host es) = map (fun e => fst (updateEnemy host e)) es.
Proof.
  induction es as [|e rest IH]; [reflexivity|].
  cbn [updateEnemies map].
  destruct (updateEnemy host e) as [e' c1].
  destruct (updateEnemies host rest) as [rest' c2].
  cbn in *. now rewrite IH.
Qed.

Lemma updateEnemies_calls (es : list EnemyEntity.t) :
  Forall (fun c => c = LoseLife) (snd (updateEnemies host es)).
Proof.
  induction es as [|e rest IH]; [constructor|].
  cbn [updateEnemies].
  destruct (updateEnemy_hp e) as [[_ Hc]|[_ [Hc _]]];
    destruct (updateEnemy host e) as [e' c1];
    destruct (updateEnemies host rest) as [rest' c2];
    cbn in *; subst c1; cbn; [assumption|constructor; [reflexivity|assumption]].
Qed.

End Phases.

Section FiringAndImpact.

Variable host : Host.t.

(** *** Towers fire *)

Lemma findTarget_in (tower : TowerEntity.t) (es : list EnemyEntity.t)
  (target : option EnemyEntity.t) (maxDist : Q) (x : EnemyEntity.t) :
  findTarget host tower es target maxDist = Some x ->
  target = Some x \/ In x es.
Proof.
  revert target maxDist. induction es as [|e rest IH]; intros target maxDist H.
  - now left.
  - cbn [findTarget] in H.
    match type of H with context [if ?b then _ else _] => destruct b end;
      apply IH in H; destruct H as [H|H].
    + right. left. congruence.
    + right. now right.
    + now left.
    + right. now right.
Qed.

(** A tower leaves the enemies alone and appends at most one projectile,
    aimed at an enemy of the list it read. *)
Lemma fireTower_refs (tower : TowerEntity.t) (r : Refs.t) :
  let r' := snd (fireTower host tower r) in
  Refs.enemiesRef r' = Refs.enemiesRef r
  /\ exists fired, Refs.projectilesRef r' = Refs.projectilesRef r ++ fired
                   /\ Forall (aimedAt (Refs.enemiesRef r)) fired.
Proof.
  unfold fireTower. cbn zeta.
  match goal with |- context [TowerEntity.cooldownTimer ?t <=? 0] =>
    destruct (TowerEntity.cooldownTimer t <=? 0); set (t1 := t) end.
  - destruct (findTarget host t1 (Refs.enemiesRef r) None (-1 # 1))
      as [target|] eqn:Hf.
    + cbn. split; [reflexivity|].
      eexists. split; [reflexivity|].
      constructor; [|constructor].
      unfold aimedAt, enemyIds. cbn.
      apply findTarget_in in Hf. destruct Hf as [Hf|Hf]; [discriminate|].
      now apply in_map.
    + cbn. split; [reflexivity|]. exists []. split; [now rewrite app_nil_r|constructor].
  - cbn. split; [reflexivity|]. exists []. split; [now rewrite app_nil_r|constructor].
Qed.

Lemma fireTowers_refs (ts : list TowerEntity.t) (r : Refs.t) :
  let r' := snd (fireTowers host ts r) in
  Refs.enemiesRef r' = Refs.enemiesRef r
  /\ exists fired, Refs.projectilesRef r' = Refs.projectilesRef r ++ fired
                   /\ Forall (aimedAt (Refs.enemiesRef r)) fired.
Proof.
  revert r. induction ts as [|t rest IH]; intro r; cbn zeta.
  - cbn. split; [reflexivity|]. exists []. split; [now rewrite app_nil_r|constructor].
  - cbn [fireTowers].
    pose proof (fireTower_refs t r) as H1. cbn zeta in H1.
    destruct (fireTower host t r) as [t' r1]. cbn [snd] in H1.
    pose proof (IH r1) as H2. cbn zeta in H2.
    destruct (fireTowers host rest r1) as [rest' r2]. cbn [snd] in *.
    destruct H1 as (He1 & f1 & Hp1 & Ha1).
    destruct H2 as (He2 & f2 & Hp2 & Ha2).
    split; [congruence|].
    exists (f1 ++ f2). split.
    + rewrite Hp2, Hp1. now rewrite app_assoc.
    + apply Forall_app. split; [assumption|]. now rewrite He1 in Ha2.
Qed.

Lemma towersFire_refs (r : Refs.t) :
  Refs.enemiesRef (towersFire host r) = Refs.enemiesRef r
  /\ exists fired,
       Refs.projectilesRef (towersFire host r) = Refs.projectilesRef r ++ fired
       /\ Forall (aimedAt (Refs.enemiesRef r)) fired.
Proof.
  unfold towersFire.
  pose proof (fireTowers_refs (Refs.towersRef r) r) as H. cbn zeta in H.
  destruct (fireTowers host (Refs.towersRef r) r) as [ts r']. exact H.
Qed.

(** *** Projectile impacts *)

Lemma damageEnemy_id (e : EnemyEntity.t) (dmg : Q) (r : Refs.t) :
  EnemyEntity.id (fst (fst (damageEnemy host e dmg r))) = EnemyEntity.id e.
Proof.
  unfold damageEnemy.
  match goal with |- context [if ?b then _ else _] => destruct b end;
    reflexivity.
Qed.

Lemma damageEnemy_calls (e : EnemyEntity.t) (dmg : Q) (r : Refs.t) :
  Forall isBounty (snd (damageEnemy host e dmg r)).
Proof.
  unfold damageEnemy.
  match goal with |- context [if ?b then _ else _] => destruct b end;
    cbn; [|constructor].
  constructor; [|constructor]. eexists. reflexivity.
Qed.

Lemma splash_ids (tx ty dmg : Q) (es : list EnemyEntity.t) (r : Refs.t) :
  enemyIds (fst (fst (splash host tx ty dmg es r))) = enemyIds es.
Proof.
  revert r. induction es as [|e rest IH]; intro r; [reflexivity|].
  cbn [splash].
  destruct (dist host tx ty (EnemyEntity.x e) (EnemyEntity.y e) <! qz 60).
  - pose proof (damageEnemy_id e dmg r) as Hid.
    destruct (damageEnemy host e dmg r) as [[e' r1] c1]. cbn [fst] in Hid.
    specialize (IH r1).
    destruct (splash host tx ty dmg rest r1) as [[rest' r2] c2].
    cbn in *. now rewrite Hid, IH.
  - specialize (IH r).
    destruct (splash host tx ty dmg rest r) as [[rest' r2] c2].
    cbn in *. now rewrite IH.
Qed.

Lemma splash_calls (tx ty dmg : Q) (es : list EnemyEntity.t) (r : Refs.t) :
  Forall isBounty (snd (splash host tx ty dmg es r)).
Proof.
  revert r. induction es as [|e rest IH]; intro r; [constructor|].
  cbn [splash].
  destruct (dist host tx ty (EnemyEntity.x e) (EnemyEntity.y e) <! qz 60).
  - pose proof (damageEnemy_calls e dmg r) as Hc.
    destruct (damageEnemy host e dmg r) as [[e' r1] c1]. cbn [snd] in Hc.
    specialize (IH r1).
    destruct (splash host tx ty dmg rest r1) as [[rest' r2] c2].
    cbn in *. apply Forall_app. now split.
  - specialize (IH r).
    destruct (splash host tx ty dmg rest r) as [[rest' r2] c2].
    cbn in *. assumption.
Qed.

Lemma storeTarget_ids (target : EnemyEntity.t) (es : list EnemyEntity.t) :
  enemyIds (storeTarget target es) = enemyIds es.
Proof.
  unfold enemyIds.
  induction es as [|e rest IH]; [reflexivity|].
  cbn [storeTarget].
  destruct (String.eqb (EnemyEntity.id e) (EnemyEntity.id target)) eqn:E.
  - apply String.eqb_eq in E. cbn [map]. now rewrite E.
  - cbn [map]. now rewrite IH.
Qed.

Lemma find_some (tid : string) (es : list EnemyEntity.t) (x : EnemyEntity.t) :
  find tid es = Some x -> In x es /\ EnemyEntity.id x = tid.
Proof.
  induction es as [|e rest IH]; [discriminate|].
  cbn [find]. destruct (String.eqb (EnemyEntity.id e) tid) eqn:E.
  - intro H. injection H as <-. split; [now left|]. now apply String.eqb_eq.
  - intro H. destruct (IH H). split; [now right|assumption].
Qed.

Lemma find_none (tid : string) (es : list EnemyEntity.t) :
  find tid es = None -> ~ In tid (enemyIds es).
Proof.
  induction es as [|e rest IH]; [intros _ []|].
  cbn [find]. destruct (String.eqb (EnemyEntity.id e) tid) eqn:E; [discriminate|].
  intros H [Hin|Hin].
  - apply String.eqb_neq in E. now apply E.
  - now apply IH.
Qed.

Lemma enemiesRef_set_enemies (es : list EnemyEntity.t) (r : Refs.t) :
  Refs.enemiesRef (set_enemies es r) = es.
Proof. reflexivity. Qed.

(** One projectile: the enemies keep their identities, a projectile that
    stays is still aimed at a listed enemy, and every call credits a
    bounty. *)
Lemma updateProjectile_facts (p : ProjectileEntity.t) (r : Refs.t) :
  let '(kept, r', calls) := updateProjectile host p r in
  enemyIds (Refs.enemiesRef r') = enemyIds (Refs.enemiesRef r)
  /\ Forall isBounty calls
  /\ match kept with
     | Some p' =>
         ProjectileEntity.targetId p' = ProjectileEntity.targetId p
         /\ aimedAt (Refs.enemiesRef r) p
     | None => True
     end.
Proof.
  unfold updateProjectile.
  destruct (find (ProjectileEntity.targetId p) (Refs.enemiesRef r))
    as [target|] eqn:Hf.
  2:{ repeat split. constructor. }
  apply find_some in Hf. destruct Hf as [Hin Hid].
  match goal with |- context [if ?b then _ else _] => destruct b end.
  - destruct (ProjectileEntity.isAoE p).
    + pose proof (splash_ids (EnemyEntity.x target) (EnemyEntity.y target)
                    (ProjectileEntity.damage p) (Refs.enemiesRef r) r) as Hi.
      pose proof (splash_calls (EnemyEntity.x target) (EnemyEntity.y target)
                    (ProjectileEntity.damage p) (Refs.enemiesRef r) r) as Hc.
      destruct (splash host (EnemyEntity.x target) (EnemyEntity.y target)
                  (ProjectileEntity.damage p) (Refs.enemiesRef r) r)
        as [[es r1] c]. cbn [fst snd] in Hi, Hc.
      rewrite createParticles_enemies, enemiesRef_set_enemies.
      repeat split; assumption.
    + pose proof (damageEnemy_id target (ProjectileEntity.damage p) r) as Hi.
      pose proof (damageEnemy_calls target (ProjectileEntity.damage p) r) as Hc.
      destruct (damageEnemy host target (ProjectileEntity.damage p) r)
        as [[t1 r1] c]. cbn [fst snd] in Hi, Hc.
      rewrite createParticles_enemies, enemiesRef_set_enemies.
      split; [|split; [assumption|exact I]].
      apply storeTarget_ids.
  - split; [reflexivity|]. split; [constructor|].
    split; [reflexivity|].
    unfold aimedAt, enemyIds. rewrite <- Hid. now apply in_map.
Qed.

Lemma updateProjectiles_facts (ps : list ProjectileEntity.t) (r : Refs.t) :
  let '(kept, r', calls) := updateProjectiles host ps r in
  enemyIds (Refs.enemiesRef r') = enemyIds (Refs.enemiesRef r)
  /\ Forall isBounty calls
  /\ Forall (aimedAt (Refs.enemiesRef r')) kept.
Proof.
  induction ps as [|p rest IH].
  - cbn. repeat split; constructor.
  - cbn [updateProjectiles].
    destruct (updateProjectiles host rest r) as [[rest' r1] c1].
    destruct IH as (Hi1 & Hc1 & Ha1).
    pose proof (updateProjectile_facts p r1) as H2.
    destruct (updateProjectile host p r1) as [[kept r2] c2].
    destruct H2 as (Hi2 & Hc2 & Hk).
    split; [congruence|]. split; [now apply Forall_app|].
    assert (Ha : Forall (aimedAt (Refs.enemiesRef r2)) rest').
    { revert Ha1. apply Forall_impl. intro q. unfold aimedAt. now rewrite Hi2. }
    destruct kept as [p'|]; [|assumption].
    constructor; [|assumption].
    destruct Hk as [Ht Hp]. unfold aimedAt in *. now rewrite Ht, Hi2.
Qed.

End FiringAndImpact.

(** ** What one step calls *)

Section Calls.

Variable host : Host.t.

Lemma running_true (g : GameState.t) :
  running g = true
  <-> GameState.isGameOver g = false /\ GameState.isPlaying g = true.
Proof.
  unfold running.
  destruct (GameState.isGameOver g), (GameState.isPlaying g); cbn;
    split; intros; try discriminate; try tauto; destruct H; discriminate.
Qed.

Lemma update_stopped (g : GameState.t) (wc : option WaveComposition.t)
  (r : Refs.t) :
  running g = false -> update host g wc r = (r, []).
Proof.
  unfold running, update. intro H. apply negb_false_iff in H. now rewrite H.
Qed.

(** A running step calls: what spawning calls (nothing, or wave-complete
    once), then one [LoseLife] per enemy at the end of the path, then the
    bounties of the projectile phase. *)
Lemma update_calls (g : GameState.t) (wc : option WaveComposition.t)
  (r : Refs.t) :
  running g = true ->
  exists lose bounties,
    snd (update host g wc r) = snd (spawning host wc r) ++ lose ++ bounties
    /\ Forall (fun c => c = LoseLife) lose
    /\ Forall isBounty bounties.
Proof.
  unfold running, update. intro H. apply negb_true_iff in H. rewrite H.
  destruct (spawning host wc r) as [r1 c1].
  pose proof (updateEnemies_calls host (Refs.enemiesRef r1)) as Hl.
  destruct (updateEnemies host (Refs.enemiesRef r1)) as [es c2].
  set (r3 := towersFire host (set_enemies (removeDead es) r1)).
  pose proof (updateProjectiles_facts host (Refs.projectilesRef r3) r3) as Hp.
  destruct (updateProjectiles host (Refs.projectilesRef r3) r3)
    as [[ps r4] c4].
  destruct Hp as (_ & Hb & _).
  exists c2, c4. cbn [snd]. repeat split; assumption.
Qed.

(** The enemies a running step leaves are those the towers read, possibly
    damaged; every projectile it leaves is aimed at one of them. *)
Lemma update_board (g : GameState.t) (wc : option WaveComposition.t)
  (r : Refs.t) :
  running g = true ->
  let r' := fst (update host g wc r) in
  enemyIds (Refs.enemiesRef r') = enemyIds (targetingView host wc r)
  /\ Forall (aimedAt (Refs.enemiesRef r')) (Refs.projectilesRef r').
Proof.
  unfold running, update, targetingView. intro H.
  apply negb_true_iff in H. rewrite H.
  destruct (spawning host wc r) as [r1 c1]. cbn [fst].
  destruct (updateEnemies host (Refs.enemiesRef r1)) as [es c2]. cbn [fst].
  set (r2 := set_enemies (removeDead es) r1).
  destruct (towersFire_refs host r2) as (He3 & _).
  set (r3 := towersFire host r2) in *.
  pose proof (updateProjectiles_facts host (Refs.projectilesRef r3) r3) as Hp.
  destruct (updateProjectiles host (Refs.projectilesRef r3) r3)
    as [[ps r4] c4].
  destruct Hp as (Hi & _ & Ha).
  split; [|exact Ha].
  change (enemyIds (Refs.enemiesRef r4) = enemyIds (removeDead es)).
  rewrite Hi, He3. reflexivity.
Qed.

Lemma signalCount_app (a b : list Call) :
  signalCount (a ++ b) = (signalCount a + signalCount b)%nat.
Proof. unfold signalCount. now rewrite filter_app, length_app. Qed.

Lemma signalCount_lose (cs : list Call) :
  Forall (fun c => c = LoseLife) cs -> signalCount cs = 0%nat.
Proof.
  induction 1 as [|c cs -> _ IH]; [reflexivity|exact IH].
Qed.

Lemma signalCount_bounty (cs : list Call) :
  Forall isBounty cs -> signalCount cs = 0%nat.
Proof.
  induction 1 as [|c cs [ty ->] _ IH]; [reflexivity|exact IH].
Qed.

(** Per step: wave-complete is signalled once when the step runs with an
    empty spawn queue, an empty enemy list and a composition in the props,
    and not at all otherwise. *)
Lemma waveCompleteSignals_step (w : World.t) :
  waveCompleteSignals host w = 1%nat
  /\ running (App.gameState (World.app w)) = true
  /\ Refs.enemiesToSpawnRef (World.refs w) = []
  /\ Refs.enemiesRef (World.refs w) = []
  /\ App.waveComposition (World.app w) <> None
  \/ waveCompleteSignals host w = 0%nat
     /\ ~ (running (App.gameState (World.app w)) = true
           /\ Refs.enemiesToSpawnRef (World.refs w) = []
           /\ Refs.enemiesRef (World.refs w) = []
           /\ App.waveComposition (World.app w) <> None).
Proof.
  unfold waveCompleteSignals.
  destruct (running (App.gameState (World.app w))) eqn:Hrun.
  - destruct (update_calls (App.gameState (World.app w))
                (App.waveComposition (World.app w)) (World.refs w) Hrun)
      as (lose & bounties & -> & Hl & Hb).
    rewrite !signalCount_app, (signalCount_lose _ Hl), (signalCount_bounty _ Hb).
    destruct (spawning_calls host (App.waveComposition (World.app w)) (World.refs w))
      as [(-> & Hq & He & Hw)|(-> & Hn)].
    + left. repeat split; assumption.
    + right. split; [reflexivity|]. intros (_ & H). now apply Hn.
  - right. rewrite update_stopped by assumption.
    split; [reflexivity|]. intros (H & _). discriminate.
Qed.

End Calls.

(** ** The state holder *)

Lemma applyCall_stays_stopped (a : App.t) (c : Call) :
  GameState.isPlaying (App.gameState a) = false ->
  GameState.isPlaying (App.gameState (applyCall a c)) = false.
Proof.
  intro H. destruct c; cbn; try assumption; try reflexivity.
  destruct (GameState.lives (App.gameState a) - 1 <=? 0); cbn;
    [reflexivity|assumption].
Qed.

Lemma applyCalls_stays_stopped (cs : list Call) (a : App.t) :
  GameState.isPlaying (App.gameState a) = false ->
  GameState.isPlaying (App.gameState (applyCalls a cs)) = false.
Proof.
  revert a. induction cs as [|c cs IH]; intros a H; [exact H|].
  cbn [applyCalls fold_left]. apply IH. now apply applyCall_stays_stopped.
Qed.

(** Once [onWaveComplete] has been called the game is not playing. *)
Lemma applyCalls_wave_complete (cs : list Call) (a : App.t) :
  (0 < signalCount cs)%nat ->
  GameState.isPlaying (App.gameState (applyCalls a cs)) = false.
Proof.
  revert a. induction cs as [|c cs IH]; intros a H; [cbn in H; lia|].
  cbn [applyCalls fold_left].
  destruct c; try (apply IH; exact H).
  apply applyCalls_stays_stopped. reflexivity.
Qed.

Lemma applyCall_waveLoaded (a : App.t) (c : Call) :
  (GameState.isPlaying (App.gameState a) = true -> App.waveComposition a <> None) ->
  GameState.isPlaying (App.gameState (applyCall a c)) = true ->
  App.waveComposition (applyCall a c) <> None.
Proof.
  intros H. destruct c; cbn; try exact H; try discriminate.
  destruct (GameState.lives (App.gameState a) - 1 <=? 0); cbn;
    [discriminate|exact H].
Qed.

Lemma applyCalls_waveLoaded (cs : list Call) (a : App.t) :
  (GameState.isPlaying (App.gameState a) = true -> App.waveComposition a <> None) ->
  GameState.isPlaying (App.gameState (applyCalls a cs)) = true ->
  App.waveComposition (applyCalls a cs) <> None.
Proof.
  revert a. induction cs as [|c cs IH]; intros a H; [exact H|].
  cbn [applyCalls fold_left]. apply IH. now apply applyCall_waveLoaded.
Qed.

(** ** Wave completion *)

Section WaveComplete.

Variable host : Host.t.

Lemma click_calls (g : GameState.t) (sel : option TowerType)
  (rect : option DOMRect.t) (e : MouseEvent.t) (r : Refs.t) :
  snd (handleCanvasClick host g sel rect e r) = []
  \/ exists t, sel = Some t
               /\ TowerConfig.cost (TOWER_STATS t) <= GameState.money g
               /\ snd (handleCanvasClick host g sel rect e r)
                  = [SpendMoney (TowerConfig.cost (TOWER_STATS t))].
Proof.
  unfold handleCanvasClick, placementVerdict.
  destruct sel as [t|]; [|now left].
  destruct (GameState.isGameOver g); [now left|].
  destruct rect as [rect|]; [|now left]. cbn zeta.
  destruct (GameState.money g <? TowerConfig.cost (TOWER_STATS t)) eqn:Hm;
    [now left|].
  destruct (isOccupied _ _ _); [now left|].
  destruct (onPath _ _); [now left|].
  right. exists t. apply Z.ltb_ge in Hm. repeat split. exact Hm.
Qed.

Lemma click_isPlaying (rect : option DOMRect.t) (e : MouseEvent.t) (w : World.t) :
  isPlayingIn (click host rect e w) = isPlayingIn w
  /\ App.waveComposition (World.app (click host rect e w))
     = App.waveComposition (World.app w).
Proof.
  unfold click, isPlayingIn.
  destruct (click_calls (App.gameState (World.app w))
              (App.selectedTower (World.app w)) rect e (World.refs w))
    as [H|(t & _ & _ & H)];
    destruct (handleCanvasClick host (App.gameState (World.app w))
                (App.selectedTower (World.app w)) rect e (World.refs w))
      as [r calls]; cbn [snd] in H; subst calls; split; reflexivity.
Qed.

Lemma selectTower_isPlaying (t : TowerType) (w : World.t) :
  isPlayingIn (selectTower t w) = isPlayingIn w
  /\ App.waveComposition (World.app (selectTower t w))
     = App.waveComposition (World.app w).
Proof.
  unfold selectTower, isPlayingIn.
  destruct (TowerConfig.cost (TOWER_STATS t) <=? _); split; reflexivity.
Qed.

Lemma frame_stays_stopped (w : World.t) :
  isPlayingIn w = false -> isPlayingIn (frame host w) = false.
Proof.
  intro H. unfold isPlayingIn in *.
  rewrite (frame_stopped host w); [exact H|now right].
Qed.

(** Nothing is signalled while the game is not playing, until the start
    button is pressed. *)
Lemma stopped_no_signal (cs : list Command) (w : World.t) :
  withinWave cs -> isPlayingIn w = false -> signalsDuring host w cs = 0%nat.
Proof.
  unfold withinWave.
  revert w. induction cs as [|c cs IH]; intros w Hcs Hp; [reflexivity|].
  cbn [forallb] in Hcs. apply andb_true_iff in Hcs. destruct Hcs as [Hc Hcs].
  cbn [signalsDuring].
  destruct c as [|rect e|t|wd]; cbn [exec]; [| | |discriminate].
  - rewrite (IH _ Hcs (frame_stays_stopped w Hp)).
    unfold waveCompleteSignals. rewrite update_stopped; [reflexivity|].
    unfold running. unfold isPlayingIn in Hp. rewrite Hp. now rewrite orb_true_r.
  - apply IH; [exact Hcs|]. now rewrite (proj1 (click_isPlaying rect e w)).
  - apply IH; [exact Hcs|]. now rewrite (proj1 (selectTower_isPlaying t w)).
Qed.

Lemma frame_after_signal (w : World.t) :
  waveCompleteSignals host w = 1%nat -> isPlayingIn (frame host w) = false.
Proof.
  unfold waveCompleteSignals, frame, isPlayingIn. intro H.
  destruct (update host (App.gameState (World.app w))
              (App.waveComposition (World.app w)) (World.refs w)) as [r calls].
  cbn [snd] in H. cbn [World.app].
  apply applyCalls_wave_complete. lia.
Qed.

(** The props stay consistent: every command keeps [waveLoaded]. *)
Lemma exec_waveLoaded (w : World.t) (c : Command) :
  waveLoaded w -> waveLoaded (exec host w c).
Proof.
  unfold waveLoaded. intro H.
  destruct c as [|rect e|t|wd]; cbn [exec].
  - unfold frame.
    destruct (update host (App.gameState (World.app w))
                (App.waveComposition (World.app w)) (World.refs w)) as [r calls].
    cbn [World.app]. now apply applyCalls_waveLoaded.
  - destruct (click_isPlaying rect e w) as [Hp Hw].
    unfold isPlayingIn in Hp. rewrite Hp, Hw. exact H.
  - destruct (selectTower_isPlaying t w) as [Hp Hw].
    unfold isPlayingIn in Hp. rewrite Hp, Hw. exact H.
  - unfold pressStart, startNextWave.
    destruct (GameState.isPlaying (App.gameState (World.app w))) eqn:Hp;
      [cbn; rewrite Hp; intros _; now apply H|].
    destruct (App.isWaveGenerating (World.app w));
      [cbn; rewrite Hp; discriminate|].
    destruct (GameState.isGameOver (App.gameState (World.app w)));
      [cbn; rewrite Hp; discriminate|].
    cbn [orb]. destruct wd as [wd|err]; [|rewrite Hp; discriminate].
    cbn. discriminate.
Qed.

Lemma run_waveLoaded (cs : list Command) (w : World.t) :
  waveLoaded w -> waveLoaded (run host w cs).
Proof.
  revert w. induction cs as [|c cs IH]; intros w H; [exact H|].
  cbn [run fold_left]. apply IH. now apply exec_waveLoaded.
Qed.

Lemma exec_stays_stopped (w : World.t) (c : Command) :
  isPressStart c = false -> isPlayingIn w = false ->
  isPlayingIn (exec host w c) = false.
Proof.
  intros Hc Hp. destruct c as [|rect e|t|wd]; cbn [exec]; [| | |discriminate].
  - now apply frame_stays_stopped.
  - now rewrite (proj1 (click_isPlaying rect e w)).
  - now rewrite (proj1 (selectTower_isPlaying t w)).
Qed.

Lemma run_stays_stopped (cs : list Command) (w : World.t) :
  withinWave cs -> isPlayingIn w = false -> isPlayingIn (run host w cs) = false.
Proof.
  unfold withinWave.
  revert w. induction cs as [|c cs IH]; intros w Hcs Hp; [exact Hp|].
  cbn [forallb] in Hcs. apply andb_true_iff in Hcs. destruct Hcs as [Hc Hcs].
  cbn [run fold_left]. apply IH; [exact Hcs|].
  apply exec_stays_stopped; [now apply negb_true_iff|exact Hp].
Qed.

(** While the wave is still playing nothing has been signalled. *)
Lemma playing_no_signal_yet (cs : list Command) (w : World.t) :
  withinWave cs -> isPlayingIn (run host w cs) = true ->
  signalsDuring host w cs = 0%nat.
Proof.
  revert w. induction cs as [|c cs IH]; intros w Hcs Hp; [reflexivity|].
  pose proof Hcs as Hcs0. unfold withinWave in Hcs.
  cbn [forallb] in Hcs. apply andb_true_iff in Hcs. destruct Hcs as [Hc Hcs].
  cbn [signalsDuring]. cbn [run fold_left] in Hp.
  rewrite (IH _ Hcs Hp).
  destruct c as [|rect e|t|wd]; try reflexivity.
  destruct (waveCompleteSignals_step host w) as [(H1 & _)|(H0 & _)];
    [|now rewrite H0].
  exfalso.
  change (isPlayingIn (run host (frame host w) cs) = true) in Hp.
  rewrite (run_stays_stopped cs (frame host w) Hcs (frame_after_signal w H1)) in Hp.
  discriminate.
Qed.

Lemma signalsDuring_app (a b : list Command) (w : World.t) :
  signalsDuring host w (a ++ b)
  = (signalsDuring host w a + signalsDuring host (run host w a) b)%nat.
Proof.
  revert w. induction a as [|c a IH]; intro w; [reflexivity|].
  cbn [app signalsDuring run fold_left]. rewrite IH. unfold run. lia.
Qed.

(** C6.  While the game is playing, a simulation step signals
    wave-complete exactly when it finds the spawn queue and the enemy list
    both empty, and then once; it signals nothing while either is not
    empty.  Within one wave (until the start button is pressed again) it
    is signalled at most once over any sequence of frames, clicks and
    tower selections: the step that signals it stops the game, and no
    later step of that wave signals again.  Nothing is signalled as long
    as the wave is playing, and the first step that finds both empty makes
    the count exactly one. *)
Theorem wave_complete_signalled_once (w : World.t) (cs : list Command) :
  waveLoaded w ->
  isPlayingIn w = true ->
  isGameOverIn w = false ->
  withinWave cs ->
  (waveCompleteSignals host w = 1%nat
   <-> Refs.enemiesToSpawnRef (World.refs w) = []
       /\ Refs.enemiesRef (World.refs w) = [])
  /\ (waveCompleteSignals host w = 0%nat
      <-> Refs.enemiesToSpawnRef (World.refs w) <> []
          \/ Refs.enemiesRef (World.refs w) <> [])
  /\ (signalsDuring host w cs <= 1)%nat
  /\ (waveCompleteSignals host w = 1%nat ->
      isPlayingIn (frame host w) = false
      /\ signalsDuring host (frame host w) cs = 0%nat)
  /\ (let w' := run host w cs in
      isPlayingIn w' = true ->
      isGameOverIn w' = false ->
      Refs.enemiesToSpawnRef (World.refs w') = [] ->
      Refs.enemiesRef (World.refs w') = [] ->
      signalsDuring host w cs = 0%nat
      /\ signalsDuring host w (cs ++ [Frame]) = 1%nat).
Proof.
  intros Hwc Hplay Hover Hcs.
  rewrite <- !and_assoc. split; [rewrite !and_assoc|].
  2:{ intros w' Hp' Ho' Hq' He'.
      pose proof (playing_no_signal_yet cs w Hcs Hp') as H0.
      split; [exact H0|].
      rewrite signalsDuring_app, H0. cbn [signalsDuring]. fold w'.
      destruct (waveCompleteSignals_step host w')
        as [(H1 & _)|(_ & Hn)]; [rewrite H1; reflexivity|].
      exfalso. apply Hn. repeat split; try assumption.
      - apply running_true. split; assumption.
      - apply (run_waveLoaded cs w Hwc). exact Hp'. }
  assert (Hrun : running (App.gameState (World.app w)) = true).
  { apply running_true. split; assumption. }
  pose proof (Hwc Hplay) as Hsome.
  split; [|split; [|split]].
  - destruct (waveCompleteSignals_step host w)
      as [(H1 & _ & Hq & He & _)|(H0 & Hn)].
    + split; [intros _; now split|intros _; exact H1].
    + split; [intro H; rewrite H in H0; discriminate|].
      intros [Hq He]. exfalso. apply Hn. repeat split; assumption.
  - destruct (waveCompleteSignals_step host w)
      as [(H1 & _ & Hq & He & _)|(H0 & Hn)].
    + split; [intro H; rewrite H in H1; discriminate|].
      intros [H|H]; contradiction.
    + split; [|intros _; exact H0]. intros _.
      destruct (Refs.enemiesToSpawnRef (World.refs w)) as [|g q];
        [|left; discriminate].
      destruct (Refs.enemiesRef (World.refs w)) as [|x es];
        [|right; discriminate].
      exfalso. apply Hn. repeat split; assumption.
  - clear Hwc Hplay Hover Hrun Hsome.
    revert w. unfold withinWave in Hcs.
    induction cs as [|c cs IH]; intro w; [cbn; lia|].
    cbn [forallb] in Hcs. apply andb_true_iff in Hcs. destruct Hcs as [Hc Hcs].
    cbn [signalsDuring].
    specialize (IH Hcs).
    destruct c as [|rect e|t|wd]; cbn [exec]; [|apply IH|apply IH|discriminate].
    destruct (waveCompleteSignals_step host w) as [(H1 & _)|(H0 & _)].
    + rewrite H1.
      rewrite (stopped_no_signal cs (frame host w) Hcs (frame_after_signal w H1)).
      lia.
    + rewrite H0. apply IH.
  - intro H1. split; [now apply frame_after_signal|].
    apply stopped_no_signal; [exact Hcs|now apply frame_after_signal].
Qed.

Lemma initialWorld_waveLoaded : waveLoaded initialWorld.
Proof. intro H. discriminate. Qed.

End WaveComplete.

(** ** Random draws only grow *)

Section RandomCalls.

Variable host : Host.t.

Lemma createParticles_randomCalls (x y : Q) (color : string) (count : nat)
  (r : Refs.t) :
  (Refs.randomCalls r <= Refs.randomCalls (createParticles host x y color count r))%nat.
Proof.
  destruct (createParticles_refs host x y color count r)
    as (_ & _ & _ & _ & _ & _ & _ & H & _).
  rewrite H. lia.
Qed.











End RandomCalls.

(** ** Dead enemies and tower targeting *)

Section DeadEnemies.

Variable host : Host.t.




Lemma frame_refs (w : World.t) :
  World.refs (frame host w)
  = fst (update host (App.gameState (World.app w))
           (App.waveComposition (World.app w)) (World.refs w)).
Proof.
  unfold frame.
  destruct (update host (App.gameState (World.app w))
              (App.waveComposition (World.app w)) (World.refs w)); reflexivity.
Qed.




Lemma click_refs (rect : option DOMRect.t) (e : MouseEvent.t) (w : World.t) :
  Refs.enemiesRef (World.refs (click host rect e w)) = Refs.enemiesRef (World.refs w)
  /\ Refs.projectilesRef (World.refs (click host rect e w))
     = Refs.projectilesRef (World.refs w)
  /\ (Refs.randomCalls (World.refs w)
      <= Refs.randomCalls (World.refs (click host rect e w)))%nat.
Proof.
  unfold click, handleCanvasClick.
  destruct (placementVerdict host (App.gameState (World.app w))
              (App.selectedTower (World.app w)) rect e (World.refs w))
    as [why|newTower]; cbn [World.refs].
  - repeat split. lia.
  - rewrite createParticles_enemies, createParticles_projectiles.
    repeat split.
    eapply Nat.le_trans; [|apply createParticles_randomCalls]. cbn. lia.
Qed.

Lemma pressStart_refs (wd : Promise WaveComposition.t) (w : World.t) :
  Refs.enemiesRef (World.refs (pressStart wd w)) = Refs.enemiesRef (World.refs w)
  /\ Refs.projectilesRef (World.refs (pressStart wd w))
     = Refs.projectilesRef (World.refs w)
  /\ Refs.randomCalls (World.refs (pressStart wd w))
     = Refs.randomCalls (World.refs w).
Proof.
  unfold pressStart.
  destruct (GameState.isPlaying (App.gameState (World.app w))
            || App.isWaveGenerating (World.app w)
            || GameState.isGameOver (App.gameState (World.app w)));
    [repeat split|].
  destruct wd as [wd|err]; [|repeat split].
  cbn [World.refs]. unfold onWaveCompositionChange.
  destruct (App.waveComposition (startNextWave (Resolved wd) (World.app w)));
    repeat split.
Qed.




(** An enemy that is dead when a step starts is dead when it is filtered. *)
Lemma dead_stays_dead (x : EnemyEntity.t) :
  alive x = false -> alive (fst (updateEnemy host x)) = false.
Proof.
  intro H. destruct (alive (fst (updateEnemy host x))) eqn:E; [|reflexivity].
  apply updateEnemy_alive in E. congruence.
Qed.

(** So is an enemy that has no next waypoint. *)
Lemma finished_is_dead (x : EnemyEntity.t) :
  nth_error PATH_WAYPOINTS (EnemyEntity.pathIndex x + 1) = None ->
  alive (fst (updateEnemy host x)) = false.
Proof.
  intro H. unfold alive.
  destruct (updateEnemy_hp host x) as [[_ Hc]|[-> _]]; [|reflexivity].
  unfold updateEnemy in Hc. cbn [enemy_with_frozen EnemyEntity.pathIndex] in Hc.
  rewrite H in Hc. discriminate.
Qed.

End DeadEnemies.

(** ** Money and lives *)

Section MoneyAndLives.

Variable host : Host.t.

Lemma applyCall_money (a : App.t) (c : Call) :
  GameState.money (App.gameState (applyCall a c))
  = GameState.money (App.gameState a) + moneyChange c.
Proof.
  destruct c; cbn; try lia.
  destruct (GameState.lives (App.gameState a) - 1 <=? 0); cbn; lia.
Qed.

Lemma applyCall_lives (a : App.t) (c : Call) :
  GameState.lives (App.gameState (applyCall a c))
  = GameState.lives (App.gameState a) - livesLost c.
Proof.
  destruct c; cbn; try lia.
  destruct (GameState.lives (App.gameState a) - 1 <=? 0); cbn; lia.
Qed.

Lemma applyCalls_money (cs : list Call) (a : App.t) :
  GameState.money (App.gameState (applyCalls a cs))
  = GameState.money (App.gameState a) + sumZ moneyChange cs.
Proof.
  revert a. induction cs as [|c cs IH]; intro a; [cbn; lia|].
  cbn [applyCalls fold_left sumZ fold_right].
  change (fold_left applyCall cs (applyCall a c))
    with (applyCalls (applyCall a c) cs).
  rewrite IH, applyCall_money. unfold sumZ. lia.
Qed.

Lemma applyCalls_lives (cs : list Call) (a : App.t) :
  GameState.lives (App.gameState (applyCalls a cs))
  = GameState.lives (App.gameState a) - sumZ livesLost cs.
Proof.
  revert a. induction cs as [|c cs IH]; intro a; [cbn; lia|].
  cbn [applyCalls fold_left sumZ fold_right].
  change (fold_left applyCall cs (applyCall a c))
    with (applyCalls (applyCall a c) cs).
  rewrite IH, applyCall_lives. unfold sumZ. lia.
Qed.

Lemma sumZ_app (f : Call -> Z) (a b : list Call) :
  sumZ f (a ++ b) = sumZ f a + sumZ f b.
Proof.
  unfold sumZ. induction a as [|c a IH]; [reflexivity|].
  cbn [app fold_right]. rewrite IH. lia.
Qed.

Lemma bounty_positive (ty : EnemyType) :
  0 < EnemyConfig.bounty (ENEMY_STATS ty).
Proof. destruct ty; reflexivity. Qed.

Lemma sumZ_money_bounties (cs : list Call) :
  Forall isBounty cs -> 0 <= sumZ moneyChange cs.
Proof.
  induction 1 as [|c cs [ty ->] _ IH]; [cbn; lia|].
  cbn. pose proof (bounty_positive ty). unfold sumZ in IH. lia.
Qed.

Lemma sumZ_money_lose (cs : list Call) :
  Forall (fun c => c = LoseLife) cs -> sumZ moneyChange cs = 0.
Proof.
  induction 1 as [|c cs -> _ IH]; [reflexivity|]. cbn. unfold sumZ in IH. lia.
Qed.

Lemma sumZ_lives_bounties (cs : list Call) :
  Forall isBounty cs -> sumZ livesLost cs = 0.
Proof.
  induction 1 as [|c cs [ty ->] _ IH]; [reflexivity|]. cbn. unfold sumZ in IH. lia.
Qed.

Lemma spawning_sums (wc : option WaveComposition.t) (r : Refs.t) :
  sumZ moneyChange (snd (spawning host wc r)) = 0
  /\ sumZ livesLost (snd (spawning host wc r)) = 0.
Proof.
  destruct (spawning_calls host wc r) as [(-> & _)|(-> & _)]; split; reflexivity.
Qed.

(** A simulation step changes money only by adding bounties. *)
Lemma frame_money (w : World.t) : moneyIn w <= moneyIn (frame host w).
Proof.
  unfold moneyIn.
  destruct (running (App.gameState (World.app w))) eqn:Hrun.
  - destruct (update_calls host (App.gameState (World.app w))
                (App.waveComposition (World.app w)) (World.refs w) Hrun)
      as (lose & bounties & Hc & Hl & Hb).
    unfold frame.
    destruct (update host (App.gameState (World.app w))
                (App.waveComposition (World.app w)) (World.refs w)) as [r calls].
    cbn [snd] in Hc. subst calls. cbn [World.app].
    rewrite applyCalls_money, !sumZ_app, (sumZ_money_lose _ Hl).
    pose proof (sumZ_money_bounties _ Hb).
    destruct (spawning_sums (App.waveComposition (World.app w)) (World.refs w))
      as [-> _]. lia.
  - rewrite (frame_stopped host w); [lia|].
    unfold running in Hrun. apply negb_false_iff in Hrun.
    apply orb_true_iff in Hrun. destruct Hrun as [H|H]; [now left|].
    right. now apply negb_true_iff in H.
Qed.

(** A click changes money only by subtracting a cost that the funds check
    has admitted. *)
Lemma click_money (rect : option DOMRect.t) (e : MouseEvent.t) (w : World.t) :
  moneyIn (click host rect e w) = moneyIn w
  \/ exists t, App.selectedTower (World.app w) = Some t
               /\ TowerConfig.cost (TOWER_STATS t) <= moneyIn w
               /\ moneyIn (click host rect e w)
                  = moneyIn w - TowerConfig.cost (TOWER_STATS t).
Proof.
  unfold moneyIn, click.
  destruct (click_calls host (App.gameState (World.app w))
              (App.selectedTower (World.app w)) rect e (World.refs w))
    as [H|(t & Hsel & Hm & H)];
    destruct (handleCanvasClick host (App.gameState (World.app w))
                (App.selectedTower (World.app w)) rect e (World.refs w))
      as [r calls]; cbn [snd] in H; subst calls.
  - now left.
  - right. exists t. split; [exact Hsel|]. split; [exact Hm|reflexivity].
Qed.

(** Money is never negative: every command keeps it at or above 0. *)
Lemma exec_money_nonneg (w : World.t) (c : Command) :
  0 <= moneyIn w -> 0 <= moneyIn (exec host w c).
Proof.
  intro H. destruct c as [|rect e|t|wd]; cbn [exec].
  - pose proof (frame_money w). lia.
  - destruct (click_money rect e w) as [->|(t & _ & Hm & ->)]; lia.
  - unfold selectTower, moneyIn in *.
    destruct (TowerConfig.cost (TOWER_STATS t) <=? _); exact H.
  - unfold pressStart, startNextWave, moneyIn in *.
    destruct (GameState.isPlaying (App.gameState (World.app w))); [exact H|].
    destruct (App.isWaveGenerating (World.app w)); [exact H|].
    destruct (GameState.isGameOver (App.gameState (World.app w))); [exact H|].
    destruct wd; exact H.
Qed.

Lemma run_money_nonneg (cs : list Command) (w : World.t) :
  0 <= moneyIn w -> 0 <= moneyIn (run host w cs).
Proof.
  revert w. induction cs as [|c cs IH]; intros w H; [exact H|].
  cbn [run fold_left]. apply IH. now apply exec_money_nonneg.
Qed.

Lemma updateEnemy_calls (e : EnemyEntity.t) :
  snd (updateEnemy host e) = if isFinished e then [LoseLife] else [].
Proof.
  unfold updateEnemy, isFinished.
  cbn [enemy_with_frozen EnemyEntity.pathIndex EnemyEntity.x EnemyEntity.y
       EnemyEntity.distanceTraveled].
  destruct (nth_error PATH_WAYPOINTS (EnemyEntity.pathIndex e + 1));
    [|reflexivity].
  match goal with |- context [if ?b then _ else _] => destruct b end;
    reflexivity.
Qed.

(** Every enemy that has no next waypoint costs one life, in the step
    itself: [LoseLife] is called once per such enemy. *)
Lemma updateEnemies_lives (es : list EnemyEntity.t) :
  sumZ livesLost (snd (updateEnemies host es))
  = Z.of_nat (List.length (filter isFinished es)).
Proof.
  induction es as [|e rest IH]; [reflexivity|].
  cbn [updateEnemies filter].
  pose proof (updateEnemy_calls e) as He.
  destruct (updateEnemy host e) as [e' c1].
  destruct (updateEnemies host rest) as [rest' c2].
  cbn [fst snd] in *. rewrite sumZ_app, IH. subst c1.
  destruct (isFinished e); [|reflexivity].
  cbn [List.length]. cbn [sumZ fold_right livesLost]. lia.
Qed.

Lemma frame_lives (w : World.t) :
  running (App.gameState (World.app w)) = true ->
  livesIn (frame host w)
  = livesIn w
    - Z.of_nat (List.length (leakers host (App.waveComposition (World.app w))
                               (World.refs w))).
Proof.
  intro Hrun. unfold livesIn, leakers, frame, update.
  unfold running in Hrun. apply negb_true_iff in Hrun. rewrite Hrun.
  pose proof (spawning_sums (App.waveComposition (World.app w)) (World.refs w))
    as [_ Hs].
  destruct (spawning host (App.waveComposition (World.app w)) (World.refs w))
    as [r1 c1]. cbn [fst snd] in *.
  pose proof (updateEnemies_lives (Refs.enemiesRef r1)) as Hl.
  destruct (updateEnemies host (Refs.enemiesRef r1)) as [es c2].
  set (r3 := towersFire host (set_enemies (removeDead es) r1)).
  pose proof (updateProjectiles_facts host (Refs.projectilesRef r3) r3) as Hp.
  destruct (updateProjectiles host (Refs.projectilesRef r3) r3)
    as [[ps r4] c4].
  destruct Hp as (_ & Hb & _). cbn [snd] in Hl. cbn [World.app].
  rewrite applyCalls_lives, !sumZ_app, Hs, Hl, (sumZ_lives_bounties _ Hb). lia.
Qed.

(** With at most one enemy finishing the path in a step, lives stay at or
    above 0. *)
Lemma frame_lives_nonneg (w : World.t) :
  running (App.gameState (World.app w)) = true ->
  1 <= livesIn w ->
  (List.length (leakers host (App.waveComposition (World.app w)) (World.refs w))
   <= 1)%nat ->
  0 <= livesIn (frame host w).
Proof.
  intros Hrun Hl Hk. rewrite (frame_lives w Hrun). lia.
Qed.

End MoneyAndLives.

(** ** Spawn ids *)



(** ** The slow timer *)

(** C4.  The timer is decremented before the speed is chosen, so the step
    that takes the timer from 1 to 0 already moves at full speed: after a
    slow of duration [d = frozen] the movement steps number 0 to [d - 2]
    run at half speed and step [d - 1] at full speed, that is [d - 1]
    slowed frames and not [d].  A grunt (speed 1.5) with timer 1 advances
    by 1.5, not 0.75; with the timer at 60 (the slow tower) the 59th step
    is the last slowed one. *)
Theorem slow_timer_expires_one_frame_early
  (host : Host.t) (e : EnemyEntity.t) (k : nat) :
  currentSpeed (moveFrames host k e)
  = (if Z.of_nat k <? EnemyEntity.frozen e - 1
     then EnemyEntity.speed e *! (1 # 2)
     else EnemyEntity.speed e)
  /\ (let g := fst (updateEnemy testHost (gruntAt "g" 0 (qz 80) 1)) in
      EnemyEntity.frozen g = 0
      /\ EnemyEntity.x g = (qz 20 +! (3 # 2))
      /\ EnemyEntity.x g <> (qz 20 +! (3 # 4)))
  /\ map (fun n => currentSpeed (moveFrames testHost n (gruntAt "g" 0 (qz 80) 60)))
       [0; 58; 59]%nat
     = [3 # 4; 3 # 4; 3 # 2].
Proof.
  split; [|split; [|reflexivity]].
  - revert e. induction k as [|k IH]; intro e.
    + cbn [moveFrames Z.of_nat]. unfold currentSpeed, frozenAfterTick.
      destruct (0 <? EnemyEntity.frozen e) eqn:E; [reflexivity|].
      rewrite E. apply Z.ltb_ge in E.
      replace (0 <? EnemyEntity.frozen e - 1) with false
        by (symmetry; apply Z.ltb_ge; lia).
      reflexivity.
    + cbn [moveFrames]. rewrite IH, updateEnemy_frozen, updateEnemy_speed.
      unfold frozenAfterTick.
      destruct (0 <? EnemyEntity.frozen e) eqn:E.
      * replace (Z.of_nat (S k) <? EnemyEntity.frozen e - 1)
          with (Z.of_nat k <? EnemyEntity.frozen e - 1 - 1); [reflexivity|].
        apply eq_true_iff_eq. rewrite !Z.ltb_lt. lia.
      * apply Z.ltb_ge in E.
        replace (Z.of_nat k <? EnemyEntity.frozen e - 1) with false
          by (symmetry; apply Z.ltb_ge; lia).
        replace (Z.of_nat (S k) <? EnemyEntity.frozen e - 1) with false
          by (symmetry; apply Z.ltb_ge; lia).
        reflexivity.
  - cbn zeta. split; [reflexivity|]. split; [reflexivity|]. discriminate.
Qed.

(** ** Lives *)

(** C1 (lives).  Two enemies that reach the end of the path in the same
    frame each take a life: with one life left the counter ends at -1.
    This state is reached from a fresh page by starting a wave of nineteen
    scouts, one grunt and one scout spawned 627 frames later: after 1599
    frames one life is left and both remaining enemies stand on the last
    waypoint; the next frame leaves -1 lives.  Money stays at its
    initial value. *)
Theorem lives_negative_after_double_leak :
  let w := frames testHost 1599 (pressStart (Resolved drainingWave) initialWorld) in
  livesIn w = 1
  /\ running (App.gameState (World.app w)) = true
  /\ map EnemyEntity.type (drawnEnemies w) = [grunt; SCOUT]
  /\ List.length (leakers testHost (App.waveComposition (World.app w))
                    (World.refs w)) = 2%nat
  /\ livesIn (frame testHost w) = -1
  /\ moneyIn (frame testHost w) = INITIAL_MONEY
  /\ isGameOverIn (frame testHost w) = true
  /\ livesIn twoAtTheExit = 1
  /\ livesIn (frame testHost twoAtTheExit) = -1.
Proof.
  vm_compute. repeat split.
Qed.

(** ** Bounties *)

(** [damageEnemy] on an enemy that is already dead credits its bounty
    once more. *)
Lemma damageEnemy_dead_enemy_credits_again
  (host : Host.t) (e : EnemyEntity.t) (dmg : Q) (r : Refs.t) :
  (EnemyEntity.hp e <= 0)%Q -> (0 <= dmg)%Q ->
  snd (damageEnemy host e dmg r)
  = [AddMoney (EnemyConfig.bounty (ENEMY_STATS (EnemyEntity.type e)))].
Proof.
  intros Hhp Hdmg. unfold damageEnemy.
  cbn [enemy_with_hp EnemyEntity.hp EnemyEntity.type EnemyEntity.x EnemyEntity.y].
  replace (EnemyEntity.hp e -! dmg <=! 0) with true; [reflexivity|].
  symmetry. apply Qleb_le. unfold qsub. rewrite Qred_correct.
  apply Qle_minus_iff. apply Qle_minus_iff in Hhp.
  setoid_replace (0 + - (EnemyEntity.hp e - dmg))%Q
    with ((0 + - EnemyEntity.hp e) + dmg)%Q by ring.
  rewrite <- (Qplus_0_l 0) at 1. now apply Qplus_le_compat.
Qed.

(** C3.  Every damage application that leaves an enemy at or below 0 hit
    points credits its bounty, also when the enemy was already dead: two
    blasters placed on either side of the first path segment, in the first
    wave of the offline generator, hit the first grunt (bounty 10) with
    their fourth volley in the same frame and money goes from 20 to 40.
    The same on a hand-made state: two shots on a grunt of 10 hit points
    credit 20. *)
Theorem bounty_credited_twice_for_one_enemy :
  let w := frames testHost 121 (run testHost initialWorld twoBlasters) in
  moneyIn w = 20
  /\ map EnemyEntity.hp (drawnEnemies w) = [qz 6; qz 96]
  /\ List.length (Refs.projectilesRef (World.refs w)) = 2%nat
  /\ moneyIn (frame testHost w) = 40
  /\ map EnemyEntity.hp (drawnEnemies (frame testHost w)) = [-24 # 1; qz 96]
  /\ EnemyConfig.bounty (ENEMY_STATS grunt) = 10
  /\ moneyIn twoShotsOneGrunt = 0
  /\ List.length (drawnEnemies twoShotsOneGrunt) = 1%nat
  /\ moneyIn (frame testHost twoShotsOneGrunt) = 20.
Proof.
  vm_compute. repeat split.
Qed.

(** ** Dead enemies that stay *)



Lemma wave_complete_signalled_once_witness :
  waveCompleteSignals testHost emptyBoard = 1%nat
  /\ (signalsDuring testHost emptyBoard [Frame; canvasAt 100 60; Frame] <= 1)%nat.
Proof.
  assert (H := wave_complete_signalled_once testHost emptyBoard
                 [Frame; canvasAt 100 60; Frame]).
  destruct H as (H1 & _ & H3 & _).
  - unfold waveLoaded. vm_compute. discriminate.
  - reflexivity.
  - reflexivity.
  - reflexivity.
  - split; [apply H1; split; reflexivity|exact H3].
Defined.

(** A whole wave of the spawn scenario: three grunts walk the path and
    leak, and in 1700 frames wave-complete is signalled once. *)
Example scenario_wave_completes_once :
  signalsDuring testHost scenarioStart (repeat Frame 1700) = 1%nat
  /\ livesIn (run testHost scenarioStart (repeat Frame 1700)) = 17
  /\ isPlayingIn (run testHost scenarioStart (repeat Frame 1700)) = false.
Proof. vm_compute. repeat split. Qed.

(** The placement scenario of the build menu: a blaster costs 50; with 50
    credits the first click leaves 0 and the second is refused for lack of
    funds. *)
Example placement_with_exact_funds :
  let w := World.mk (App.mk (GameState.mk 50 20 0 false false 1) (Some BLASTER)
                       None false "" "") initialRefs in
  let w1 := click testHost (Some (DOMRect.mk 0 0)) (MouseEvent.mk (qz 100) (qz 60)) w in
  moneyIn w1 = 0
  /\ map (fun t => (TowerEntity.x t, TowerEntity.y t, TowerEntity.cooldownTimer t))
       (Refs.towersRef (World.refs w1)) = [(qz 100, qz 60, 0)]
  /\ placementVerdict testHost (App.gameState (World.app w1)) (Some BLASTER)
       (Some (DOMRect.mk 0 0)) (MouseEvent.mk (qz 100) (qz 140)) (World.refs w1)
     = Ignored InsufficientFunds
  /\ placementVerdict testHost (App.gameState (World.app w)) (Some BLASTER)
       (Some (DOMRect.mk 0 0)) (MouseEvent.mk (qz 100) (qz 100)) (World.refs w)
     = Ignored CellOnPath.
Proof. vm_compute. repeat split. Qed.

(** * Further properties of the code *)

(** ** The offline generator in closed form *)









(** ** The credential probe *)








Section RemoteWave.

Variable generateContent : string -> Z -> Q -> Promise (option string).
Variable JSON_parse : string -> Promise WaveComposition.t.


End RemoteWave.

(** ** The advisory line *)

Section Advice.

Variable adviceContent :
  string -> Z -> Z -> Z -> list (TowerType * Z) -> Promise (option string).

(** X4.  Offline, the advice for a wave number [wave >= 0] is one of the
    five canned lines, chosen by [wave mod 5]: it repeats every five waves
    and does not depend on money, lives or towers.  For a negative wave
    number that is not a multiple of five the index is negative and the
    value is undefined. *)
Theorem advice_offline_rotates
  (env : Env.t) (wave money lives : Z) (towers : list TowerEntity.t) :
  getApiKey env = None ->
  (0 <= wave ->
   exists q,
     In q fallbackQuotes
     /\ nth_error fallbackQuotes (Z.to_nat (wave mod 5)) = Some q
     /\ getTacticalAdvice adviceContent env wave money lives towers
        = Resolved (Some q)
     /\ forall money' lives' towers',
          getTacticalAdvice adviceContent env (wave + 5) money' lives' towers'
          = Resolved (Some q))
  /\ (wave < 0 -> Z.rem wave 5 <> 0 ->
      getTacticalAdvice adviceContent env wave money lives towers
      = Resolved None).
Proof.
  intro Hkey. unfold getTacticalAdvice, getClient. rewrite Hkey.
  change (Z.of_nat (List.length fallbackQuotes)) with 5.
  split.
  - intro Hw.
    assert (Hr : Z.rem wave 5 = wave mod 5) by (apply Z.rem_mod_nonneg; lia).
    assert (Hr5 : Z.rem (wave + 5) 5 = wave mod 5).
    { rewrite Z.rem_mod_nonneg by lia.
      replace (wave + 5) with (wave + 1 * 5) by lia. apply Z_mod_plus_full. }
    rewrite Hr, Hr5.
    pose proof (Z.mod_pos_bound wave 5 ltac:(lia)) as Hb.
    replace (wave mod 5 <? 0) with false by (symmetry; apply Z.ltb_ge; lia).
    destruct (nth_error fallbackQuotes (Z.to_nat (wave mod 5))) as [q|] eqn:Hq.
    + exists q. split; [now apply nth_error_In in Hq|]. repeat split.
    + exfalso. apply nth_error_None in Hq.
      change (List.length fallbackQuotes) with 5%nat in Hq. lia.
  - intros Hw Hrem.
    pose proof (Z.rem_bound_pos_neg wave 5 ltac:(lia) ltac:(lia)) as Hb.
    replace (Z.rem wave 5 <? 0) with true by (symmetry; apply Z.ltb_lt; lia).
    reflexivity.
Qed.


End Advice.

Lemma advice_offline_rotates_witness :
  getTacticalAdvice (fun _ _ _ _ _ => Rejected "offline"%string)
    (Env.mk None) 7 120 20 []
  = Resolved (Some "Pattern Analysis: Enemy density increasing."%string).
Proof.
  destruct (advice_offline_rotates (fun _ _ _ _ _ => Rejected "offline"%string)
              (Env.mk None) 7 120 20 [] eq_refl) as [H _].
  destruct (H ltac:(lia)) as (q & _ & Hq & Ha & _).
  rewrite Ha. cbn in Hq. now injection Hq as <-.
Defined.


(** The summary that goes into the prompt. *)

Lemma TowerType_eqb_eq (a b : TowerType) : TowerType_eqb a b = true <-> a = b.
Proof. destruct a, b; cbn; split; congruence. Qed.

Lemma TowerType_eqb_refl (a : TowerType) : TowerType_eqb a a = true.
Proof. now destruct a. Qed.

Lemma summaryOf_bump (ty k : TowerType) (acc : list (TowerType * Z)) :
  summaryOf ty (bump k acc)
  = if TowerType_eqb k ty
    then Some (match summaryOf ty acc with Some n => n + 1 | None => 1 end)
    else summaryOf ty acc.
Proof.
  induction acc as [|[k' n] rest IH].
  - cbn. destruct (TowerType_eqb k ty); reflexivity.
  - cbn [bump summaryOf].
    destruct (TowerType_eqb k' k) eqn:E.
    + apply TowerType_eqb_eq in E. subst k'. cbn [summaryOf].
      destruct (TowerType_eqb k ty); reflexivity.
    + cbn [summaryOf]. rewrite IH.
      destruct (TowerType_eqb k' ty) eqn:E'; [|reflexivity].
      apply TowerType_eqb_eq in E'. subst k'.
      destruct k, ty; cbn in E |- *; try discriminate; reflexivity.
Qed.

Lemma bump_keys (k : TowerType) (acc : list (TowerType * Z)) :
  NoDup (map fst acc) ->
  NoDup (map fst (bump k acc))
  /\ forall ty, In ty (map fst (bump k acc)) <-> ty = k \/ In ty (map fst acc).
Proof.
  induction acc as [|[k' n] rest IH]; intro Hnd.
  - cbn. split; [repeat constructor; intros []|]. intro ty. intuition.
  - cbn [bump]. cbn [map fst] in Hnd. inversion Hnd as [|? ? Hni Hnd']; subst.
    destruct (TowerType_eqb k' k) eqn:E.
    + apply TowerType_eqb_eq in E. subst k'. cbn [map fst].
      split; [exact Hnd|]. intro ty. cbn [In]. intuition.
    + destruct (IH Hnd') as [IH1 IH2]. cbn [map fst]. split.
      * constructor; [|exact IH1]. intro Hin. apply IH2 in Hin.
        destruct Hin as [->|Hin]; [|contradiction].
        rewrite TowerType_eqb_refl in E. discriminate.
      * intro ty. cbn [In]. rewrite IH2. intuition.
Qed.

Lemma towerSummary_fold (ty : TowerType) (towers : list TowerEntity.t)
  (acc : list (TowerType * Z)) :
  summaryOf ty (fold_left (fun a t => bump (TowerEntity.type t) a) towers acc)
  = match List.length (filter (fun t => TowerType_eqb (TowerEntity.type t) ty) towers),
          summaryOf ty acc with
    | O, s => s
    | S n, Some m => Some (m + Z.of_nat (S n))
    | S n, None => Some (Z.of_nat (S n))
    end.
Proof.
  revert acc. induction towers as [|t rest IH]; intro acc.
  - cbn. destruct (summaryOf ty acc); reflexivity.
  - cbn [fold_left filter]. rewrite IH, summaryOf_bump.
    destruct (TowerType_eqb (TowerEntity.type t) ty).
    + cbn [List.length].
      destruct (List.length (filter (fun t0 => TowerType_eqb (TowerEntity.type t0) ty) rest));
        destruct (summaryOf ty acc); f_equal; lia.
    + reflexivity.
Qed.

Lemma towerSummary_keys_fold (towers : list TowerEntity.t)
  (acc : list (TowerType * Z)) :
  NoDup (map fst acc) ->
  NoDup (map fst (fold_left (fun a t => bump (TowerEntity.type t) a) towers acc)).
Proof.
  revert acc. induction towers as [|t rest IH]; intros acc H; [exact H|].
  cbn [fold_left]. apply IH. now apply bump_keys.
Qed.

(** X6.  The tower summary sent with the advice request has one entry per
    tower type that occurs, holding the number of towers of that type; a
    type without towers has no entry. *)
Theorem towerSummary_counts (towers : list TowerEntity.t) (ty : TowerType) :
  summaryOf ty (towerSummary towers)
  = match List.length (filter (fun t => TowerType_eqb (TowerEntity.type t) ty) towers) with
    | O => None
    | S n => Some (Z.of_nat (S n))
    end
  /\ NoDup (map fst (towerSummary towers)).
Proof.
  unfold towerSummary. split.
  - rewrite towerSummary_fold. cbn [summaryOf].
    destruct (List.length _); reflexivity.
  - apply towerSummary_keys_fold. constructor.
Qed.

(** ** Snapping to the grid *)

Lemma snapToGrid_value (m : Q) :
  (snapToGrid m == inject_Z (40 * Qfloor (m / 40) + 20))%Q.
Proof.
  unfold snapToGrid, qadd, qmul, qdiv, qz, GRID_SIZE.
  rewrite !Qred_correct.
  rewrite inject_Z_plus, inject_Z_mult.
  change (inject_Z 40) with 40%Q. change (inject_Z 2) with 2%Q.
  change (inject_Z 20) with 20%Q. field.
Qed.

Lemma Qfloor_cell_centre (k : Z) : Qfloor (inject_Z (40 * k + 20) / 40) = k.
Proof.
  transitivity (Qfloor ((40 * k + 20) # 40)).
  - apply Qfloor_comp. rewrite (Qmake_Qdiv (40 * k + 20) 40). reflexivity.
  - unfold Qfloor. rewrite Z.mul_comm, Z.div_add_l by lia.
    change (20 / 40) with 0. lia.
Qed.

(** X7.  Snapping a coordinate gives the centre of the 40-pixel grid cell
    that contains it: the result is [40 k + 20] for the integer
    [k = floor (m / 40)], the coordinate lies in [[c - 20, c + 20)], and
    snapping a centre again changes nothing. *)
Theorem snapToGrid_cell_centre (m : Q) :
  (snapToGrid m == inject_Z (40 * Qfloor (m / 40) + 20))%Q
  /\ (snapToGrid m - 20 <= m)%Q
  /\ (m < snapToGrid m + 20)%Q
  /\ snapToGrid (snapToGrid m) = snapToGrid m.
Proof.
  pose proof (snapToGrid_value m) as Hv.
  split; [exact Hv|]. split; [|split].
  - rewrite Hv, inject_Z_plus, inject_Z_mult.
    pose proof (Qfloor_le (m / 40)) as Hf.
    apply (Qmult_le_compat_r _ _ 40) in Hf; [|discriminate].
    setoid_replace (m / 40 * 40)%Q with m in Hf by field.
    setoid_replace (inject_Z 40 * inject_Z (Qfloor (m / 40)) + inject_Z 20 - 20)%Q
      with (inject_Z (Qfloor (m / 40)) * 40)%Q by ring.
    exact Hf.
  - rewrite Hv, inject_Z_plus, inject_Z_mult.
    pose proof (Qlt_floor (m / 40)) as Hf.
    apply (Qmult_lt_compat_r _ _ 40) in Hf; [|reflexivity].
    setoid_replace (m / 40 * 40)%Q with m in Hf by field.
    rewrite inject_Z_plus in Hf.
    setoid_replace (inject_Z 40 * inject_Z (Qfloor (m / 40)) + inject_Z 20 + 20)%Q
      with ((inject_Z (Qfloor (m / 40)) + inject_Z 1) * 40)%Q by ring.
    exact Hf.
  - unfold snapToGrid at 1 3. unfold qadd. apply Qred_complete.
    apply Qplus_comp; [|reflexivity].
    unfold qmul. rewrite !Qred_correct.
    apply Qmult_comp; [|reflexivity].
    unfold qz, qdiv, GRID_SIZE.
    rewrite (Qfloor_comp (Qred (snapToGrid m / inject_Z 40))
               (inject_Z (40 * Qfloor (m / 40) + 20) / 40)).
    + rewrite Qfloor_cell_centre.
      now rewrite (Qfloor_comp (Qred (m / inject_Z 40)) (m / 40) (Qred_correct _)).
    + rewrite Qred_correct, Hv. reflexivity.
Qed.

(** ** What a projectile impact may touch *)

Section Stage.

Variable host : Host.t.

Lemma sameStage_refl (r : Refs.t) : sameStage r r.
Proof. repeat split. Qed.

Lemma sameStage_trans (a b c : Refs.t) :
  sameStage a b -> sameStage b c -> sameStage a c.
Proof.
  unfold sameStage. intros (A1 & A2 & A3 & A4 & A5 & A6) (B1 & B2 & B3 & B4 & B5 & B6).
  repeat split; congruence.
Qed.

Lemma sameStage_set_enemies (es : list EnemyEntity.t) (r : Refs.t) :
  sameStage r (set_enemies es r).
Proof. repeat split. Qed.

Lemma createParticles_stage (x y : Q) (color : string) (count : nat) (r : Refs.t) :
  sameStage r (createParticles host x y color count r).
Proof.
  destruct (createParticles_refs host x y color count r)
    as (_ & Ht & Hp & Hf & Hi & Hs & Hq & _).
  repeat split; assumption.
Qed.

Lemma damageEnemy_stage (e : EnemyEntity.t) (dmg : Q) (r : Refs.t) :
  sameStage r (snd (fst (damageEnemy host e dmg r)))
  /\ Refs.enemiesRef (snd (fst (damageEnemy host e dmg r))) = Refs.enemiesRef r.
Proof.
  unfold damageEnemy.
  match goal with |- context [if ?b then _ else _] => destruct b end;
    cbn [fst snd].
  - split; [apply createParticles_stage|apply createParticles_enemies].
  - split; [apply sameStage_refl|reflexivity].
Qed.

Lemma splash_stage (tx ty dmg : Q) (es : list EnemyEntity.t) (r : Refs.t) :
  sameStage r (snd (fst (splash host tx ty dmg es r))).
Proof.
  revert r. induction es as [|e rest IH]; intro r; [apply sameStage_refl|].
  cbn [splash].
  destruct (dist host tx ty (EnemyEntity.x e) (EnemyEntity.y e) <! qz 60).
  - pose proof (proj1 (damageEnemy_stage e dmg r)) as H1.
    destruct (damageEnemy host e dmg r) as [[e' r1] c1]. cbn [fst snd] in H1.
    specialize (IH r1).
    destruct (splash host tx ty dmg rest r1) as [[rest' r2] c2].
    cbn [fst snd] in *. eapply sameStage_trans; eassumption.
  - specialize (IH r).
    destruct (splash host tx ty dmg rest r) as [[rest' r2] c2].
    cbn [fst snd] in *. exact IH.
Qed.

Lemma updateProjectile_stage (p : ProjectileEntity.t) (r : Refs.t) :
  sameStage r (snd (fst (updateProjectile host p r))).
Proof.
  unfold updateProjectile.
  destruct (find (ProjectileEntity.targetId p) (Refs.enemiesRef r))
    as [target|]; [|apply sameStage_refl].
  match goal with |- context [if ?b then _ else _] => destruct b end;
    [|apply sameStage_refl].
  destruct (ProjectileEntity.isAoE p).
  - pose proof (splash_stage (EnemyEntity.x target) (EnemyEntity.y target)
                  (ProjectileEntity.damage p) (Refs.enemiesRef r) r) as H.
    destruct (splash host (EnemyEntity.x target) (EnemyEntity.y target)
                (ProjectileEntity.damage p) (Refs.enemiesRef r) r)
      as [[es r1] c]. cbn [fst snd] in *.
    eapply sameStage_trans; [exact H|].
    eapply sameStage_trans; [apply sameStage_set_enemies|apply createParticles_stage].
  - pose proof (proj1 (damageEnemy_stage target (ProjectileEntity.damage p) r)) as H.
    destruct (damageEnemy host target (ProjectileEntity.damage p) r)
      as [[t1 r1] c]. cbn [fst snd] in *.
    eapply sameStage_trans; [exact H|].
    eapply sameStage_trans; [apply sameStage_set_enemies|apply createParticles_stage].
Qed.

Lemma updateProjectiles_stage (ps : list ProjectileEntity.t) (r : Refs.t) :
  sameStage r (snd (fst (updateProjectiles host ps r))).
Proof.
  induction ps as [|p rest IH]; [apply sameStage_refl|].
  cbn [updateProjectiles].
  destruct (updateProjectiles host rest r) as [[rest' r1] c1].
  pose proof (updateProjectile_stage p r1) as H.
  destruct (updateProjectile host p r1) as [[kept r2] c2].
  cbn [fst snd] in *. eapply sameStage_trans; eassumption.
Qed.

(** *** Towers *)

Lemma fireTower_site (tower : TowerEntity.t) (r : Refs.t) :
  towerSite (fst (fireTower host tower r)) = towerSite tower
  /\ Refs.towersRef (snd (fireTower host tower r)) = Refs.towersRef r.
Proof.
  unfold fireTower. cbn zeta.
  destruct (0 <? TowerEntity.cooldownTimer tower);
    match goal with |- context [TowerEntity.cooldownTimer ?t <=? 0] =>
      destruct (TowerEntity.cooldownTimer t <=? 0) end;
    try (split; reflexivity);
    match goal with |- context [findTarget host ?t ?es None ?m] =>
      destruct (findTarget host t es None m) end; split; reflexivity.
Qed.

Lemma fireTowers_sites (ts : list TowerEntity.t) (r : Refs.t) :
  map towerSite (fst (fireTowers host ts r)) = map towerSite ts
  /\ Refs.towersRef (snd (fireTowers host ts r)) = Refs.towersRef r.
Proof.
  revert r. induction ts as [|t rest IH]; intro r; [split; reflexivity|].
  cbn [fireTowers].
  pose proof (fireTower_site t r) as [H1 H1'].
  destruct (fireTower host t r) as [t' r1]. cbn [fst snd] in *.
  destruct (IH r1) as [H2 H2'].
  destruct (fireTowers host rest r1) as [rest' r2]. cbn [fst snd map] in *.
  split; congruence.
Qed.

Lemma towersFire_sites (r : Refs.t) :
  map towerSite (Refs.towersRef (towersFire host r))
  = map towerSite (Refs.towersRef r).
Proof.
  unfold towersFire.
  pose proof (fireTowers_sites (Refs.towersRef r) r) as [H _].
  destruct (fireTowers host (Refs.towersRef r) r) as [ts r']. exact H.
Qed.

(** A step keeps every tower, in order, with everything but its timer. *)
Lemma update_tower_sites (g : GameState.t) (wc : option WaveComposition.t)
  (r : Refs.t) :
  map towerSite (Refs.towersRef (fst (update host g wc r)))
  = map towerSite (Refs.towersRef r).
Proof.
  unfold update.
  destruct (GameState.isGameOver g || negb (GameState.isPlaying g));
    [reflexivity|].
  pose proof (spawning_others host wc r) as (Ht & _).
  destruct (spawning host wc r) as [r1 c1]. cbn [fst] in Ht.
  destruct (updateEnemies host (Refs.enemiesRef r1)) as [es c2].
  set (r2 := set_enemies (removeDead es) r1).
  pose proof (towersFire_sites r2) as H3.
  set (r3 := towersFire host r2) in *.
  pose proof (updateProjectiles_stage (Refs.projectilesRef r3) r3) as (H4 & _).
  destruct (updateProjectiles host (Refs.projectilesRef r3) r3)
    as [[ps r4] c4]. cbn [fst snd] in *.
  change (map towerSite (Refs.towersRef r4) = map towerSite (Refs.towersRef r)).
  rewrite H4, H3. change (Refs.towersRef r2) with (Refs.towersRef r1).
  now rewrite Ht.
Qed.

End Stage.

(** ** Towers stay where they were built *)

Section Towers.

Variable host : Host.t.

Lemma towerSite_cell (a a' b b' : TowerEntity.t) :
  towerSite a = towerSite a' -> towerSite b = towerSite b' ->
  sameCell a b = sameCell a' b'.
Proof.
  unfold towerSite, sameCell. intros Ha Hb.
  injection Ha as _ _ -> -> _ _ _ _. injection Hb as _ _ -> -> _ _ _ _.
  reflexivity.
Qed.

Lemma sameCell_row (t t' : TowerEntity.t) (us us' : list TowerEntity.t) :
  towerSite t = towerSite t' -> map towerSite us = map towerSite us' ->
  Forall (fun u => sameCell t u = false) us ->
  Forall (fun u => sameCell t' u = false) us'.
Proof.
  intro Ht. revert us'. induction us as [|u us IH]; intros [|u' us'] Hm;
    try discriminate; [constructor|].
  cbn [map] in Hm.
  assert (Hu : towerSite u = towerSite u') by congruence.
  assert (Hus : map towerSite us = map towerSite us') by congruence.
  intro Hf. inversion Hf as [|? ? Hc Hr]; subst.
  constructor; [|now apply IH].
  now rewrite <- (towerSite_cell t t' u u' Ht Hu).
Qed.

Lemma distinctCells_sites (l l' : list TowerEntity.t) :
  map towerSite l = map towerSite l' -> distinctCells l -> distinctCells l'.
Proof.
  revert l'. induction l as [|t rest IH]; intros [|t' rest'] Hm;
    try discriminate; [trivial|].
  cbn [map] in Hm.
  assert (Ht : towerSite t = towerSite t') by congruence.
  assert (Hrest : map towerSite rest = map towerSite rest') by congruence.
  cbn [distinctCells]. intros [Hall Hd]. split; [|now apply IH].
  now apply (sameCell_row t t' rest rest').
Qed.

Lemma offPath_sites (l l' : list TowerEntity.t) :
  map towerSite l = map towerSite l' -> Forall offPath l -> Forall offPath l'.
Proof.
  revert l'. induction l as [|t rest IH]; intros [|t' rest'] Hm;
    try discriminate; [constructor|].
  cbn [map] in Hm.
  assert (Ht : towerSite t = towerSite t') by congruence.
  assert (Hrest : map towerSite rest = map towerSite rest') by congruence.
  intro Hf. inversion Hf as [|? ? Ho Hr]; subst.
  constructor; [|now apply IH].
  unfold offPath, towerSite in *. injection Ht as _ _ Hx Hy _ _ _ _.
  now rewrite <- Hx, <- Hy.
Qed.

Lemma distinctCells_snoc (ts : list TowerEntity.t) (t : TowerEntity.t) :
  distinctCells ts -> Forall (fun u => sameCell u t = false) ts ->
  distinctCells (ts ++ [t]).
Proof.
  induction ts as [|u us IH]; intros Hd Hf.
  - cbn. split; [constructor|exact I].
  - cbn [app distinctCells] in *. destruct Hd as [Hall Hd].
    inversion Hf as [|? ? Hu Hus]; subst.
    split; [|now apply IH].
    apply Forall_app. split; [exact Hall|]. constructor; [exact Hu|constructor].
Qed.

Lemma isOccupied_false (ts : list TowerEntity.t) (t : TowerEntity.t) :
  isOccupied ts (TowerEntity.x t) (TowerEntity.y t) = false ->
  Forall (fun u => sameCell u t = false) ts.
Proof.
  unfold isOccupied. induction ts as [|u us IH]; intro H; [constructor|].
  cbn [existsb] in H. apply orb_false_iff in H. destruct H as [Hu Hus].
  constructor; [exact Hu|now apply IH].
Qed.

(** A click keeps the towers, or appends one on a free cell off the path. *)
Lemma click_towers (rect : option DOMRect.t) (e : MouseEvent.t) (w : World.t) :
  towersIn (click host rect e w) = towersIn w
  \/ exists t,
       towersIn (click host rect e w) = towersIn w ++ [t]
       /\ isOccupied (towersIn w) (TowerEntity.x t) (TowerEntity.y t) = false
       /\ onPath (TowerEntity.x t) (TowerEntity.y t) = false.
Proof.
  unfold towersIn, click, handleCanvasClick, placementVerdict.
  destruct (App.selectedTower (World.app w)) as [sel|]; [|now left].
  destruct (GameState.isGameOver (App.gameState (World.app w))); [now left|].
  destruct rect as [rect|]; [|now left]. cbn zeta.
  destruct (GameState.money (App.gameState (World.app w))
            <? TowerConfig.cost (TOWER_STATS sel)); [now left|].
  match goal with |- context [isOccupied ?ts ?gx ?gy] =>
    destruct (isOccupied ts gx gy) eqn:Ho; [now left|];
    destruct (onPath gx gy) eqn:Hp; [now left|] end.
  right. eexists. cbn [World.refs]. rewrite createParticles_towers.
  cbn [Refs.towersRef set_randomCalls set_towers].
  cbn [TowerEntity.x TowerEntity.y]. repeat split; assumption.
Qed.

Lemma frame_tower_sites (w : World.t) :
  map towerSite (towersIn (frame host w)) = map towerSite (towersIn w).
Proof. unfold towersIn. rewrite frame_refs. apply update_tower_sites. Qed.

Lemma pressStart_towers (wd : Promise WaveComposition.t) (w : World.t) :
  towersIn (pressStart wd w) = towersIn w.
Proof.
  unfold towersIn, pressStart.
  destruct (GameState.isPlaying (App.gameState (World.app w))
            || App.isWaveGenerating (World.app w)
            || GameState.isGameOver (App.gameState (World.app w)));
    [reflexivity|].
  destruct wd as [wd|err]; [|reflexivity].
  cbn [World.refs]. unfold onWaveCompositionChange.
  destruct (App.waveComposition (startNextWave (Resolved wd) (World.app w)));
    reflexivity.
Qed.

Lemma selectTower_towers (t : TowerType) (w : World.t) :
  towersIn (selectTower t w) = towersIn w.
Proof.
  unfold towersIn, selectTower.
  destruct (TowerConfig.cost (TOWER_STATS t) <=? _); reflexivity.
Qed.

Lemma exec_tower_sites (w : World.t) (c : Command) :
  exists added,
    map towerSite (towersIn (exec host w c)) = map towerSite (towersIn w) ++ added
    /\ (List.length added <= if isClick c then 1 else 0)%nat.
Proof.
  destruct c as [|rect e|t|wd]; cbn [exec isClick].
  - exists []. rewrite app_nil_r. split; [apply frame_tower_sites|cbn; lia].
  - destruct (click_towers rect e w) as [->|(t & -> & _)].
    + exists []. rewrite app_nil_r. split; [reflexivity|cbn; lia].
    + exists [towerSite t]. rewrite map_app. split; [reflexivity|cbn; lia].
  - exists []. rewrite app_nil_r, selectTower_towers. split; [reflexivity|cbn; lia].
  - exists []. rewrite app_nil_r, pressStart_towers. split; [reflexivity|cbn; lia].
Qed.

(** X8.  Towers are never removed, moved or altered: over any sequence of
    frames, clicks, selections and wave starts the towers that were there
    stay in place and in order, with the same id, type, cell, level, range,
    damage and fire rate (only their cooldown timer changes), and each
    click adds at most one tower at the end. *)
Theorem towers_are_permanent (cs : list Command) (w : World.t) :
  exists added,
    map towerSite (towersIn (run host w cs)) = map towerSite (towersIn w) ++ added
    /\ (List.length added <= List.length (filter isClick cs))%nat.
Proof.
  revert w. induction cs as [|c cs IH]; intro w.
  - exists []. rewrite app_nil_r. split; [reflexivity|cbn; lia].
  - cbn [run fold_left].
    destruct (exec_tower_sites w c) as (a1 & H1 & L1).
    destruct (IH (exec host w c)) as (a2 & H2 & L2).
    exists (a1 ++ a2). unfold run in H2. rewrite H2, H1, app_assoc.
    split; [reflexivity|]. rewrite length_app. cbn [filter].
    destruct (isClick c); cbn [List.length]; lia.
Qed.

Lemma exec_tower_cells (w : World.t) (c : Command) :
  distinctCells (towersIn w) /\ Forall offPath (towersIn w) ->
  distinctCells (towersIn (exec host w c))
  /\ Forall offPath (towersIn (exec host w c)).
Proof.
  intros [Hd Ho]. destruct c as [|rect e|t|wd]; cbn [exec].
  - pose proof (frame_tower_sites w) as H. symmetry in H.
    split; [eapply distinctCells_sites|eapply offPath_sites]; eassumption.
  - destruct (click_towers rect e w) as [->|(t & -> & Hocc & Hpath)];
      [now split|].
    split.
    + apply distinctCells_snoc; [exact Hd|now apply isOccupied_false].
    + apply Forall_app. split; [exact Ho|]. constructor; [exact Hpath|constructor].
  - rewrite selectTower_towers. now split.
  - rewrite pressStart_towers. now split.
Qed.

(** X9.  No two towers ever share a grid cell and no tower ever stands on
    the path (inside the inflated bounding box of a segment): both hold
    for the towers of every state reached from a state in which they
    hold, in particular from the empty board. *)
Theorem towers_on_distinct_cells_off_path (cs : list Command) (w : World.t) :
  distinctCells (towersIn w) ->
  Forall offPath (towersIn w) ->
  distinctCells (towersIn (run host w cs))
  /\ Forall offPath (towersIn (run host w cs)).
Proof.
  revert w. induction cs as [|c cs IH]; intros w Hd Ho; [now split|].
  cbn [run fold_left].
  destruct (exec_tower_cells w c (conj Hd Ho)) as [Hd' Ho'].
  now apply IH.
Qed.

End Towers.

Lemma towers_on_distinct_cells_off_path_witness :
  distinctCells (towersIn (run testHost initialWorld twoBlasters))
  /\ Forall offPath (towersIn (run testHost initialWorld twoBlasters)).
Proof.
  apply (towers_on_distinct_cells_off_path testHost twoBlasters initialWorld).
  - exact I.
  - constructor.
Defined.

(** ** Target selection *)

Section Targeting.

Variable host : Host.t.

Lemma findTarget_cases (tower : TowerEntity.t) (es : list EnemyEntity.t)
  (target : option EnemyEntity.t) (maxDist : Q) :
  (findTarget host tower es target maxDist = target
   /\ forall e, In e es -> inRange host tower e = true ->
                (EnemyEntity.distanceTraveled e <= maxDist)%Q)
  \/ exists t,
       findTarget host tower es target maxDist = Some t
       /\ In t es /\ inRange host tower t = true
       /\ (maxDist < EnemyEntity.distanceTraveled t)%Q
       /\ forall e, In e es -> inRange host tower e = true ->
                    (EnemyEntity.distanceTraveled e
                     <= EnemyEntity.distanceTraveled t)%Q.
Proof.
  revert target maxDist. induction es as [|e rest IH]; intros target maxDist.
  - left. split; [reflexivity|]. intros e [].
  - cbn [findTarget]. fold (inRange host tower e).
    destruct (inRange host tower e) eqn:Hr; cbn [andb].
    + destruct (maxDist <! EnemyEntity.distanceTraveled e) eqn:Hlt.
      * apply Qltb_lt in Hlt. right.
        destruct (IH (Some e) (EnemyEntity.distanceTraveled e))
          as [[Hres Hall]|(t & Hres & Hin & Htr & Hgt & Hall)].
        -- exists e. rewrite Hres. split; [reflexivity|].
           split; [now left|]. split; [exact Hr|]. split; [exact Hlt|].
           intros e' [<-|Hin] Hr'; [apply Qle_refl|now apply Hall].
        -- exists t. split; [exact Hres|]. split; [now right|].
           split; [exact Htr|]. split; [eapply Qlt_trans; eassumption|].
           intros e' [<-|Hin'] Hr'; [now apply Qlt_le_weak|now apply Hall].
      * apply Qltb_ge in Hlt.
        destruct (IH target maxDist)
          as [[Hres Hall]|(t & Hres & Hin & Htr & Hgt & Hall)].
        -- left. split; [exact Hres|].
           intros e' [<-|Hin] Hr'; [exact Hlt|now apply Hall].
        -- right. exists t. split; [exact Hres|]. split; [now right|].
           split; [exact Htr|]. split; [exact Hgt|].
           intros e' [<-|Hin'] Hr'; [|now apply Hall].
           apply Qlt_le_weak. eapply Qle_lt_trans; eassumption.
    + destruct (IH target maxDist)
        as [[Hres Hall]|(t & Hres & Hin & Htr & Hgt & Hall)].
      * left. split; [exact Hres|].
        intros e' [<-|Hin] Hr'; [congruence|now apply Hall].
      * right. exists t. split; [exact Hres|]. split; [now right|].
        split; [exact Htr|]. split; [exact Hgt|].
        intros e' [<-|Hin'] Hr'; [congruence|now apply Hall].
Qed.

(** X10.  A tower aims at an enemy of the list that is within its range
    and has travelled furthest: no enemy in range has a greater
    [distanceTraveled].  It finds no target exactly when no enemy in range
    has travelled more than -1 (so, for enemies with a distance of at
    least 0, when none is in range). *)
Theorem findTarget_furthest_in_range
  (tower : TowerEntity.t) (es : list EnemyEntity.t) :
  match findTarget host tower es None (-1 # 1) with
  | Some t =>
      In t es /\ inRange host tower t = true
      /\ (-1 # 1 < EnemyEntity.distanceTraveled t)%Q
      /\ forall e, In e es -> inRange host tower e = true ->
                   (EnemyEntity.distanceTraveled e
                    <= EnemyEntity.distanceTraveled t)%Q
  | None =>
      forall e, In e es -> inRange host tower e = true ->
                (EnemyEntity.distanceTraveled e <= -1 # 1)%Q
  end.
Proof.
  destruct (findTarget_cases tower es None (-1 # 1))
    as [[-> Hall]|(t & -> & Hin & Hr & Hgt & Hall)].
  - exact Hall.
  - repeat split; assumption.
Qed.

(** *** Fire rate *)




(** X12.  After every step that runs, every projectile left in the list is
    aimed at an enemy that is in the enemy list: a projectile whose target
    is gone does not survive the step. *)
Theorem no_dangling_projectile (w : World.t) :
  running (App.gameState (World.app w)) = true ->
  Forall (aimedAt (drawnEnemies (frame host w)))
    (Refs.projectilesRef (World.refs (frame host w))).
Proof.
  intro Hrun. unfold drawnEnemies. rewrite frame_refs.
  apply (update_board host _ _ _ Hrun).
Qed.

End Targeting.

Lemma no_dangling_projectile_witness :
  Forall (aimedAt (drawnEnemies (frame testHost corpseInList)))
    (Refs.projectilesRef (World.refs (frame testHost corpseInList))).
Proof.
  apply (no_dangling_projectile testHost corpseInList). reflexivity.
Defined.

(** ** Game over *)

Section GameOver.

Variable host : Host.t.

Lemma applyCall_over (a : App.t) (c : Call) :
  overIffNoLives (App.gameState a) -> overIffNoLives (App.gameState (applyCall a c)).
Proof.
  unfold overIffNoLives. intros [Hiff Hstop].
  destruct c; cbn; try (split; assumption).
  - destruct (GameState.lives (App.gameState a) - 1 <=? 0) eqn:E; cbn.
    + apply Z.leb_le in E. split; [split; [intros _; exact E|reflexivity]|reflexivity].
    + apply Z.leb_gt in E. split; [|exact Hstop].
      split; [intro H; apply Hiff in H; lia|intro H; lia].
  - split; [exact Hiff|reflexivity].
Qed.

Lemma applyCalls_over (cs : list Call) (a : App.t) :
  overIffNoLives (App.gameState a) -> overIffNoLives (App.gameState (applyCalls a cs)).
Proof.
  revert a. induction cs as [|c cs IH]; intros a H; [exact H|].
  cbn [applyCalls fold_left]. apply IH. now apply applyCall_over.
Qed.

Lemma exec_over (w : World.t) (c : Command) :
  overIffNoLives (App.gameState (World.app w)) ->
  overIffNoLives (App.gameState (World.app (exec host w c))).
Proof.
  intro H. destruct c as [|rect e|t|wd]; cbn [exec].
  - unfold frame.
    destruct (update host (App.gameState (World.app w))
                (App.waveComposition (World.app w)) (World.refs w)) as [r calls].
    cbn [World.app]. now apply applyCalls_over.
  - unfold click.
    destruct (handleCanvasClick host (App.gameState (World.app w))
                (App.selectedTower (World.app w)) rect e (World.refs w))
      as [r calls].
    cbn [World.app]. now apply applyCalls_over.
  - unfold selectTower.
    destruct (TowerConfig.cost (TOWER_STATS t) <=? _); exact H.
  - unfold pressStart, startNextWave.
    destruct (GameState.isPlaying (App.gameState (World.app w))) eqn:Hp;
      [exact H|].
    destruct (App.isWaveGenerating (World.app w)); [exact H|].
    destruct (GameState.isGameOver (App.gameState (World.app w))) eqn:Ho;
      [exact H|].
    cbn [orb]. destruct wd as [wd|err]; [|exact H].
    cbn. unfold overIffNoLives in *. destruct H as [Hiff _].
    rewrite Ho in Hiff. split; [exact Hiff|discriminate].
Qed.

(** X13.  The game is over exactly when no life is left: in every state
    reached from one where [isGameOver] holds iff [lives <= 0] (the fresh
    page is one), [isGameOver] holds iff [lives <= 0], and a game that is
    over is not playing. *)
Theorem game_over_iff_no_lives (cs : list Command) (w : World.t) :
  overIffNoLives (App.gameState (World.app w)) ->
  overIffNoLives (App.gameState (World.app (run host w cs))).
Proof.
  revert w. induction cs as [|c cs IH]; intros w H; [exact H|].
  cbn [run fold_left]. apply IH. now apply exec_over.
Qed.

Lemma exec_after_game_over (w : World.t) (c : Command) :
  isGameOverIn w = true ->
  App.gameState (World.app (exec host w c)) = App.gameState (World.app w)
  /\ App.waveComposition (World.app (exec host w c))
     = App.waveComposition (World.app w)
  /\ World.refs (exec host w c) = World.refs w.
Proof.
  unfold isGameOverIn. intro Ho. destruct c as [|rect e|t|wd]; cbn [exec].
  - rewrite (frame_stopped host w); [repeat split|now left].
  - unfold click, handleCanvasClick, placementVerdict. rewrite Ho.
    destruct (App.selectedTower (World.app w)); repeat split.
  - unfold selectTower.
    destruct (TowerConfig.cost (TOWER_STATS t) <=? _); repeat split.
  - unfold pressStart. rewrite Ho, orb_true_r. repeat split.
Qed.

(** X14.  Game over is terminal: once [isGameOver] is set, no frame,
    click, tower selection or press of the start button changes the game
    state (money, lives, wave, flags), the wave composition or any entity
    list. *)
Theorem game_over_is_terminal (cs : list Command) (w : World.t) :
  isGameOverIn w = true ->
  App.gameState (World.app (run host w cs)) = App.gameState (World.app w)
  /\ App.waveComposition (World.app (run host w cs))
     = App.waveComposition (World.app w)
  /\ World.refs (run host w cs) = World.refs w.
Proof.
  revert w. induction cs as [|c cs IH]; intros w Ho; [repeat split|].
  cbn [run fold_left].
  destruct (exec_after_game_over w c Ho) as (Hg & Hw & Hr).
  destruct (IH (exec host w c)) as (Hg' & Hw' & Hr').
  - unfold isGameOverIn in *. now rewrite Hg.
  - unfold run in *. rewrite Hg', Hw', Hr'. repeat split; assumption.
Qed.

(** X15.  Lives change only in a step that runs, and then they drop by
    exactly the number of enemies that have no next waypoint when they
    move (one call per enemy, not clamped); clicks, selections and wave
    starts never change lives. *)
Theorem lives_drop_by_leaks (w : World.t) (c : Command) :
  livesIn (exec host w c)
  = livesIn w
    - match c with
      | Frame =>
          if running (App.gameState (World.app w))
          then Z.of_nat (List.length
                           (leakers host (App.waveComposition (World.app w))
                              (World.refs w)))
          else 0
      | _ => 0
      end.
Proof.
  destruct c as [|rect e|t|wd]; cbn [exec].
  - destruct (running (App.gameState (World.app w))) eqn:Hrun.
    + now apply frame_lives.
    + rewrite (frame_stopped host w); [lia|].
      unfold running in Hrun. apply negb_false_iff in Hrun.
      apply orb_true_iff in Hrun. destruct Hrun as [H|H]; [now left|].
      right. now apply negb_true_iff in H.
  - unfold livesIn, click.
    destruct (click_calls host (App.gameState (World.app w))
                (App.selectedTower (World.app w)) rect e (World.refs w))
      as [H|(t & _ & _ & H)];
      destruct (handleCanvasClick host (App.gameState (World.app w))
                  (App.selectedTower (World.app w)) rect e (World.refs w))
        as [r calls]; cbn [snd] in H; subst calls; cbn [World.app];
      rewrite applyCalls_lives; cbn [sumZ fold_right livesLost]; lia.
  - unfold livesIn, selectTower.
    destruct (TowerConfig.cost (TOWER_STATS t) <=? _); cbn; lia.
  - unfold livesIn, pressStart, startNextWave.
    destruct (GameState.isPlaying (App.gameState (World.app w))); [cbn; lia|].
    destruct (App.isWaveGenerating (World.app w)); [cbn; lia|].
    destruct (GameState.isGameOver (App.gameState (World.app w))); [cbn; lia|].
    destruct wd; cbn; lia.
Qed.

(** X16.  Money never becomes negative: a step only adds bounties, a click
    subtracts a cost only after the funds check admitted it, and the other
    commands leave money alone; so money stays at or above 0 in every
    state reached from one where it is. *)
Theorem money_never_negative (cs : list Command) (w : World.t) :
  0 <= moneyIn w ->
  0 <= moneyIn (run host w cs)
  /\ moneyIn w <= moneyIn (frame host w).
Proof.
  intro H. split; [|apply frame_money].
  revert w H. induction cs as [|c cs IH]; intros w H; [exact H|].
  cbn [run fold_left]. apply IH. now apply exec_money_nonneg.
Qed.

End GameOver.

Lemma game_over_iff_no_lives_witness :
  overIffNoLives
    (App.gameState (World.app (run testHost twoAtTheExit [Frame; Frame]))).
Proof.
  apply (game_over_iff_no_lives testHost [Frame; Frame] twoAtTheExit).
  unfold overIffNoLives. cbn. split; [split; [discriminate|lia]|discriminate].
Defined.

Lemma game_over_is_terminal_witness :
  World.refs (run testHost (frame testHost lastStand)
                [canvasAt 100 60; Frame; SelectTower BLASTER;
                 PressStart (Resolved someWave)])
  = World.refs (frame testHost lastStand).
Proof.
  apply (game_over_is_terminal testHost
           [canvasAt 100 60; Frame; SelectTower BLASTER;
            PressStart (Resolved someWave)] (frame testHost lastStand)).
  reflexivity.
Defined.

Lemma money_never_negative_witness :
  0 <= moneyIn (run testHost initialWorld twoBlasters).
Proof.
  apply (money_never_negative testHost twoBlasters initialWorld).
  vm_compute. discriminate.
Defined.

(** ** The spawn schedule *)

Section SpawnSchedule.

Variable host : Host.t.
Variable wc : option WaveComposition.t.

Lemma spawnFrames_add (a b : nat) (r : Refs.t) :
  spawnFrames host wc (a + b) r = spawnFrames host wc b (spawnFrames host wc a r).
Proof.
  revert r. induction a as [|a IH]; intro r; [reflexivity|].
  cbn [Nat.add spawnFrames]. apply IH.
Qed.

(** While the timer stays below the interval, spawning only counts. *)
Lemma spawn_wait (k : nat) (g : SpawnGroup.t) (rest : list SpawnGroup.t)
  (r : Refs.t) :
  Refs.enemiesToSpawnRef r = g :: rest ->
  Refs.spawnTimerRef r + Z.of_nat k < SpawnGroup.interval g ->
  spawnFrames host wc k r = set_spawnTimer (Refs.spawnTimerRef r + Z.of_nat k) r.
Proof.
  revert r. induction k as [|k IH]; intros r Hq Ht.
  - cbn [spawnFrames]. rewrite Z.add_0_r. now destruct r.
  - cbn [spawnFrames]. unfold spawning at 1. rewrite Hq.
    replace (SpawnGroup.interval g <=? Refs.spawnTimerRef r + 1) with false
      by (symmetry; apply Z.leb_gt; lia).
    cbn [fst]. rewrite IH.
    + unfold set_spawnTimer.
      cbn [Refs.enemiesRef Refs.towersRef Refs.projectilesRef Refs.particlesRef
           Refs.frameCountRef Refs.spawnIndexRef Refs.spawnTimerRef
           Refs.enemiesToSpawnRef Refs.randomCalls].
      f_equal. lia.
    + exact Hq.
    + cbn [set_spawnTimer Refs.spawnTimerRef]. lia.
Qed.

(** The frame in which the timer reaches the interval spawns one enemy. *)
Lemma spawn_fire (g : SpawnGroup.t) (rest : list SpawnGroup.t) (r : Refs.t) :
  Refs.enemiesToSpawnRef r = g :: rest ->
  SpawnGroup.interval g <= Refs.spawnTimerRef r + 1 ->
  fst (spawning host wc r)
  = set_enemiesToSpawn
      (if SpawnGroup.count g - 1 <=? 0 then rest
       else group_with_count (SpawnGroup.count g - 1) g :: rest)
      (set_randomCalls (Refs.randomCalls r + 1)
         (set_enemies (Refs.enemiesRef r ++ [newEnemy host g (Refs.randomCalls r)])
            (set_spawnTimer 0 r))).
Proof.
  intros Hq Ht. unfold spawning. rewrite Hq.
  replace (SpawnGroup.interval g <=? Refs.spawnTimerRef r + 1) with true
    by (symmetry; apply Z.leb_le; lia).
  reflexivity.
Qed.

(** One cycle: from a timer at 0, the enemy appears after
    [max 1 interval] frames. *)
Lemma spawn_cycle (g : SpawnGroup.t) (rest : list SpawnGroup.t) (r : Refs.t) :
  Refs.enemiesToSpawnRef r = g :: rest ->
  Refs.spawnTimerRef r = 0 ->
  spawnFrames host wc (Z.to_nat (Z.max 1 (SpawnGroup.interval g))) r
  = set_enemiesToSpawn
      (if SpawnGroup.count g - 1 <=? 0 then rest
       else group_with_count (SpawnGroup.count g - 1) g :: rest)
      (set_randomCalls (Refs.randomCalls r + 1)
         (set_enemies (Refs.enemiesRef r ++ [newEnemy host g (Refs.randomCalls r)])
            (set_spawnTimer 0 r))).
Proof.
  intros Hq Ht.
  set (i := Z.to_nat (Z.max 1 (SpawnGroup.interval g))).
  assert (Hi : (i = (i - 1) + 1)%nat) by (subst i; lia).
  rewrite Hi, spawnFrames_add.
  assert (Hw : spawnFrames host wc (i - 1) r
               = set_spawnTimer (Refs.spawnTimerRef r + Z.of_nat (i - 1)) r).
  { destruct (Z.leb_spec (SpawnGroup.interval g) 1) as [Hle|Hgt].
    - replace (i - 1)%nat with 0%nat by (subst i; lia).
      cbn [spawnFrames Z.of_nat]. rewrite Z.add_0_r. now destruct r.
    - apply (spawn_wait (i - 1) g rest r Hq). subst i. lia. }
  rewrite Hw. cbn [spawnFrames]. rewrite (spawn_fire g rest).
  - cbn. reflexivity.
  - exact Hq.
  - cbn [set_spawnTimer Refs.spawnTimerRef]. subst i. lia.
Qed.

Lemma spawn_group (m : nat) (g : SpawnGroup.t) (rest : list SpawnGroup.t)
  (r : Refs.t) :
  Refs.enemiesToSpawnRef r = g :: rest ->
  Refs.spawnTimerRef r = 0 ->
  S m = Z.to_nat (Z.max 1 (SpawnGroup.count g)) ->
  let r' := spawnFrames host wc
              (S m * Z.to_nat (Z.max 1 (SpawnGroup.interval g))) r in
  Refs.enemiesToSpawnRef r' = rest
  /\ Refs.spawnTimerRef r' = 0
  /\ Refs.enemiesRef r'
     = Refs.enemiesRef r ++ map (newEnemy host g) (seq (Refs.randomCalls r) (S m))
  /\ Refs.randomCalls r' = (Refs.randomCalls r + S m)%nat
  /\ sameStage r (set_enemiesToSpawn (g :: rest) (set_spawnTimer 0 r'))
  /\ Refs.particlesRef r' = Refs.particlesRef r.
Proof.
  revert g r. induction m as [|m IH]; intros g r Hq Ht Hm; cbn zeta.
  - rewrite Nat.mul_1_l, (spawn_cycle g rest r Hq Ht).
    replace (SpawnGroup.count g - 1 <=? 0) with true
      by (symmetry; apply Z.leb_le; lia).
    cbn. repeat split; try reflexivity; (now rewrite Ht) || (now rewrite Hq).
  - replace (S (S m) * Z.to_nat (Z.max 1 (SpawnGroup.interval g)))%nat
      with (Z.to_nat (Z.max 1 (SpawnGroup.interval g))
            + S m * Z.to_nat (Z.max 1 (SpawnGroup.interval g)))%nat by lia.
    rewrite spawnFrames_add, (spawn_cycle g rest r Hq Ht).
    replace (SpawnGroup.count g - 1 <=? 0) with false
      by (symmetry; apply Z.leb_gt; lia).
    set (g1 := group_with_count (SpawnGroup.count g - 1) g).
    match goal with |- context [spawnFrames host wc _ ?r1] => set (r1' := r1) end.
    destruct (IH g1 r1') as (H1 & H2 & H3 & H4 & H5 & H6);
      [reflexivity|reflexivity|subst g1; cbn; lia|].
    change (SpawnGroup.interval g1) with (SpawnGroup.interval g) in *.
    cbn zeta in *. rewrite H1, H2, H3, H4, H6.
    split; [reflexivity|]. split; [reflexivity|].
    split; [|split; [subst r1'; cbn; lia|split; [|reflexivity]]].
    + subst r1'. cbn [Refs.enemiesRef set_enemiesToSpawn set_randomCalls
                        set_enemies Refs.randomCalls].
      rewrite <- app_assoc. f_equal.
      replace (Refs.randomCalls r + 1)%nat with (S (Refs.randomCalls r)) by lia.
      reflexivity.
    + destruct H5 as (A1 & A2 & A3 & A4 & A5 & A6). subst r1'.
      cbn in A1, A2, A3, A4, A5, A6 |- *. repeat split; try assumption.
      * now rewrite Ht.
      * now rewrite Hq.
Qed.

(** X17.  The spawning phase consumes the head group on a fixed schedule:
    starting with the timer at 0, a group with count [n] and interval [i]
    is used up after exactly [max 1 n * max 1 i] frames, in which
    [max 1 n] enemies of the group's type are appended (one fresh random
    id each) and nothing else changes; then the next group is at the head
    with the timer at 0.  In particular a group whose count is 0 or
    negative still spawns one enemy, and an interval of 1 or less spawns
    one enemy per frame. *)
Theorem group_spawns_on_schedule
  (g : SpawnGroup.t) (rest : list SpawnGroup.t) (r : Refs.t) :
  Refs.enemiesToSpawnRef r = g :: rest ->
  Refs.spawnTimerRef r = 0 ->
  let n := Z.to_nat (Z.max 1 (SpawnGroup.count g)) in
  let i := Z.to_nat (Z.max 1 (SpawnGroup.interval g)) in
  let r' := spawnFrames host wc (n * i) r in
  Refs.enemiesToSpawnRef r' = rest
  /\ Refs.spawnTimerRef r' = 0
  /\ Refs.enemiesRef r'
     = Refs.enemiesRef r ++ map (newEnemy host g) (seq (Refs.randomCalls r) n)
  /\ Refs.randomCalls r' = (Refs.randomCalls r + n)%nat
  /\ Refs.towersRef r' = Refs.towersRef r
  /\ Refs.projectilesRef r' = Refs.projectilesRef r
  /\ Refs.particlesRef r' = Refs.particlesRef r.
Proof.
  intros Hq Ht n i r'.
  assert (Hn : exists m, S m = n) by (exists (n - 1)%nat; subst n; lia).
  destruct Hn as [m Hm].
  destruct (spawn_group m g rest r Hq Ht) as (H1 & H2 & H3 & H4 & H5 & H6);
    [subst n; exact Hm|].
  subst r' i. rewrite <- Hm. cbn zeta in *.
  destruct H5 as (A1 & A2 & _).
  repeat split; assumption.
Qed.

Lemma fireTowers_clock (ts : list TowerEntity.t) (r : Refs.t) :
  Refs.enemiesToSpawnRef (snd (fireTowers host ts r)) = Refs.enemiesToSpawnRef r
  /\ Refs.spawnTimerRef (snd (fireTowers host ts r)) = Refs.spawnTimerRef r
  /\ Refs.particlesRef (snd (fireTowers host ts r)) = Refs.particlesRef r.
Proof.
  revert r. induction ts as [|t rest IH]; intro r; [repeat split|].
  cbn [fireTowers].
  assert (F : Refs.enemiesToSpawnRef (snd (fireTower host t r))
              = Refs.enemiesToSpawnRef r
              /\ Refs.spawnTimerRef (snd (fireTower host t r))
                 = Refs.spawnTimerRef r
              /\ Refs.particlesRef (snd (fireTower host t r))
                 = Refs.particlesRef r).
  { unfold fireTower. cbn zeta.
    match goal with |- context [TowerEntity.cooldownTimer ?t1 <=? 0] =>
      destruct (TowerEntity.cooldownTimer t1 <=? 0);
      [destruct (findTarget host t1 (Refs.enemiesRef r) None (-1 # 1))|]
    end; repeat split. }
  destruct (fireTower host t r) as [t' q1]. cbn [snd] in F.
  specialize (IH q1).
  destruct (fireTowers host rest q1) as [rest' q2]. cbn [snd] in *.
  destruct F as (F1 & F2 & F3), IH as (I1 & I2 & I3).
  repeat split; congruence.
Qed.

Lemma towersFire_clock (r : Refs.t) :
  Refs.enemiesToSpawnRef (towersFire host r) = Refs.enemiesToSpawnRef r
  /\ Refs.spawnTimerRef (towersFire host r) = Refs.spawnTimerRef r
  /\ Refs.particlesRef (towersFire host r) = Refs.particlesRef r.
Proof.
  unfold towersFire.
  pose proof (fireTowers_clock (Refs.towersRef r) r) as G.
  destruct (fireTowers host (Refs.towersRef r) r) as [ts r']. exact G.
Qed.

(** In a step that runs, the spawn queue and timer move as in the
    spawning phase alone. *)
Lemma update_spawn_clock (gs : GameState.t) (r : Refs.t) :
  running gs = true ->
  Refs.enemiesToSpawnRef (fst (update host gs wc r))
  = Refs.enemiesToSpawnRef (fst (spawning host wc r))
  /\ Refs.spawnTimerRef (fst (update host gs wc r))
     = Refs.spawnTimerRef (fst (spawning host wc r)).
Proof.
  unfold running, update. intro H. apply negb_true_iff in H. rewrite H.
  destruct (spawning host wc r) as [r1 c1]. cbn [fst].
  destruct (updateEnemies host (Refs.enemiesRef r1)) as [es c2].
  set (r2 := set_enemies (removeDead es) r1).
  pose proof (towersFire_clock r2) as (H3a & H3b & _).
  change (Refs.enemiesToSpawnRef r2) with (Refs.enemiesToSpawnRef r1) in H3a.
  change (Refs.spawnTimerRef r2) with (Refs.spawnTimerRef r1) in H3b.
  set (r3 := towersFire host r2) in *.
  pose proof (updateProjectiles_stage host (Refs.projectilesRef r3) r3)
    as (_ & _ & _ & _ & H5 & H6).
  destruct (updateProjectiles host (Refs.projectilesRef r3) r3)
    as [[ps r4] c4]. cbn [fst snd] in *.
  split.
  - change (Refs.enemiesToSpawnRef r4 = Refs.enemiesToSpawnRef r1). congruence.
  - change (Refs.spawnTimerRef r4 = Refs.spawnTimerRef r1). congruence.
Qed.

End SpawnSchedule.

Lemma group_spawns_on_schedule_witness :
  Refs.enemiesToSpawnRef
    (spawnFrames testHost None 10
       (Refs.mk [] [] [] [] 0 0 0
          [SpawnGroup.mk SCOUT (-3) 10 (qz 1); SpawnGroup.mk grunt 2 5 (qz 1)] 0))
  = [SpawnGroup.mk grunt 2 5 (qz 1)].
Proof.
  apply (group_spawns_on_schedule testHost None
           (SpawnGroup.mk SCOUT (-3) 10 (qz 1)) [SpawnGroup.mk grunt 2 5 (qz 1)]
           (Refs.mk [] [] [] [] 0 0 0
              [SpawnGroup.mk SCOUT (-3) 10 (qz 1); SpawnGroup.mk grunt 2 5 (qz 1)] 0));
    reflexivity.
Defined.

(** ** Movement along the path *)

Section Movement.

Variable host : Host.t.

(** X18.  One movement step of an enemy keeps its id, type, maximum hit
    points and speed.  While it has a next waypoint it keeps its hit
    points, adds this frame's speed to its distance travelled, and its
    path index stays or grows by one; when the index grows the enemy
    stands exactly on the waypoint it reached, and the index remains a
    valid waypoint index.  An enemy without next waypoint does not move:
    its hit points are set to 0 and one life is taken. *)
Theorem movement_follows_waypoints (e : EnemyEntity.t) :
  let e' := fst (updateEnemy host e) in
  (EnemyEntity.id e', EnemyEntity.type e', EnemyEntity.maxHp e', EnemyEntity.speed e')
  = (EnemyEntity.id e, EnemyEntity.type e, EnemyEntity.maxHp e, EnemyEntity.speed e)
  /\ (isFinished e = false ->
      EnemyEntity.hp e' = EnemyEntity.hp e
      /\ EnemyEntity.distanceTraveled e'
         = EnemyEntity.distanceTraveled e +! currentSpeed e
      /\ snd (updateEnemy host e) = []
      /\ (EnemyEntity.pathIndex e' = EnemyEntity.pathIndex e
          \/ EnemyEntity.pathIndex e' = S (EnemyEntity.pathIndex e)
             /\ nth_error PATH_WAYPOINTS (EnemyEntity.pathIndex e')
                = Some (Vector2D.mk (EnemyEntity.x e') (EnemyEntity.y e')))
      /\ (EnemyEntity.pathIndex e' < List.length PATH_WAYPOINTS)%nat)
  /\ (isFinished e = true ->
      EnemyEntity.hp e' = 0%Q
      /\ enemyBody e' = enemyBody e
      /\ snd (updateEnemy host e) = [LoseLife]).
Proof.
  unfold updateEnemy, isFinished.
  cbn [enemy_with_frozen EnemyEntity.pathIndex EnemyEntity.x EnemyEntity.y
       EnemyEntity.distanceTraveled].
  destruct (nth_error PATH_WAYPOINTS (EnemyEntity.pathIndex e + 1))
    as [node|] eqn:Hn.
  - assert (Hlt : (EnemyEntity.pathIndex e + 1 < List.length PATH_WAYPOINTS)%nat).
    { apply nth_error_Some. congruence. }
    match goal with |- context [if ?b then _ else _] => destruct b end;
      cbn zeta; cbn [fst snd enemy_with_motion EnemyEntity.id EnemyEntity.type
                      EnemyEntity.maxHp EnemyEntity.speed EnemyEntity.hp
                      EnemyEntity.distanceTraveled EnemyEntity.pathIndex
                      EnemyEntity.x EnemyEntity.y].
    + split; [reflexivity|]. split; [|discriminate]. intros _.
      repeat split.
      * right. split; [lia|]. rewrite Hn. now destruct node.
      * lia.
    + split; [reflexivity|]. split; [|discriminate]. intros _.
      repeat split; [now left|lia].
  - cbn zeta. cbn [fst snd]. split; [reflexivity|].
    split; [discriminate|]. intros _. repeat split.
Qed.

End Movement.

(** ** What impacts do to the enemies *)

Section Impacts.

Variable host : Host.t.
Variable b : bool.

Lemma weakened_refl (e : EnemyEntity.t) : weakened b e e.
Proof. split; [reflexivity|intros _; apply Qle_refl]. Qed.

Lemma weakened_trans (e1 e2 e3 : EnemyEntity.t) :
  weakened b e1 e2 -> weakened b e2 e3 -> weakened b e1 e3.
Proof.
  intros [B1 H1] [B2 H2]. split; [congruence|].
  intro Hb. eapply Qle_trans; [apply (H2 Hb)|apply (H1 Hb)].
Qed.

Lemma Forall2_weakened_refl (es : list EnemyEntity.t) : Forall2 (weakened b) es es.
Proof. induction es; constructor; [apply weakened_refl|assumption]. Qed.

Lemma Forall2_weakened_trans (l1 l2 l3 : list EnemyEntity.t) :
  Forall2 (weakened b) l1 l2 -> Forall2 (weakened b) l2 l3 ->
  Forall2 (weakened b) l1 l3.
Proof.
  intro H. revert l3. induction H as [|x y l l' Hxy _ IH]; intros l3 H23.
  - inversion H23. constructor.
  - inversion H23 as [|? z ? l3' Hyz Hrest]; subst.
    constructor; [eapply weakened_trans; eassumption|now apply IH].
Qed.

Lemma qsub_le (h dmg : Q) : (0 <= dmg)%Q -> (h -! dmg <= h)%Q.
Proof.
  intro H. unfold qsub. rewrite Qred_correct.
  apply Qle_minus_iff. setoid_replace (h + - (h - dmg))%Q with dmg by ring.
  exact H.
Qed.

Lemma damageEnemy_weakened (e : EnemyEntity.t) (dmg : Q) (r : Refs.t) :
  (b = true -> (0 <= dmg)%Q) ->
  weakened b e (fst (fst (damageEnemy host e dmg r))).
Proof.
  intro Hd. unfold damageEnemy.
  match goal with |- context [if ?c then _ else _] => destruct c end;
    cbn [fst]; (split; [reflexivity|]); intro Hb; cbn; apply qsub_le; auto.
Qed.

Lemma splash_weakened (tx ty dmg : Q) (es : list EnemyEntity.t) (r : Refs.t) :
  (b = true -> (0 <= dmg)%Q) ->
  Forall2 (weakened b) es (fst (fst (splash host tx ty dmg es r))).
Proof.
  intro Hd. revert r. induction es as [|e rest IH]; intro r; [constructor|].
  cbn [splash].
  destruct (dist host tx ty (EnemyEntity.x e) (EnemyEntity.y e) <! qz 60).
  - pose proof (damageEnemy_weakened e dmg r Hd) as H1.
    destruct (damageEnemy host e dmg r) as [[e' r1] c1]. cbn [fst] in H1.
    specialize (IH r1).
    destruct (splash host tx ty dmg rest r1) as [[rest' r2] c2].
    cbn [fst] in *. now constructor.
  - specialize (IH r).
    destruct (splash host tx ty dmg rest r) as [[rest' r2] c2].
    cbn [fst] in *. constructor; [apply weakened_refl|assumption].
Qed.

Lemma storeTarget_weakened (target t2 : EnemyEntity.t) (es : list EnemyEntity.t) :
  find (EnemyEntity.id t2) es = Some target ->
  weakened b target t2 ->
  Forall2 (weakened b) es (storeTarget t2 es).
Proof.
  intros Hf Hw. induction es as [|e rest IH]; [constructor|].
  cbn [find storeTarget] in *.
  destruct (String.eqb (EnemyEntity.id e) (EnemyEntity.id t2)).
  - injection Hf as ->. constructor; [exact Hw|apply Forall2_weakened_refl].
  - constructor; [apply weakened_refl|now apply IH].
Qed.

Lemma updateProjectile_weakened (p : ProjectileEntity.t) (r : Refs.t) :
  (b = true -> (0 <= ProjectileEntity.damage p)%Q) ->
  Forall2 (weakened b) (Refs.enemiesRef r)
    (Refs.enemiesRef (snd (fst (updateProjectile host p r)))).
Proof.
  intro Hd. unfold updateProjectile.
  destruct (find (ProjectileEntity.targetId p) (Refs.enemiesRef r))
    as [target|] eqn:Hf; [|apply Forall2_weakened_refl].
  match goal with |- context [if ?c then _ else _] => destruct c end;
    [|apply Forall2_weakened_refl].
  destruct (ProjectileEntity.isAoE p).
  - pose proof (splash_weakened (EnemyEntity.x target) (EnemyEntity.y target)
                  (ProjectileEntity.damage p) (Refs.enemiesRef r) r Hd) as H.
    destruct (splash host (EnemyEntity.x target) (EnemyEntity.y target)
                (ProjectileEntity.damage p) (Refs.enemiesRef r) r)
      as [[es r1] c]. cbn [fst snd] in *.
    now rewrite createParticles_enemies.
  - pose proof (damageEnemy_weakened target (ProjectileEntity.damage p) r Hd) as H.
    pose proof (damageEnemy_id host target (ProjectileEntity.damage p) r) as Hid.
    destruct (damageEnemy host target (ProjectileEntity.damage p) r)
      as [[t1 r1] c]. cbn [fst snd] in *.
    rewrite createParticles_enemies. cbn [Refs.enemiesRef set_enemies].
    pose proof (find_some _ _ _ Hf) as [_ Htid].
    apply storeTarget_weakened with (target := target).
    + destruct (ProjectileEntity.slowEffect p) as [s|];
        [destruct (0 <? s)|]; cbn [enemy_with_frozen EnemyEntity.id];
        rewrite Hid, Htid; exact Hf.
    + destruct (ProjectileEntity.slowEffect p) as [s|];
        [destruct (0 <? s)|]; exact H.
Qed.

Lemma updateProjectiles_weakened (ps : list ProjectileEntity.t) (r : Refs.t) :
  (b = true -> Forall (fun p => (0 <= ProjectileEntity.damage p)%Q) ps) ->
  Forall2 (weakened b) (Refs.enemiesRef r)
    (Refs.enemiesRef (snd (fst (updateProjectiles host ps r)))).
Proof.
  induction ps as [|p rest IH]; intro Hd; [apply Forall2_weakened_refl|].
  cbn [updateProjectiles].
  assert (Hrest : b = true ->
                  Forall (fun p => (0 <= ProjectileEntity.damage p)%Q) rest).
  { intro Hb. specialize (Hd Hb). now inversion Hd. }
  specialize (IH Hrest).
  destruct (updateProjectiles host rest r) as [[rest' r1] c1].
  assert (Hp : b = true -> (0 <= ProjectileEntity.damage p)%Q).
  { intro Hb. specialize (Hd Hb). now inversion Hd. }
  pose proof (updateProjectile_weakened p r1 Hp) as H.
  destruct (updateProjectile host p r1) as [[kept r2] c2].
  cbn [fst snd] in *. eapply Forall2_weakened_trans; eassumption.
Qed.

End Impacts.

(** X19.  The projectile phase never adds, removes, reorders or moves an
    enemy and never changes its id, type, speed, path index or distance
    travelled: enemy by enemy, only hit points and the slow timer may
    differ afterwards, and when no projectile carries negative damage no
    enemy has more hit points than before. *)
Theorem impacts_only_weaken
  (host : Host.t) (ps : list ProjectileEntity.t) (r : Refs.t) :
  Forall (fun p => (0 <= ProjectileEntity.damage p)%Q) ps ->
  Forall2 (weakened true) (Refs.enemiesRef r)
    (Refs.enemiesRef (snd (fst (updateProjectiles host ps r)))).
Proof.
  intro H. apply updateProjectiles_weakened. intros _. exact H.
Qed.

Lemma impacts_only_weaken_witness :
  Forall2 (weakened true) (drawnEnemies twoShotsOneGrunt)
    (Refs.enemiesRef
       (snd (fst (updateProjectiles testHost
                    (Refs.projectilesRef (World.refs twoShotsOneGrunt))
                    (World.refs twoShotsOneGrunt))))).
Proof.
  apply (impacts_only_weaken testHost
           (Refs.projectilesRef (World.refs twoShotsOneGrunt))
           (World.refs twoShotsOneGrunt)).
  repeat constructor; discriminate.
Defined.

(** ** The path index stays a waypoint index *)

Section OnThePath.

Variable host : Host.t.

Lemma updateEnemy_on_path (e : EnemyEntity.t) :
  (EnemyEntity.pathIndex e < List.length PATH_WAYPOINTS)%nat ->
  (EnemyEntity.pathIndex (fst (updateEnemy host e))
   < List.length PATH_WAYPOINTS)%nat.
Proof.
  intro H. unfold updateEnemy.
  cbn [enemy_with_frozen EnemyEntity.pathIndex].
  destruct (nth_error PATH_WAYPOINTS (EnemyEntity.pathIndex e + 1)) eqn:Hn.
  - assert (EnemyEntity.pathIndex e + 1 < List.length PATH_WAYPOINTS)%nat
      by (apply nth_error_Some; congruence).
    cbn zeta.
    match goal with |- context [if ?c then _ else _] => destruct c end;
      cbn [fst enemy_with_motion EnemyEntity.pathIndex]; lia.
  - cbn [fst enemy_with_hp EnemyEntity.pathIndex]. exact H.
Qed.

Lemma weakened_on_path (es es' : list EnemyEntity.t) :
  Forall2 (weakened false) es es' ->
  Forall (fun e => (EnemyEntity.pathIndex e < List.length PATH_WAYPOINTS)%nat) es ->
  Forall (fun e => (EnemyEntity.pathIndex e < List.length PATH_WAYPOINTS)%nat) es'.
Proof.
  induction 1 as [|e e' l l' [Hb _] _ IH]; intro H; [constructor|].
  inversion H; subst. constructor; [|now apply IH].
  unfold enemyBody in Hb.
  replace (EnemyEntity.pathIndex e') with (EnemyEntity.pathIndex e)
    by congruence.
  assumption.
Qed.

Lemma frame_on_path (w : World.t) : onThePath w -> onThePath (frame host w).
Proof.
  unfold onThePath, drawnEnemies. intro H. rewrite frame_refs.
  unfold update.
  destruct (GameState.isGameOver (App.gameState (World.app w))
            || negb (GameState.isPlaying (App.gameState (World.app w))));
    [exact H|].
  pose proof (spawning_enemies host (App.waveComposition (World.app w))
                (World.refs w)) as Hs.
  destruct (spawning host (App.waveComposition (World.app w)) (World.refs w))
    as [r1 c1]. cbn [fst] in Hs.
  assert (H1 : Forall (fun e => (EnemyEntity.pathIndex e
                                 < List.length PATH_WAYPOINTS)%nat)
                 (Refs.enemiesRef r1)).
  { destruct Hs as [[-> _]|[[g ->] _]]; [exact H|].
    apply Forall_app. split; [exact H|]. constructor; [|constructor].
    unfold newEnemy. cbn. lia. }
  pose proof (updateEnemies_map host (Refs.enemiesRef r1)) as Hm.
  destruct (updateEnemies host (Refs.enemiesRef r1)) as [es c2].
  cbn [fst] in Hm.
  assert (H2 : Forall (fun e => (EnemyEntity.pathIndex e
                                 < List.length PATH_WAYPOINTS)%nat)
                 (removeDead es)).
  { apply Forall_forall. intros e He. unfold removeDead in He.
    apply filter_In in He as [He _]. rewrite Hm in He.
    apply in_map_iff in He as (e0 & <- & He0).
    apply updateEnemy_on_path. rewrite Forall_forall in H1. now apply H1. }
  pose proof (towersFire_refs host (set_enemies (removeDead es) r1))
    as [H3 _].
  pose proof (updateProjectiles_weakened host false
                (Refs.projectilesRef (towersFire host (set_enemies (removeDead es) r1)))
                (towersFire host (set_enemies (removeDead es) r1))) as H4.
  destruct (updateProjectiles host
              (Refs.projectilesRef (towersFire host (set_enemies (removeDead es) r1)))
              (towersFire host (set_enemies (removeDead es) r1)))
    as [[ps r4] c4].
  cbn [fst snd] in *.
  apply weakened_on_path
    with (es := Refs.enemiesRef (towersFire host (set_enemies (removeDead es) r1))).
  - apply H4. discriminate.
  - rewrite H3. exact H2.
Qed.

Lemma exec_on_path (c : Command) (w : World.t) :
  onThePath w -> onThePath (exec host w c).
Proof.
  intro H. destruct c as [|rect e|ty|wd]; cbn [exec].
  - now apply frame_on_path.
  - unfold onThePath, drawnEnemies.
    destruct (click_refs host rect e w) as [-> _]. exact H.
  - unfold selectTower.
    match goal with |- context [if ?b then _ else _] => destruct b end;
      exact H.
  - unfold onThePath, drawnEnemies.
    destruct (pressStart_refs wd w) as [-> _]. exact H.
Qed.

(** X20.  In every state reached from one whose enemies all have a valid
    waypoint index, every listed enemy still has one: spawning starts an
    enemy at index 0, movement stops advancing the index at the last
    waypoint, impacts never touch it, and clicks and buttons leave the
    enemies alone.  So the lookup of the next waypoint in the movement
    code goes at most one past the end of the path, the case the code
    tests for. *)
Theorem enemies_stay_on_the_path (cs : list Command) (w : World.t) :
  onThePath w -> onThePath (run host w cs).
Proof.
  revert w. induction cs as [|c cs IH]; intros w H; [exact H|].
  cbn [run fold_left]. apply IH. now apply exec_on_path.
Qed.

End OnThePath.

Lemma enemies_stay_on_the_path_witness :
  onThePath (run testHost twoAtTheExit [Frame; canvasAt 100 60; Frame]).
Proof.
  apply (enemies_stay_on_the_path testHost
           [Frame; canvasAt 100 60; Frame] twoAtTheExit).
  unfold onThePath. repeat constructor.
Defined.

(** ** Particles are decoration *)

Section Particles.

Variable host : Host.t.

Ltac same_but_particles r r' H :=
  destruct r, r'; unfold sansParticles, set_particles in H; cbn in H;
  injection H; intros; subst.

Lemma createParticles_sans (x y : Q) (color : string) (n : nat) (r r' : Refs.t) :
  sansParticles r = sansParticles r' ->
  sansParticles (createParticles host x y color n r)
  = sansParticles (createParticles host x y color n r').
Proof.
  revert r r'. induction n as [|n IH]; intros r r' H; [exact H|].
  cbn [createParticles]. apply IH.
  same_but_particles r r' H. reflexivity.
Qed.

Lemma damageEnemy_sans (e : EnemyEntity.t) (dmg : Q) (r r' : Refs.t) :
  sansParticles r = sansParticles r' ->
  fst (fst (damageEnemy host e dmg r)) = fst (fst (damageEnemy host e dmg r'))
  /\ sansParticles (snd (fst (damageEnemy host e dmg r)))
     = sansParticles (snd (fst (damageEnemy host e dmg r')))
  /\ snd (damageEnemy host e dmg r) = snd (damageEnemy host e dmg r').
Proof.
  intro H. unfold damageEnemy.
  match goal with |- context [if ?c then _ else _] => destruct c end;
    cbn [fst snd]; repeat split; try exact H.
  now apply createParticles_sans.
Qed.

Lemma splash_sans (tx ty dmg : Q) (es : list EnemyEntity.t) (r r' : Refs.t) :
  sansParticles r = sansParticles r' ->
  fst (fst (splash host tx ty dmg es r)) = fst (fst (splash host tx ty dmg es r'))
  /\ sansParticles (snd (fst (splash host tx ty dmg es r)))
     = sansParticles (snd (fst (splash host tx ty dmg es r')))
  /\ snd (splash host tx ty dmg es r) = snd (splash host tx ty dmg es r').
Proof.
  revert r r'. induction es as [|e rest IH]; intros r r' H;
    [cbn; repeat split; exact H|].
  cbn [splash].
  destruct (dist host tx ty (EnemyEntity.x e) (EnemyEntity.y e) <! qz 60).
  - pose proof (damageEnemy_sans e dmg r r' H) as (D1 & D2 & D3).
    destruct (damageEnemy host e dmg r) as [[e1 r1] c1].
    destruct (damageEnemy host e dmg r') as [[e1' r1'] c1'].
    cbn [fst snd] in D1, D2, D3. subst e1' c1'.
    specialize (IH r1 r1' D2) as (S1 & S2 & S3).
    destruct (splash host tx ty dmg rest r1) as [[l1 r2] c2].
    destruct (splash host tx ty dmg rest r1') as [[l1' r2'] c2'].
    cbn [fst snd] in *. subst. repeat split. exact S2.
  - specialize (IH r r' H) as (S1 & S2 & S3).
    destruct (splash host tx ty dmg rest r) as [[l1 r2] c2].
    destruct (splash host tx ty dmg rest r') as [[l1' r2'] c2'].
    cbn [fst snd] in *. subst. repeat split. exact S2.
Qed.

Lemma sans_enemies (r r' : Refs.t) :
  sansParticles r = sansParticles r' -> Refs.enemiesRef r = Refs.enemiesRef r'.
Proof. intro H. same_but_particles r r' H. reflexivity. Qed.

Lemma sans_set_enemies (es : list EnemyEntity.t) (r r' : Refs.t) :
  sansParticles r = sansParticles r' ->
  sansParticles (set_enemies es r) = sansParticles (set_enemies es r').
Proof. intro H. same_but_particles r r' H. reflexivity. Qed.

Lemma updateProjectile_sans (p : ProjectileEntity.t) (r r' : Refs.t) :
  sansParticles r = sansParticles r' ->
  fst (fst (updateProjectile host p r)) = fst (fst (updateProjectile host p r'))
  /\ sansParticles (snd (fst (updateProjectile host p r)))
     = sansParticles (snd (fst (updateProjectile host p r')))
  /\ snd (updateProjectile host p r) = snd (updateProjectile host p r').
Proof.
  intro H. unfold updateProjectile.
  rewrite <- (sans_enemies r r' H).
  destruct (find (ProjectileEntity.targetId p) (Refs.enemiesRef r))
    as [target|]; [|cbn; repeat split; exact H].
  match goal with |- context [if ?c then _ else _] => destruct c end;
    [|cbn; repeat split; exact H].
  destruct (ProjectileEntity.isAoE p).
  - pose proof (splash_sans (EnemyEntity.x target) (EnemyEntity.y target)
                  (ProjectileEntity.damage p) (Refs.enemiesRef r) r r' H)
      as (S1 & S2 & S3).
    destruct (splash host (EnemyEntity.x target) (EnemyEntity.y target)
                (ProjectileEntity.damage p) (Refs.enemiesRef r) r)
      as [[es r1] c].
    destruct (splash host (EnemyEntity.x target) (EnemyEntity.y target)
                (ProjectileEntity.damage p) (Refs.enemiesRef r) r')
      as [[es' r1'] c'].
    cbn [fst snd] in *. subst. repeat split.
    apply createParticles_sans. now apply sans_set_enemies.
  - pose proof (damageEnemy_sans target (ProjectileEntity.damage p) r r' H)
      as (D1 & D2 & D3).
    destruct (damageEnemy host target (ProjectileEntity.damage p) r)
      as [[t1 r1] c].
    destruct (damageEnemy host target (ProjectileEntity.damage p) r')
      as [[t1' r1'] c'].
    cbn [fst snd] in *. subst. repeat split.
    apply createParticles_sans. now apply sans_set_enemies.
Qed.

Lemma updateProjectiles_sans (ps : list ProjectileEntity.t) (r r' : Refs.t) :
  sansParticles r = sansParticles r' ->
  fst (fst (updateProjectiles host ps r)) = fst (fst (updateProjectiles host ps r'))
  /\ sansParticles (snd (fst (updateProjectiles host ps r)))
     = sansParticles (snd (fst (updateProjectiles host ps r')))
  /\ snd (updateProjectiles host ps r) = snd (updateProjectiles host ps r').
Proof.
  intro H. induction ps as [|p rest IH]; [cbn; repeat split; exact H|].
  cbn [updateProjectiles].
  destruct IH as (I1 & I2 & I3).
  destruct (updateProjectiles host rest r) as [[l1 r1] c1].
  destruct (updateProjectiles host rest r') as [[l1' r1'] c1'].
  cbn [fst snd] in I1, I2, I3. subst l1' c1'.
  pose proof (updateProjectile_sans p r1 r1' I2) as (U1 & U2 & U3).
  destruct (updateProjectile host p r1) as [[k r2] c2].
  destruct (updateProjectile host p r1') as [[k' r2'] c2'].
  cbn [fst snd] in *. subst. repeat split. exact U2.
Qed.

Lemma fireTower_sans (t : TowerEntity.t) (r r' : Refs.t) :
  sansParticles r = sansParticles r' ->
  fst (fireTower host t r) = fst (fireTower host t r')
  /\ sansParticles (snd (fireTower host t r))
     = sansParticles (snd (fireTower host t r')).
Proof.
  intro H. same_but_particles r r' H. unfold fireTower.
  cbn [Refs.enemiesRef Refs.randomCalls Refs.projectilesRef].
  match goal with |- context [if ?c then _ else _] => destruct c end;
    [|split; reflexivity].
  match goal with |- context [match ?c with Some _ => _ | None => _ end] =>
    destruct c end; split; reflexivity.
Qed.

Lemma fireTowers_sans (ts : list TowerEntity.t) (r r' : Refs.t) :
  sansParticles r = sansParticles r' ->
  fst (fireTowers host ts r) = fst (fireTowers host ts r')
  /\ sansParticles (snd (fireTowers host ts r))
     = sansParticles (snd (fireTowers host ts r')).
Proof.
  revert r r'. induction ts as [|t rest IH]; intros r r' H;
    [split; [reflexivity|exact H]|].
  cbn [fireTowers].
  pose proof (fireTower_sans t r r' H) as (F1 & F2).
  destruct (fireTower host t r) as [t1 r1].
  destruct (fireTower host t r') as [t1' r1'].
  cbn [fst snd] in F1, F2. subst t1'.
  specialize (IH r1 r1' F2) as (I1 & I2).
  destruct (fireTowers host rest r1) as [l r2].
  destruct (fireTowers host rest r1') as [l' r2'].
  cbn [fst snd] in *. subst. split; [reflexivity|exact I2].
Qed.

Lemma towersFire_sans (r r' : Refs.t) :
  sansParticles r = sansParticles r' ->
  sansParticles (towersFire host r) = sansParticles (towersFire host r').
Proof.
  intro H. unfold towersFire.
  assert (Ht : Refs.towersRef r = Refs.towersRef r').
  { same_but_particles r r' H. reflexivity. }
  rewrite <- Ht.
  pose proof (fireTowers_sans (Refs.towersRef r) r r' H) as (F1 & F2).
  destruct (fireTowers host (Refs.towersRef r) r) as [ts r1].
  destruct (fireTowers host (Refs.towersRef r) r') as [ts' r1'].
  cbn [fst snd] in *. subst ts'.
  same_but_particles r1 r1' F2. reflexivity.
Qed.

Lemma spawning_sans (wc : option WaveComposition.t) (r r' : Refs.t) :
  sansParticles r = sansParticles r' ->
  sansParticles (fst (spawning host wc r)) = sansParticles (fst (spawning host wc r'))
  /\ snd (spawning host wc r) = snd (spawning host wc r').
Proof.
  intro H. same_but_particles r r' H. unfold spawning.
  cbn [Refs.enemiesToSpawnRef Refs.spawnTimerRef Refs.randomCalls
       Refs.enemiesRef].
  repeat match goal with
         | |- context [match ?c with _ => _ end] => destruct c
         end; split; reflexivity.
Qed.

(** X21.  Particles are decoration only: whatever the particle list holds
    when a step starts, the step makes the same calls on the application
    and leaves the same enemies, towers, projectiles, frame counter, spawn
    queue and timer, and consumes as many random numbers.  Nothing in the
    game loop reads a particle except to age and remove it. *)
Theorem particles_are_cosmetic
  (g : GameState.t) (wc : option WaveComposition.t) (r : Refs.t)
  (ps : list Particle.t) :
  snd (update host g wc (set_particles ps r)) = snd (update host g wc r)
  /\ sansParticles (fst (update host g wc (set_particles ps r)))
     = sansParticles (fst (update host g wc r)).
Proof.
  assert (H : sansParticles (set_particles ps r) = sansParticles r)
    by (destruct r; reflexivity).
  revert H. generalize (set_particles ps r) as r'. intros r' H.
  unfold update.
  destruct (GameState.isGameOver g || negb (GameState.isPlaying g));
    [split; [reflexivity|exact H]|].
  pose proof (spawning_sans wc r' r H) as (S1 & S2).
  destruct (spawning host wc r') as [r1' c1'].
  destruct (spawning host wc r) as [r1 c1].
  cbn [fst snd] in S1, S2. subst c1'.
  rewrite (sans_enemies r1' r1 S1).
  destruct (updateEnemies host (Refs.enemiesRef r1)) as [es c2].
  pose proof (towersFire_sans _ _ (sans_set_enemies (removeDead es) r1' r1 S1))
    as T.
  assert (Tp : Refs.projectilesRef (towersFire host (set_enemies (removeDead es) r1'))
               = Refs.projectilesRef (towersFire host (set_enemies (removeDead es) r1))).
  { revert T.
    generalize (towersFire host (set_enemies (removeDead es) r1')) as a.
    generalize (towersFire host (set_enemies (removeDead es) r1)) as b.
    intros b a T. same_but_particles a b T. reflexivity. }
  rewrite Tp.
  pose proof (updateProjectiles_sans
                (Refs.projectilesRef (towersFire host (set_enemies (removeDead es) r1)))
                _ _ T) as (U1 & U2 & U3).
  destruct (updateProjectiles host
              (Refs.projectilesRef (towersFire host (set_enemies (removeDead es) r1)))
              (towersFire host (set_enemies (removeDead es) r1')))
    as [[l' r4'] c4'].
  destruct (updateProjectiles host
              (Refs.projectilesRef (towersFire host (set_enemies (removeDead es) r1)))
              (towersFire host (set_enemies (removeDead es) r1)))
    as [[l r4] c4].
  cbn [fst snd] in *. subst. split; [reflexivity|].
  same_but_particles r4' r4 U2. reflexivity.
Qed.

End Particles.

(** ** The arsenal and the health bars *)

Section Arsenal.

Variable host : Host.t.

Lemma fireTower_stock (t : TowerEntity.t) (r : Refs.t) :
  stockTower t -> Forall stockShot (Refs.projectilesRef r) ->
  stockTower (fst (fireTower host t r))
  /\ Forall stockShot (Refs.projectilesRef (snd (fireTower host t r))).
Proof.
  intros Ht Hp. unfold fireTower.
  set (t1 := if 0 <? TowerEntity.cooldownTimer t
             then tower_with_cooldownTimer (TowerEntity.cooldownTimer t - 1) t
             else t).
  assert (H1 : stockTower t1).
  { subst t1. destruct (0 <? TowerEntity.cooldownTimer t); exact Ht. }
  destruct (TowerEntity.cooldownTimer t1 <=? 0); [|split; assumption].
  destruct (findTarget host t1 (Refs.enemiesRef r) None (-1 # 1))
    as [target|]; [|split; assumption].
  cbn [fst snd]. split; [exact H1|].
  cbn [set_randomCalls set_projectiles Refs.projectilesRef].
  apply Forall_app. split; [exact Hp|]. constructor; [|constructor].
  exists (TowerEntity.type t1). destruct H1 as (_ & _ & Hd & _).
  unfold newProjectile. cbn. repeat split. exact Hd.
Qed.

Lemma fireTowers_stock (ts : list TowerEntity.t) (r : Refs.t) :
  Forall stockTower ts -> Forall stockShot (Refs.projectilesRef r) ->
  Forall stockTower (fst (fireTowers host ts r))
  /\ Forall stockShot (Refs.projectilesRef (snd (fireTowers host ts r))).
Proof.
  revert r. induction ts as [|t rest IH]; intros r Ht Hp;
    [split; [constructor|exact Hp]|].
  inversion Ht as [|? ? Ht1 Ht2]; subst. cbn [fireTowers].
  pose proof (fireTower_stock t r Ht1 Hp) as (F1 & F2).
  destruct (fireTower host t r) as [t' r1]. cbn [fst snd] in F1, F2.
  specialize (IH r1 Ht2 F2) as (I1 & I2).
  destruct (fireTowers host rest r1) as [rest' r2]. cbn [fst snd] in *.
  split; [now constructor|exact I2].
Qed.

Lemma towersFire_stock (r : Refs.t) :
  Forall stockTower (Refs.towersRef r) ->
  Forall stockShot (Refs.projectilesRef r) ->
  Forall stockTower (Refs.towersRef (towersFire host r))
  /\ Forall stockShot (Refs.projectilesRef (towersFire host r)).
Proof.
  intros Ht Hp. unfold towersFire.
  pose proof (fireTowers_stock (Refs.towersRef r) r Ht Hp) as (F1 & F2).
  destruct (fireTowers host (Refs.towersRef r) r) as [ts r']. exact (conj F1 F2).
Qed.

Lemma updateProjectile_stock (p p' : ProjectileEntity.t) (r : Refs.t) :
  fst (fst (updateProjectile host p r)) = Some p' ->
  stockShot p -> stockShot p'.
Proof.
  unfold updateProjectile.
  destruct (find (ProjectileEntity.targetId p) (Refs.enemiesRef r))
    as [target|]; [|discriminate].
  match goal with |- context [if ?c then _ else _] => destruct c end.
  - destruct (ProjectileEntity.isAoE p).
    + destruct (splash host _ _ _ _ _) as [[? ?] ?]. discriminate.
    + destruct (damageEnemy host _ _ _) as [[? ?] ?]. discriminate.
  - cbn [fst]. intros [= <-] [ty H]. exists ty. exact H.
Qed.

Lemma updateProjectiles_stock (ps : list ProjectileEntity.t) (r : Refs.t) :
  Forall stockShot ps ->
  Forall stockShot (fst (fst (updateProjectiles host ps r))).
Proof.
  induction ps as [|p rest IH]; intro H; [constructor|].
  inversion H as [|? ? Hp Hrest]; subst. specialize (IH Hrest).
  cbn [updateProjectiles].
  destruct (updateProjectiles host rest r) as [[rest' r1] c1].
  pose proof (updateProjectile_stock p) as Hk. specialize (Hk) with (r := r1).
  destruct (updateProjectile host p r1) as [[[p'|] r2] c2]; cbn [fst] in *;
    [|exact IH].
  constructor; [now apply (Hk p')|exact IH].
Qed.


(** The phases of a running step up to the firing of the towers. *)
Lemma update_phases (g : GameState.t) (wc : option WaveComposition.t)
  (r : Refs.t) :
  running g = true ->
  let r3 := towersFire host (set_enemies (targetingView host wc r)
                               (fst (spawning host wc r))) in
  let out := updateProjectiles host (Refs.projectilesRef r3) r3 in
  Refs.enemiesRef (fst (update host g wc r))
  = Refs.enemiesRef (snd (fst out))
  /\ Refs.towersRef (fst (update host g wc r)) = Refs.towersRef r3
  /\ Refs.projectilesRef (fst (update host g wc r)) = fst (fst out).
Proof.
  unfold running, update, targetingView. intro H.
  apply negb_true_iff in H. rewrite H.
  destruct (spawning host wc r) as [r1 c1]. cbn [fst].
  destruct (updateEnemies host (Refs.enemiesRef r1)) as [es c2]. cbn [fst].
  pose proof (updateProjectiles_stage host
                (Refs.projectilesRef (towersFire host (set_enemies (removeDead es) r1)))
                (towersFire host (set_enemies (removeDead es) r1)))
    as (Ht & _).
  destruct (updateProjectiles host
              (Refs.projectilesRef (towersFire host (set_enemies (removeDead es) r1)))
              (towersFire host (set_enemies (removeDead es) r1)))
    as [[ps r4] c4].
  cbn [fst snd] in *. repeat split. exact Ht.
Qed.

Lemma frame_arsenal (w : World.t) :
  arsenalInStock w -> arsenalInStock (frame host w).
Proof.
  intros [Ht Hp]. unfold arsenalInStock, towersIn in *. rewrite frame_refs.
  destruct (running (App.gameState (World.app w))) eqn:Hr;
    [|rewrite update_stopped by exact Hr; split; assumption].
  destruct (update_phases (App.gameState (World.app w))
              (App.waveComposition (World.app w)) (World.refs w) Hr)
    as (_ & -> & ->).
  destruct (spawning_others host (App.waveComposition (World.app w))
              (World.refs w)) as (S1 & S2 & _).
  destruct (towersFire_stock
              (set_enemies (targetingView host (App.waveComposition (World.app w))
                              (World.refs w))
                 (fst (spawning host (App.waveComposition (World.app w))
                         (World.refs w)))))
    as (T1 & T2).
  - cbn [set_enemies Refs.towersRef]. now rewrite S1.
  - cbn [set_enemies Refs.projectilesRef]. now rewrite S2.
  - split; [exact T1|]. now apply updateProjectiles_stock.
Qed.

Lemma click_arsenal (rect : option DOMRect.t) (e : MouseEvent.t) (w : World.t) :
  arsenalInStock w -> arsenalInStock (click host rect e w).
Proof.
  intros [Ht Hp]. unfold arsenalInStock, towersIn in *.
  destruct (click_refs host rect e w) as (_ & -> & _). split; [|exact Hp].
  unfold click, handleCanvasClick.
  destruct (placementVerdict host (App.gameState (World.app w))
              (App.selectedTower (World.app w)) rect e (World.refs w))
    as [why|t] eqn:Hv; [exact Ht|].
  cbn [World.refs].
  destruct (createParticles_refs host (TowerEntity.x t) (TowerEntity.y t)
              "#fff" 10
              (set_randomCalls (Refs.randomCalls (World.refs w) + 1)
                 (set_towers (Refs.towersRef (World.refs w) ++ [t]) (World.refs w))))
    as (_ & -> & _).
  cbn [set_randomCalls set_towers Refs.towersRef].
  apply Forall_app. split; [exact Ht|]. constructor; [|constructor].
  unfold placementVerdict in Hv.
  destruct (App.selectedTower (World.app w)) as [sel|]; [|discriminate].
  destruct (GameState.isGameOver (App.gameState (World.app w))); [discriminate|].
  destruct rect as [rc|]; [|discriminate].
  repeat match type of Hv with
         | (if ?c then _ else _) = _ => destruct c; [discriminate|]
         end.
  injection Hv as <-. repeat split.
Qed.

Lemma exec_arsenal (c : Command) (w : World.t) :
  arsenalInStock w -> arsenalInStock (exec host w c).
Proof.
  intro H. destruct c as [|rect e|ty|wd]; cbn [exec].
  - now apply frame_arsenal.
  - now apply click_arsenal.
  - unfold selectTower.
    match goal with |- context [if ?b then _ else _] => destruct b end;
      exact H.
  - unfold arsenalInStock. rewrite pressStart_towers.
    destruct (pressStart_refs wd w) as (_ & -> & _). exact H.
Qed.

(** X22.  Towers are never upgraded or altered: in every state reached
    from one whose towers and projectiles are catalogue items, every
    tower still has level 1 and the range, damage and cooldown of its
    type in the catalogue, and every projectile in flight carries the
    damage of some tower type, flies 10 pixels per frame, splashes only if
    that type is the mortar and carries a slow effect (of 60) only if it
    is the stasis field. *)
Theorem arsenal_stays_in_stock (cs : list Command) (w : World.t) :
  arsenalInStock w ->
  Forall stockTower (towersIn (run host w cs))
  /\ Forall stockShot (Refs.projectilesRef (World.refs (run host w cs))).
Proof.
  intro H. change (arsenalInStock (run host w cs)).
  revert w H. induction cs as [|c cs IH]; intros w H; [exact H|].
  cbn [run fold_left]. apply IH. now apply exec_arsenal.
Qed.






End Arsenal.

Lemma arsenal_stays_in_stock_witness :
  Forall stockTower (towersIn (run testHost initialWorld (twoBlasters ++ [Frame])))
  /\ Forall stockShot
       (Refs.projectilesRef
          (World.refs (run testHost initialWorld (twoBlasters ++ [Frame])))).
Proof.
  apply (arsenal_stays_in_stock testHost (twoBlasters ++ [Frame]) initialWorld).
  split; constructor.
Defined.

